(** * Versioning of Blender 4.0 files: a shallow embedding of
      [source/blender/blenloader/intern/versioning_400.cc]

    The development follows the source file: the transparency analysis of
    material node trees ([AlphaSource], [versioning_eevee_alpha_source_get],
    [versioning_eevee_material_blend_mode_settings]), the conversion of the
    legacy socket lists into the node tree interface, the split of sockets
    flagged as input and output, the sort of interface items, and the version
    guards of [blo_do_versions_400] and [do_versions_after_linking_400].

    Pointers are modelled by positions: a node is designated by its index in
    [ntree->nodes], a socket by its node, its side and its index in the
    socket list of that side.  A null pointer is [None].  Dereferencing a
    null pointer is the outcome [Fault]. *)

From Stdlib Require Import ZArith Lia Bool SpecFloat.
From stdpp Require Import base option list strings pretty sorting.

Local Open Scope Z_scope.

(** ** Outcomes of the embedded functions *)

Inductive result (A : Type) : Type :=
| Ok (a : A)
| Fault
| OutOfFuel.
Arguments Ok {A} a.
Arguments Fault {A}.
Arguments OutOfFuel {A}.

#[global] Instance result_ret : MRet result := fun A a => Ok a.
#[global] Instance result_bind : MBind result :=
  fun A B f m => match m with Ok a => f a | Fault => Fault | OutOfFuel => OutOfFuel end.

(** Dereference of a pointer that may be null. *)
Definition deref {A : Type} (p : option A) : result A :=
  match p with Some a => Ok a | None => Fault end.

(** ** Single precision floats ([float]) *)

Definition float32 : Type := spec_float.

Module F32.
Definition prec : Z := 24.
Definition emax : Z := 128.
Definition of_Z (z : Z) : float32 := binary_normalize prec emax z 0 false.
Definition zero : float32 := S754_zero false.
Definition one : float32 := of_Z 1.
Definition two : float32 := of_Z 2.
Definition three : float32 := of_Z 3.
Definition thirty : float32 := of_Z 30.
Definition half : float32 := binary_normalize prec emax 1 (-1) false.
Definition eqb : float32 -> float32 -> bool := SFeqb.
Definition ltb : float32 -> float32 -> bool := SFltb.
Definition leb : float32 -> float32 -> bool := SFleb.
Definition gtb (x y : float32) : bool := SFltb y x.
Definition geb (x y : float32) : bool := SFleb y x.
Definition add : float32 -> float32 -> float32 := SFadd prec emax.
Definition sub : float32 -> float32 -> float32 := SFsub prec emax.
Definition div : float32 -> float32 -> float32 := SFdiv prec emax.
(** [float(b)] for a [bool] b. *)
Definition of_bool (b : bool) : float32 := if b then one else zero.
End F32.

(** Modelled from the spec: [min_ff] of [BLI_math_base], defined outside
    [versioning_400.cc]; the smaller of two floats. *)
Definition min_ff (a b : float32) : float32 := if F32.ltb a b then a else b.

(** ** Node trees *)

Inductive eNodeSocketInOut := SOCK_IN | SOCK_OUT.

Inductive eNodeSocketDatatype :=
| SOCK_FLOAT | SOCK_VECTOR | SOCK_RGBA | SOCK_SHADER | SOCK_CUSTOM.

(** The node types the analysis tells apart; [node->type] is an integer, every
    other value is [NODE_TYPE_OTHER]. *)
Inductive node_type :=
| NODE_REROUTE
| NODE_GROUP
| SH_NODE_BSDF_TRANSPARENT
| SH_NODE_MIX_SHADER
| SH_NODE_ADD_SHADER
| SH_NODE_BSDF_PRINCIPLED
| SH_NODE_EEVEE_SPECULAR
| SH_NODE_OUTPUT_MATERIAL
| SH_NODE_MATH
| NODE_TYPE_OTHER (code : Z).

Definition node_ptr : Type := nat.

Record socket_ptr : Type := SocketPtr {
  sp_node : node_ptr;
  sp_in_out : eNodeSocketInOut;
  sp_index : nat
}.

Arguments SocketPtr sp_node%_nat sp_in_out sp_index%_nat.

#[global] Instance eNodeSocketInOut_eq_dec : EqDecision eNodeSocketInOut.
Proof. solve_decision. Defined.
#[global] Instance eNodeSocketDatatype_eq_dec : EqDecision eNodeSocketDatatype.
Proof. solve_decision. Defined.
#[global] Instance node_type_eq_dec : EqDecision node_type.
Proof. solve_decision. Defined.
#[global] Instance socket_ptr_eq_dec : EqDecision socket_ptr.
Proof. solve_decision. Defined.

(** What [socket->default_value] points to: the storage of a float socket,
    of a colour socket, or of a socket of another type. *)
Inductive bNodeSocketValue :=
| bNodeSocketValueFloat (value : float32)
| bNodeSocketValueRGBA (r g b a : float32)
| bNodeSocketValueOther (data : list Z).

(** An ID property, as far as the versioning code looks at it. *)
Inductive IDProperty := IDP (name : string) (data : list Z).

(** [struct bNodeSocket]; it serves for the sockets of nodes and for the
    legacy interface sockets of a tree. *)
Record bNodeSocket : Type := {
  sock_name : string;
  sock_identifier : string;
  sock_description : string;
  sock_idname : string;
  sock_flag : Z;
  sock_attribute_domain : Z;
  sock_default_attribute_name : option string;
  sock_type : eNodeSocketDatatype;
  sock_default_value : option bNodeSocketValue;
  sock_prop : option IDProperty
}.

Record bNode : Type := {
  node_idname : string;
  node_type_of : node_type;
  node_custom1 : Z;
  node_flag : Z;
  node_parent : option node_ptr;
  node_locx : float32;
  node_locy : float32;
  node_width : float32;
  node_inputs : list bNodeSocket;
  node_outputs : list bNodeSocket
}.

Record bNodeLink : Type := {
  fromnode : node_ptr;
  fromsock : socket_ptr;
  tonode : node_ptr;
  tosock : socket_ptr
}.

#[global] Instance bNodeLink_eq_dec : EqDecision bNodeLink.
Proof. solve_decision. Defined.

(** ** The interface of a node tree *)

Record bNodeTreeInterfaceSocket : Type := {
  name : option string;
  description : option string;
  socket_type : string;
  flag : Z;
  attribute_domain : Z;
  default_attribute_name : option string;
  identifier : string;
  socket_data : option bNodeSocketValue;
  properties : option IDProperty
}.

(** An item is a socket or a panel ([item_type] is [NODE_INTERFACE_SOCKET] or
    [NODE_INTERFACE_PANEL]); a panel owns the items of [items_array]. *)
Inductive bNodeTreeInterfaceItem : Type :=
| NODE_INTERFACE_SOCKET (socket : bNodeTreeInterfaceSocket)
| NODE_INTERFACE_PANEL (panel : bNodeTreeInterfacePanel)
with bNodeTreeInterfacePanel : Type :=
| Panel (panel_name : option string) (panel_flag : Z)
        (items_array : list bNodeTreeInterfaceItem).

Definition panel_name (p : bNodeTreeInterfacePanel) : option string :=
  match p with Panel n _ _ => n end.
Definition panel_flag (p : bNodeTreeInterfacePanel) : Z :=
  match p with Panel _ f _ => f end.
Definition items_array (p : bNodeTreeInterfacePanel) : list bNodeTreeInterfaceItem :=
  match p with Panel _ _ items => items end.
Definition set_items_array (p : bNodeTreeInterfacePanel)
    (items : list bNodeTreeInterfaceItem) : bNodeTreeInterfacePanel :=
  Panel (panel_name p) (panel_flag p) items.

Record bNodeTreeInterface : Type := {
  root_panel : bNodeTreeInterfacePanel;
  next_uid : Z
}.

Record bNodeTree : Type := {
  nodes : list bNode;
  links : list bNodeLink;
  inputs_legacy : list bNodeSocket;
  outputs_legacy : list bNodeSocket;
  tree_interface : bNodeTreeInterface
}.

Definition set_links (ntree : bNodeTree) (links : list bNodeLink) : bNodeTree :=
  {| nodes := nodes ntree;
     links := links;
     inputs_legacy := inputs_legacy ntree;
     outputs_legacy := outputs_legacy ntree;
     tree_interface := tree_interface ntree |}.

Definition set_nodes (ntree : bNodeTree) (nodes : list bNode) : bNodeTree :=
  {| nodes := nodes;
     links := links ntree;
     inputs_legacy := inputs_legacy ntree;
     outputs_legacy := outputs_legacy ntree;
     tree_interface := tree_interface ntree |}.

(** The sockets of one side of a node. *)
Definition node_sockets (node : bNode) (in_out : eNodeSocketInOut) : list bNodeSocket :=
  match in_out with SOCK_IN => node_inputs node | SOCK_OUT => node_outputs node end.

Definition node_at (ntree : bNodeTree) (n : node_ptr) : result bNode :=
  deref (nodes ntree !! n).

Definition socket_at (ntree : bNodeTree) (s : socket_ptr) : result bNodeSocket :=
  node ← node_at ntree (sp_node s);
  deref (node_sockets node (sp_in_out s) !! sp_index s).

(** Modelled from the spec: [BLI_findlink] of [BLI_listbase], defined outside
    [versioning_400.cc]; [BLI_findlink(&node->inputs, index)] is the socket at
    [index] of the list, null when the list is shorter. *)
Definition BLI_findlink (n : node_ptr) (node : bNode) (in_out : eNodeSocketInOut)
    (index : nat) : option socket_ptr :=
  match node_sockets node in_out !! index with
  | Some _ => Some (SocketPtr n in_out index)
  | None => None
  end.

Fixpoint find_identifier (identifier : string) (socks : list bNodeSocket) (i : nat)
    : option nat :=
  match socks with
  | [] => None
  | sock :: socks' =>
      if String.eqb (sock_identifier sock) identifier then Some i
      else find_identifier identifier socks' (S i)
  end.

(** Modelled from the spec: [blender::bke::nodeFindSocket], a function of the
    node kernel defined outside [versioning_400.cc]; it returns the first
    socket of the requested side whose identifier is the given one, null when
    there is none. *)
Definition nodeFindSocket (n : node_ptr) (node : bNode) (in_out : eNodeSocketInOut)
    (identifier : string) : option socket_ptr :=
  match find_identifier identifier (node_sockets node in_out) 0%nat with
  | Some i => Some (SocketPtr n in_out i)
  | None => None
  end.

(** Modelled from the spec: [socket->link] is the link that arrives at an input
    socket ("accepts at most one incoming Link if an input"); null when no link
    of the tree arrives at the socket. *)
Definition socket_link (ntree : bNodeTree) (s : socket_ptr) : option bNodeLink :=
  List.find (fun l => bool_decide (tosock l = s)) (links ntree).

(** Modelled from the spec: [version_cycles_node_socket_float_value] and
    [version_cycles_node_socket_rgba_value] of [versioning_common], defined
    outside [versioning_400.cc]; the address of the value inside
    [socket->default_value], "a default value when unconnected".  Reading
    through a storage of the other shape is a [Fault]. *)
Definition version_cycles_node_socket_float_value (sock : bNodeSocket) : result float32 :=
  match sock_default_value sock with
  | Some (bNodeSocketValueFloat v) => Ok v
  | _ => Fault
  end.

Definition version_cycles_node_socket_rgba_value (sock : bNodeSocket)
    : result (float32 * float32 * float32 * float32) :=
  match sock_default_value sock with
  | Some (bNodeSocketValueRGBA r g b a) => Ok (r, g, b, a)
  | _ => Fault
  end.

(** ** [struct AlphaSource] *)

Module AlphaSource.

Inductive AlphaState :=
| ALPHA_OPAQUE
| ALPHA_FULLY_TRANSPARENT
| ALPHA_SEMI_TRANSPARENT
| ALPHA_COMPLEX_MIX.

Record t : Type := Build {
  socket : option socket_ptr;
  state : AlphaState;
  is_transparency : bool
}.

Definition alpha_source (fac : option socket_ptr) (inverted : bool) : t :=
  Build fac ALPHA_SEMI_TRANSPARENT inverted.
Definition opaque : t := Build None ALPHA_OPAQUE false.
Definition fully_transparent (socket : option socket_ptr) (inverted : bool) : t :=
  Build socket ALPHA_FULLY_TRANSPARENT inverted.
Definition complex_alpha : t := Build None ALPHA_COMPLEX_MIX false.

Definition is_opaque (a : t) : bool :=
  match state a with ALPHA_OPAQUE => true | _ => false end.
Definition is_fully_transparent (a : t) : bool :=
  match state a with ALPHA_FULLY_TRANSPARENT => true | _ => false end.
Definition is_transparent (a : t) : bool :=
  match state a with ALPHA_OPAQUE => false | _ => true end.
Definition is_semi_transparent (a : t) : bool :=
  match state a with ALPHA_SEMI_TRANSPARENT => true | _ => false end.
Definition is_complex (a : t) : bool :=
  match state a with ALPHA_COMPLEX_MIX => true | _ => false end.

(** Combine two sources together with a blending parameter. *)
Definition mix (a b : t) (fac : option socket_ptr) : t :=
  if is_complex a || is_complex b then complex_alpha
  else if is_semi_transparent a || is_semi_transparent b then complex_alpha
  else if is_fully_transparent a && is_fully_transparent b then fully_transparent None false
  else if is_opaque a && is_opaque b then opaque
  else (* Only one of them is fully transparent. *)
    alpha_source fac (negb (is_transparent a)).

(** Combine two sources together with an additive blending parameter. *)
Definition add (a b : t) : t :=
  if is_complex a || is_complex b then complex_alpha
  else if is_semi_transparent a && is_transparent b then complex_alpha
  else if is_transparent a && is_semi_transparent b then complex_alpha
  else (* Either one of them is opaque or they are both opaque. *)
    if is_transparent a then a else b.

(** The rule for [mix] as the specification words it: the state of the
    result, and for a semi-transparent result whether the factor is read
    inverted. *)
Definition mix_spec_state (a b : t) : AlphaState :=
  if is_complex a || is_complex b then ALPHA_COMPLEX_MIX
  else if (is_semi_transparent a && is_transparent b)
          || (is_semi_transparent b && is_transparent a) then ALPHA_COMPLEX_MIX
  else if is_fully_transparent a && is_fully_transparent b then ALPHA_FULLY_TRANSPARENT
  else if is_opaque a && is_opaque b then ALPHA_OPAQUE
  else ALPHA_SEMI_TRANSPARENT.

End AlphaSource.

(** ** The recursive analysis of a closure socket

    [fuel] bounds the depth of the call stack of the embedding; it is
    independent of the [depth] argument of the source function. *)

Definition color_is (c : float32 * float32 * float32 * float32) (v : float32) : bool :=
  let '(r, g, b, _) := c in
  F32.eqb r v && F32.eqb g v && F32.eqb b v.

Fixpoint versioning_eevee_alpha_source_get (fuel : nat) (ntree : bNodeTree)
    (socket : option socket_ptr) (depth : Z) : result AlphaSource.t :=
  match fuel with
  | O => OutOfFuel
  | S fuel =>
    if depth >? 100 then
      (* Protection against infinite / very long recursion. *)
      Ok AlphaSource.complex_alpha
    else
      socket ← deref socket;
      match socket_link ntree socket with
      | None =>
          (* Unconnected closure socket is always opaque black. *)
          Ok AlphaSource.opaque
      | Some link =>
        let n := fromnode link in
        node ← node_at ntree n;
        match node_type_of node with
        | NODE_REROUTE =>
            versioning_eevee_alpha_source_get fuel ntree
              (BLI_findlink n node SOCK_IN 0) (depth + 1)
        | NODE_GROUP =>
            Ok AlphaSource.complex_alpha
        | SH_NODE_BSDF_TRANSPARENT =>
            let socket := nodeFindSocket n node SOCK_IN "Color" in
            s ← deref socket;
            match socket_link ntree s with
            | None =>
                sock ← socket_at ntree s;
                socket_color_value ← version_cycles_node_socket_rgba_value sock;
                if color_is socket_color_value F32.zero then
                  Ok AlphaSource.opaque
                else if color_is socket_color_value F32.one then
                  Ok (AlphaSource.fully_transparent socket true)
                else Ok (AlphaSource.alpha_source socket true)
            | Some _ => Ok (AlphaSource.alpha_source socket true)
            end
        | SH_NODE_MIX_SHADER =>
            let socket := nodeFindSocket n node SOCK_IN "Fac" in
            src0 ← versioning_eevee_alpha_source_get fuel ntree
                     (BLI_findlink n node SOCK_IN 1) (depth + 1);
            src1 ← versioning_eevee_alpha_source_get fuel ntree
                     (BLI_findlink n node SOCK_IN 2) (depth + 1);
            s ← deref socket;
            match socket_link ntree s with
            | None =>
                sock ← socket_at ntree s;
                socket_float_value ← version_cycles_node_socket_float_value sock;
                if F32.eqb socket_float_value F32.zero then Ok src0
                else if F32.eqb socket_float_value F32.one then Ok src1
                else Ok (AlphaSource.mix src0 src1 socket)
            | Some _ => Ok (AlphaSource.mix src0 src1 socket)
            end
        | SH_NODE_ADD_SHADER =>
            src0 ← versioning_eevee_alpha_source_get fuel ntree
                     (BLI_findlink n node SOCK_IN 0) (depth + 1);
            src1 ← versioning_eevee_alpha_source_get fuel ntree
                     (BLI_findlink n node SOCK_IN 1) (depth + 1);
            Ok (AlphaSource.add src0 src1)
        | SH_NODE_BSDF_PRINCIPLED =>
            let socket := nodeFindSocket n node SOCK_IN "Alpha" in
            s ← deref socket;
            match socket_link ntree s with
            | None =>
                sock ← socket_at ntree s;
                socket_value ← version_cycles_node_socket_float_value sock;
                if F32.eqb socket_value F32.zero then
                  Ok (AlphaSource.fully_transparent socket false)
                else if F32.eqb socket_value F32.one then
                  Ok AlphaSource.opaque
                else Ok (AlphaSource.alpha_source socket false)
            | Some _ => Ok (AlphaSource.alpha_source socket false)
            end
        | SH_NODE_EEVEE_SPECULAR =>
            let socket := nodeFindSocket n node SOCK_IN "Transparency" in
            s ← deref socket;
            match socket_link ntree s with
            | None =>
                sock ← socket_at ntree s;
                socket_value ← version_cycles_node_socket_float_value sock;
                if F32.eqb socket_value F32.zero then
                  Ok (AlphaSource.fully_transparent socket true)
                else if F32.eqb socket_value F32.one then
                  Ok AlphaSource.opaque
                else Ok (AlphaSource.alpha_source socket true)
            | Some _ => Ok (AlphaSource.alpha_source socket true)
            end
        | _ => Ok AlphaSource.opaque
        end
      end
  end.

(** The call stack an analysis started at [depth] can need: the frame of the
    call, and one more per value the depth counter takes up to the first one
    above the cap. *)
Definition alpha_source_fuel (depth : Z) : nat := S (Z.to_nat (101 - depth)).

(** ** Declarations the source file takes from elsewhere

    Constants of the DNA headers and functions of [versioning_common] and of
    the node kernel, declared outside [versioning_400.cc].  The model is
    parametric in them. *)

Class Kernel : Type := {
  (** [NODE_MATH_GREATER_THAN], an operation of the math node. *)
  NODE_MATH_GREATER_THAN : Z;
  (** [NODE_HIDDEN], a bit of [node->flag]. *)
  NODE_HIDDEN : Z;
  (** [RE_engine_id_BLENDER_EEVEE], the name of the legacy render engine. *)
  RE_engine_id_BLENDER_EEVEE : string;
  (** [version_eevee_output_node_get(ntree, type)]: the output node of the
      tree, null when it has none. *)
  version_eevee_output_node_get : bNodeTree -> node_type -> option node_ptr;
  (** The node [nodeAddNode] makes for a type name, with the default sockets of
      that type. *)
  node_type_new : string -> bNode
}.

(** ** Node graph rewriting primitives *)

Fixpoint remove_first (link : bNodeLink) (l : list bNodeLink) : list bNodeLink :=
  match l with
  | [] => []
  | x :: l' => if bool_decide (x = link) then l' else x :: remove_first link l'
  end.

(** Modelled from the spec: [remove_link(link)] (blender::bke::nodeRemLink, a
    function of the node kernel defined outside [versioning_400.cc]) takes the
    link out of the tree. *)
Definition nodeRemLink (ntree : bNodeTree) (link : bNodeLink) : bNodeTree :=
  set_links ntree (remove_first link (links ntree)).

(** Modelled from the spec: [add_node(type) -> Node] (blender::bke::nodeAddNode,
    a function of the node kernel defined outside [versioning_400.cc])
    "creates a node with its type's default
    sockets"; the node is appended to the nodes of the tree. *)
Definition nodeAddNode `{Kernel} (ntree : bNodeTree) (idname : string)
    : node_ptr * bNodeTree :=
  (length (nodes ntree), set_nodes ntree (nodes ntree ++ [node_type_new idname])).

(** Modelled from the spec: [add_link(from_socket, to_socket)]
    (blender::bke::nodeAddLink, a function of the node kernel defined outside
    [versioning_400.cc]): "if
    [to_socket] already has an incoming link, that link is removed first". *)
Definition nodeAddLink (ntree : bNodeTree) (from_node : node_ptr)
    (from_sock : option socket_ptr) (to_node : node_ptr) (to_sock : option socket_ptr)
    : result bNodeTree :=
  from_sock ← deref from_sock;
  to_sock ← deref to_sock;
  Ok (set_links ntree
        (filter (fun l => tosock l <> to_sock) (links ntree)
         ++ [ {| fromnode := from_node; fromsock := from_sock;
                 tonode := to_node; tosock := to_sock |} ])).

(** Assignments through a node pointer and through a socket pointer. *)
Definition update_node (ntree : bNodeTree) (n : node_ptr) (f : bNode -> bNode)
    : result bNodeTree :=
  _ ← node_at ntree n;
  Ok (set_nodes ntree (alter f n (nodes ntree))).

Definition set_node_socket (in_out : eNodeSocketInOut) (i : nat)
    (f : bNodeSocket -> bNodeSocket) (node : bNode) : bNode :=
  {| node_idname := node_idname node;
     node_type_of := node_type_of node;
     node_custom1 := node_custom1 node;
     node_flag := node_flag node;
     node_parent := node_parent node;
     node_locx := node_locx node;
     node_locy := node_locy node;
     node_width := node_width node;
     node_inputs := match in_out with
                    | SOCK_IN => alter f i (node_inputs node)
                    | SOCK_OUT => node_inputs node
                    end;
     node_outputs := match in_out with
                     | SOCK_IN => node_outputs node
                     | SOCK_OUT => alter f i (node_outputs node)
                     end |}.

Definition set_default_value (v : bNodeSocketValue) (sock : bNodeSocket) : bNodeSocket :=
  {| sock_name := sock_name sock;
     sock_identifier := sock_identifier sock;
     sock_description := sock_description sock;
     sock_idname := sock_idname sock;
     sock_flag := sock_flag sock;
     sock_attribute_domain := sock_attribute_domain sock;
     sock_default_attribute_name := sock_default_attribute_name sock;
     sock_type := sock_type sock;
     sock_default_value := Some v;
     sock_prop := sock_prop sock |}.

(** [*version_cycles_node_socket_float_value(socket) = v] *)
Definition write_float_value (ntree : bNodeTree) (s : socket_ptr) (v : float32)
    : result bNodeTree :=
  sock ← socket_at ntree s;
  _ ← version_cycles_node_socket_float_value sock;
  update_node ntree (sp_node s)
    (set_node_socket (sp_in_out s) (sp_index s) (set_default_value (bNodeSocketValueFloat v))).

(** [copy_v4_v4(version_cycles_node_socket_rgba_value(socket), values)] *)
Definition write_rgba_value (ntree : bNodeTree) (s : socket_ptr)
    (values : float32 * float32 * float32 * float32) : result bNodeTree :=
  sock ← socket_at ntree s;
  _ ← version_cycles_node_socket_rgba_value sock;
  let '(r, g, b, a) := values in
  update_node ntree (sp_node s)
    (set_node_socket (sp_in_out s) (sp_index s)
       (set_default_value (bNodeSocketValueRGBA r g b a))).

(** The fields [versioning_eevee_material_blend_mode_settings] sets on the math
    node it inserts. *)
Definition setup_math_node `{Kernel} (to_node from_node : bNode) (math_node : bNode) : bNode :=
  {| node_idname := node_idname math_node;
     node_type_of := node_type_of math_node;
     node_custom1 := NODE_MATH_GREATER_THAN;
     node_flag := Z.lor (node_flag math_node) NODE_HIDDEN;
     node_parent := node_parent to_node;
     node_locx := F32.sub (F32.sub (node_locx to_node) (node_width math_node)) F32.thirty;
     node_locy := min_ff (node_locy to_node) (node_locy from_node);
     node_width := node_width math_node;
     node_inputs := node_inputs math_node;
     node_outputs := node_outputs math_node |}.

(** The value the comparison node tests against. *)
Definition math_threshold (alpha : AlphaSource.t) (threshold : float32) : float32 :=
  if AlphaSource.is_transparency alpha then F32.sub F32.one threshold else threshold.

(** The math node as the conversion leaves it. *)
Definition inserted_math_node `{Kernel} (to_node from_node : bNode) (value : float32) : bNode :=
  set_node_socket SOCK_IN 1 (set_default_value (bNodeSocketValueFloat value))
    (setup_math_node to_node from_node (node_type_new "ShaderNodeMath")).

(** ** [versioning_eevee_material_blend_mode_settings]

    The result is the returned boolean and the tree after the call. *)
Definition versioning_eevee_material_blend_mode_settings `{Kernel}
    (ntree : bNodeTree) (threshold : float32) : result (bool * bNodeTree) :=
  match version_eevee_output_node_get ntree SH_NODE_OUTPUT_MATERIAL with
  | None => Ok (true, ntree)
  | Some output_node =>
    output ← node_at ntree output_node;
    let surface_socket := nodeFindSocket output_node output SOCK_IN "Surface" in
    alpha ← versioning_eevee_alpha_source_get (alpha_source_fuel 0) ntree surface_socket 0;
    if AlphaSource.is_complex alpha then Ok (false, ntree)
    else
      match AlphaSource.socket alpha with
      | None => Ok (true, ntree)
      | Some alpha_socket =>
        let is_opaque := F32.eqb threshold F32.two in
        if is_opaque then
          let ntree :=
            match socket_link ntree alpha_socket with
            | Some link => nodeRemLink ntree link
            | None => ntree
            end in
          let value := if AlphaSource.is_transparency alpha then F32.zero else F32.one in
          let values := (value, value, value, F32.one) in
          (* Set default value to opaque. *)
          sock ← socket_at ntree alpha_socket;
          ntree ← (if bool_decide (sock_type sock = SOCK_RGBA)
                   then write_rgba_value ntree alpha_socket values
                   else write_float_value ntree alpha_socket value);
          Ok (true, ntree)
        else
          match socket_link ntree alpha_socket with
          | Some link =>
            (* Insert math node. *)
            let to_node := tonode link in
            let from_node := fromnode link in
            let to_socket := tosock link in
            let from_socket := fromsock link in
            let ntree := nodeRemLink ntree link in
            let '(math_node, ntree) := nodeAddNode ntree "ShaderNodeMath" in
            to ← node_at ntree to_node;
            from ← node_at ntree from_node;
            ntree ← update_node ntree math_node (setup_math_node to from);
            math ← node_at ntree math_node;
            let input_1 := BLI_findlink math_node math SOCK_IN 0 in
            let input_2 := BLI_findlink math_node math SOCK_IN 1 in
            let output := BLI_findlink math_node math SOCK_OUT 0 in
            let alpha_sock := input_1 in
            let threshold_sock := input_2 in
            ntree ← nodeAddLink ntree from_node (Some from_socket) math_node alpha_sock;
            ntree ← nodeAddLink ntree math_node output to_node (Some to_socket);
            threshold_sock ← deref threshold_sock;
            ntree ← write_float_value ntree threshold_sock
                      (if AlphaSource.is_transparency alpha
                       then F32.sub F32.one threshold else threshold);
            Ok (true, ntree)
          | None =>
            (* Modify alpha value directly. *)
            sock ← socket_at ntree alpha_socket;
            if bool_decide (sock_type sock = SOCK_RGBA) then
              default_value ← version_cycles_node_socket_rgba_value sock;
              let '(r, g, b, _) := default_value in
              let sum := F32.add (F32.add r g) b in
              (* Don't do the division if possible to avoid float imprecision. *)
              let avg := if F32.geb sum F32.three then F32.one else F32.div sum F32.three in
              let value := F32.of_bool
                (if AlphaSource.is_transparency alpha
                 then F32.gtb avg (F32.sub F32.one threshold)
                 else F32.gtb avg threshold) in
              ntree ← write_rgba_value ntree alpha_socket (value, value, value, F32.one);
              Ok (true, ntree)
            else
              default_value ← version_cycles_node_socket_float_value sock;
              ntree ← write_float_value ntree alpha_socket
                (F32.of_bool
                   (if AlphaSource.is_transparency alpha
                    then F32.gtb default_value (F32.sub F32.one threshold)
                    else F32.gtb default_value threshold));
              Ok (true, ntree)
          end
      end
  end.

(** ** Version guards *)

Record Scene : Type := { r_engine : string }.

Inductive eBlenderMaterial_BlendMethod :=
| MA_BM_SOLID | MA_BM_ADD | MA_BM_MULTIPLY | MA_BM_CLIP | MA_BM_HASHED | MA_BM_BLEND.

Inductive eBlenderMaterial_BlendShadow :=
| MA_BS_NONE | MA_BS_SOLID | MA_BS_CLIP | MA_BS_HASHED.

#[global] Instance blend_method_eq_dec : EqDecision eBlenderMaterial_BlendMethod.
Proof. solve_decision. Defined.
#[global] Instance blend_shadow_eq_dec : EqDecision eBlenderMaterial_BlendShadow.
Proof. solve_decision. Defined.

Record Material : Type := {
  (** [id.name], with the two characters of the ID code in front. *)
  id_name : string;
  use_nodes : bool;
  nodetree : option bNodeTree;
  blend_method : eBlenderMaterial_BlendMethod;
  blend_shadow : eBlenderMaterial_BlendShadow;
  alpha_threshold : float32
}.

Record Main : Type := {
  versionfile : Z;
  subversionfile : Z;
  scenes : list Scene;
  materials : list Material
}.

(** Modelled from the spec: the macro [MAIN_VERSION_FILE_ATLEAST], defined in
    [BKE_main.hh] outside [versioning_400.cc]; it is the [at_least(major, minor)] of
    the Version Gate on the ordered pair (major, minor) the document stores. *)
Definition MAIN_VERSION_FILE_ATLEAST (bmain : Main) (ver subver : Z) : bool :=
  (versionfile bmain >? ver)
  || ((versionfile bmain =? ver) && (subversionfile bmain >=? subver)).

(** The order on version tags: [tag_lt a b] when [a] is strictly below [b]. *)
Definition tag_lt (a b : Z * Z) : Prop :=
  a.1 < b.1 \/ (a.1 = b.1 /\ a.2 < b.2).
Definition tag_le (a b : Z * Z) : Prop :=
  a.1 < b.1 \/ (a.1 = b.1 /\ a.2 <= b.2).

Definition stored_tag (bmain : Main) : Z * Z := (versionfile bmain, subversionfile bmain).

(** The condition of the [if] around a block of the versioning functions. *)
Inductive guard :=
| NotAtLeast (ver subver : Z)
    (* if (!MAIN_VERSION_FILE_ATLEAST(bmain, ver, subver)) *)
| AtLeastAndNotAtLeast (ver0 subver0 ver subver : Z).
    (* if (MAIN_VERSION_FILE_ATLEAST(bmain, ver0, subver0) &&
           !MAIN_VERSION_FILE_ATLEAST(bmain, ver, subver)) *)

Definition guard_holds (bmain : Main) (g : guard) : bool :=
  match g with
  | NotAtLeast ver subver => negb (MAIN_VERSION_FILE_ATLEAST bmain ver subver)
  | AtLeastAndNotAtLeast ver0 subver0 ver subver =>
      MAIN_VERSION_FILE_ATLEAST bmain ver0 subver0
      && negb (MAIN_VERSION_FILE_ATLEAST bmain ver subver)
  end.

(** The tag a block is guarded at. *)
Definition guard_tag (g : guard) : Z * Z :=
  match g with
  | NotAtLeast ver subver => (ver, subver)
  | AtLeastAndNotAtLeast _ _ ver subver => (ver, subver)
  end.

(** The guards of [blo_do_versions_400], in the order of the source. *)
Definition blo_do_versions_400_guards : list guard :=
  [ NotAtLeast 400 1; NotAtLeast 400 2; NotAtLeast 400 5; NotAtLeast 400 6;
    NotAtLeast 400 7; NotAtLeast 400 8; NotAtLeast 400 9; NotAtLeast 400 10;
    NotAtLeast 400 11; NotAtLeast 400 12; NotAtLeast 400 13; NotAtLeast 400 14;
    NotAtLeast 400 16; NotAtLeast 400 17; NotAtLeast 400 20; NotAtLeast 400 22;
    NotAtLeast 400 23; NotAtLeast 400 24; NotAtLeast 400 25; NotAtLeast 400 26;
    NotAtLeast 400 27; NotAtLeast 400 28; NotAtLeast 400 29; NotAtLeast 400 30;
    NotAtLeast 400 31; NotAtLeast 400 33; NotAtLeast 401 1; NotAtLeast 401 4;
    NotAtLeast 401 5; NotAtLeast 401 5; NotAtLeast 401 7; NotAtLeast 401 8;
    NotAtLeast 401 9; NotAtLeast 401 10;
    AtLeastAndNotAtLeast 400 20 401 11;
    NotAtLeast 401 12; NotAtLeast 401 13; NotAtLeast 401 14; NotAtLeast 401 15;
    NotAtLeast 401 16; NotAtLeast 401 17; NotAtLeast 401 18; NotAtLeast 401 19;
    NotAtLeast 401 20; NotAtLeast 401 21; NotAtLeast 400 0; NotAtLeast 402 1;
    NotAtLeast 402 2; NotAtLeast 402 3; NotAtLeast 402 4; NotAtLeast 402 5;
    NotAtLeast 402 6; NotAtLeast 402 8; NotAtLeast 402 9; NotAtLeast 402 10;
    NotAtLeast 402 12; NotAtLeast 402 14; NotAtLeast 402 18; NotAtLeast 402 19;
    NotAtLeast 402 20; NotAtLeast 402 21; NotAtLeast 402 22; NotAtLeast 402 23;
    NotAtLeast 402 24; NotAtLeast 402 25; NotAtLeast 402 26; NotAtLeast 402 27;
    NotAtLeast 402 28; NotAtLeast 402 29; NotAtLeast 402 30; NotAtLeast 402 31;
    NotAtLeast 402 31; NotAtLeast 402 33; NotAtLeast 402 34; NotAtLeast 402 36;
    NotAtLeast 402 37; NotAtLeast 402 38; NotAtLeast 402 39; NotAtLeast 402 40;
    NotAtLeast 402 41; NotAtLeast 402 43; NotAtLeast 402 44; NotAtLeast 402 45;
    NotAtLeast 402 46; NotAtLeast 402 48; NotAtLeast 402 49; NotAtLeast 402 50;
    NotAtLeast 402 53; NotAtLeast 402 55 ].

(** The guards of [do_versions_after_linking_400]. *)
Definition do_versions_after_linking_400_guards : list guard :=
  [ NotAtLeast 400 9; NotAtLeast 400 21; NotAtLeast 400 24; NotAtLeast 400 34;
    NotAtLeast 401 5; NotAtLeast 401 23; NotAtLeast 402 15; NotAtLeast 402 23;
    NotAtLeast 402 51; NotAtLeast 402 52 ].

(** One pass over the guarded blocks of a versioning function: the positions
    of the blocks whose body runs, in the order they run.  Every block is
    one statement of the function, reached once. *)
Fixpoint blocks_run_from (bmain : Main) (i : nat) (gs : list guard) : list nat :=
  match gs with
  | [] => []
  | g :: gs' =>
      if guard_holds bmain g then i :: blocks_run_from bmain (S i) gs'
      else blocks_run_from bmain (S i) gs'
  end.

Definition blocks_run (bmain : Main) (gs : list guard) : list nat :=
  blocks_run_from bmain 0%nat gs.

(** ** The conversion of the blend method, in [do_versions_after_linking_400] *)

Inductive eReportType := RPT_INFO | RPT_WARNING.

Record Report : Type := { report_type : eReportType; report_message : string }.

Definition newline : string := String (Ascii.ascii_of_nat 10) EmptyString.

(** [material->id.name + 2] *)
Definition id_name_skip_code (name : string) : string :=
  String.substring 2 (String.length name - 2) name.

Definition report_different_modes (material : Material) : Report :=
  {| report_type := RPT_WARNING;
     report_message :=
       "Couldn't convert material " +:+ id_name_skip_code (id_name material)
       +:+ " because of different Blend Mode and Shadow Mode" +:+ newline |}.

Definition report_non_trivial_alpha (material : Material) : Report :=
  {| report_type := RPT_WARNING;
     report_message :=
       "Couldn't convert material " +:+ id_name_skip_code (id_name material)
       +:+ " because of non-trivial alpha blending" +:+ newline |}.

Definition set_nodetree (material : Material) (ntree : bNodeTree) : Material :=
  {| id_name := id_name material;
     use_nodes := use_nodes material;
     nodetree := Some ntree;
     blend_method := blend_method material;
     blend_shadow := blend_shadow material;
     alpha_threshold := alpha_threshold material |}.

(** The body of the loop over [bmain->materials]: the material after the
    iteration and the reports the iteration adds. *)
Definition convert_blend_method `{Kernel} (material : Material)
    : result (Material * list Report) :=
  match nodetree material with
  | None => Ok (material, [])
  | Some ntree =>
    if negb (use_nodes material) then Ok (material, [])
    else if bool_decide (blend_method material = MA_BM_HASHED)
            || bool_decide (blend_method material = MA_BM_BLEND) then
      (* Compatible modes. Nothing to change. *)
      Ok (material, [])
    else if negb (bool_decide (blend_shadow material = MA_BS_NONE))
            && negb (bool_decide (blend_shadow material = MA_BS_SOLID))
            && ((bool_decide (blend_shadow material = MA_BS_CLIP)
                 && negb (bool_decide (blend_method material = MA_BM_CLIP)))
                || bool_decide (blend_shadow material = MA_BS_HASHED)) then
      Ok (material, [report_different_modes material])
    else
      let threshold :=
        if bool_decide (blend_method material = MA_BM_CLIP)
        then alpha_threshold material else F32.two in
      r ← versioning_eevee_material_blend_mode_settings ntree threshold;
      let '(converted, ntree) := r in
      if negb converted then
        Ok (set_nodetree material ntree, [report_non_trivial_alpha material])
      else Ok (set_nodetree material ntree, [])
  end.

(** [LISTBASE_FOREACH (Material *, material, &bmain->materials)] *)
Fixpoint convert_blend_methods `{Kernel} (materials : list Material)
    (reports : list Report) : result (list Material * list Report) :=
  match materials with
  | [] => Ok ([], reports)
  | material :: rest =>
      r ← convert_blend_method material;
      let '(material, added) := r in
      r ← convert_blend_methods rest (reports ++ added);
      let '(rest, reports) := r in
      Ok (material :: rest, reports)
  end.

Definition set_materials (bmain : Main) (materials : list Material) : Main :=
  {| versionfile := versionfile bmain;
     subversionfile := subversionfile bmain;
     scenes := scenes bmain;
     materials := materials |}.

(** The block [if (!MAIN_VERSION_FILE_ATLEAST(bmain, 402, 51))] of
    [do_versions_after_linking_400]. *)
Definition do_versions_after_linking_400_blend_method `{Kernel}
    (bmain : Main) (reports : list Report) : result (Main * list Report) :=
  if negb (MAIN_VERSION_FILE_ATLEAST bmain 402 51) then
    (* Convert blend method to math nodes. *)
    let scene := head (scenes bmain) in
    let scene_uses_eevee_legacy :=
      match scene with
      | Some scene => String.eqb (r_engine scene) RE_engine_id_BLENDER_EEVEE
      | None => false
      end in
    if scene_uses_eevee_legacy then
      r ← convert_blend_methods (materials bmain) reports;
      let '(materials, reports) := r in
      Ok (set_materials bmain materials, reports)
    else Ok (bmain, reports)
  else Ok (bmain, reports).



(** The nodes a link names exist and its two sockets are sockets of those
    nodes.  Whether the sockets themselves exist is left to [link_valid]. *)
Definition link_resolves (ntree : bNodeTree) (l : bNodeLink) : Prop :=
  (fromnode l < length (nodes ntree))%nat
  /\ (tonode l < length (nodes ntree))%nat
  /\ sp_node (fromsock l) = fromnode l
  /\ sp_node (tosock l) = tonode l.

Definition links_resolve (ntree : bNodeTree) : Prop :=
  Forall (link_resolves ntree) (links ntree).

(** ** Conversion of the legacy socket lists into the interface *)

(** The flag bits of the DNA headers the interface code tests and sets.  The
    headers are outside [versioning_400.cc]: the model takes the masks as
    given, with what the code relies on, that the four masks of
    [NodeTreeInterfaceSocketFlag] are not zero and share no bit. *)
Class InterfaceFlags : Type := {
  NODE_INTERFACE_SOCKET_INPUT : Z;
  NODE_INTERFACE_SOCKET_OUTPUT : Z;
  NODE_INTERFACE_SOCKET_HIDE_VALUE : Z;
  NODE_INTERFACE_SOCKET_HIDE_IN_MODIFIER : Z;
  SOCK_HIDE_VALUE : Z;
  SOCK_HIDE_IN_MODIFIER : Z;
  NODE_INTERFACE_PANEL_ALLOW_SOCKETS_AFTER_PANELS : Z;
  interface_masks_not_zero :
    Forall (fun m => m <> 0)
      [NODE_INTERFACE_SOCKET_INPUT; NODE_INTERFACE_SOCKET_OUTPUT;
       NODE_INTERFACE_SOCKET_HIDE_VALUE; NODE_INTERFACE_SOCKET_HIDE_IN_MODIFIER];
  interface_masks_disjoint :
    Z.land NODE_INTERFACE_SOCKET_INPUT NODE_INTERFACE_SOCKET_OUTPUT = 0
    /\ Z.land NODE_INTERFACE_SOCKET_INPUT NODE_INTERFACE_SOCKET_HIDE_VALUE = 0
    /\ Z.land NODE_INTERFACE_SOCKET_INPUT NODE_INTERFACE_SOCKET_HIDE_IN_MODIFIER = 0
    /\ Z.land NODE_INTERFACE_SOCKET_OUTPUT NODE_INTERFACE_SOCKET_HIDE_VALUE = 0
    /\ Z.land NODE_INTERFACE_SOCKET_OUTPUT NODE_INTERFACE_SOCKET_HIDE_IN_MODIFIER = 0
    /\ Z.land NODE_INTERFACE_SOCKET_HIDE_VALUE NODE_INTERFACE_SOCKET_HIDE_IN_MODIFIER = 0
}.

(** [value & mask] read as a condition. *)
Definition flag_test (value mask : Z) : bool := negb (Z.land value mask =? 0).

(** Modelled from the spec: the macro [SET_FLAG_FROM_TEST(value, test, flag)] of
    [BLI_utildefines], defined outside [versioning_400.cc]; it sets the bits of
    [flag] in [value] when [test] holds and clears them otherwise. *)
Definition SET_FLAG_FROM_TEST (value : Z) (test : bool) (mask : Z) : Z :=
  if test then Z.lor value mask else Z.land value (Z.lnot mask).

Definition subtypes_map : list (string * string) :=
  [ ("NodeSocketFloatUnsigned", "NodeSocketFloat");
    ("NodeSocketFloatPercentage", "NodeSocketFloat");
    ("NodeSocketFloatFactor", "NodeSocketFloat");
    ("NodeSocketFloatAngle", "NodeSocketFloat");
    ("NodeSocketFloatTime", "NodeSocketFloat");
    ("NodeSocketFloatTimeAbsolute", "NodeSocketFloat");
    ("NodeSocketFloatDistance", "NodeSocketFloat");
    ("NodeSocketIntUnsigned", "NodeSocketInt");
    ("NodeSocketIntPercentage", "NodeSocketInt");
    ("NodeSocketIntFactor", "NodeSocketInt");
    ("NodeSocketVectorTranslation", "NodeSocketVector");
    ("NodeSocketVectorDirection", "NodeSocketVector");
    ("NodeSocketVectorVelocity", "NodeSocketVector");
    ("NodeSocketVectorAcceleration", "NodeSocketVector");
    ("NodeSocketVectorEuler", "NodeSocketVector");
    ("NodeSocketVectorXYZ", "NodeSocketVector") ]%string.

Fixpoint lookup_subtype (pairs : list (string * string)) (idname : string) : string :=
  match pairs with
  | [] => (* Unchanged socket idname. *) idname
  | entry :: pairs' =>
      if String.eqb (fst entry) idname then snd entry else lookup_subtype pairs' idname
  end.

Definition legacy_socket_idname_to_socket_type (idname : string) : string :=
  lookup_subtype subtypes_map idname.

(** The legacy socket once its data has been taken away. *)
Definition legacy_socket_moved_from (legacy_socket : bNodeSocket) : bNodeSocket :=
  {| sock_name := sock_name legacy_socket;
     sock_identifier := sock_identifier legacy_socket;
     sock_description := sock_description legacy_socket;
     sock_idname := sock_idname legacy_socket;
     sock_flag := sock_flag legacy_socket;
     sock_attribute_domain := sock_attribute_domain legacy_socket;
     sock_default_attribute_name := None;
     sock_type := sock_type legacy_socket;
     sock_default_value := None;
     sock_prop := None |}.

(** The result is the new item and the legacy socket after the call. *)
Definition legacy_socket_move_to_interface `{InterfaceFlags}
    (legacy_socket : bNodeSocket) (in_out : eNodeSocketInOut)
    : bNodeTreeInterfaceItem * bNodeSocket :=
  let flag0 := match in_out with
               | SOCK_IN => NODE_INTERFACE_SOCKET_INPUT
               | SOCK_OUT => NODE_INTERFACE_SOCKET_OUTPUT
               end in
  let flag1 := SET_FLAG_FROM_TEST flag0
                 (flag_test (sock_flag legacy_socket) SOCK_HIDE_VALUE)
                 NODE_INTERFACE_SOCKET_HIDE_VALUE in
  let flag2 := SET_FLAG_FROM_TEST flag1
                 (flag_test (sock_flag legacy_socket) SOCK_HIDE_IN_MODIFIER)
                 NODE_INTERFACE_SOCKET_HIDE_IN_MODIFIER in
  let new_socket :=
    {| (* Move reusable data. *)
       name := Some (sock_name legacy_socket);
       identifier := sock_identifier legacy_socket;
       description := Some (sock_description legacy_socket);
       socket_type := legacy_socket_idname_to_socket_type (sock_idname legacy_socket);
       flag := flag2;
       attribute_domain := sock_attribute_domain legacy_socket;
       (* The following data are stolen from the old data. *)
       default_attribute_name := sock_default_attribute_name legacy_socket;
       socket_data := sock_default_value legacy_socket;
       properties := sock_prop legacy_socket |} in
  (NODE_INTERFACE_SOCKET new_socket, legacy_socket_moved_from legacy_socket).

(** [LISTBASE_FOREACH_INDEX (bNodeSocket *, socket, list, index)] with the body
    [items_array[offset + index] = legacy_socket_move_to_interface(socket, in_out)];
    an entry of the array under construction is [None] until it is written. *)
Fixpoint move_legacy_sockets `{InterfaceFlags} (in_out : eNodeSocketInOut)
    (offset index : nat) (sockets : list bNodeSocket)
    (items_array : list (option bNodeTreeInterfaceItem))
    : list (option bNodeTreeInterfaceItem) * list bNodeSocket :=
  match sockets with
  | [] => (items_array, [])
  | socket :: rest =>
      let '(item, socket) := legacy_socket_move_to_interface socket in_out in
      let items_array := <[(offset + index)%nat := Some item]> items_array in
      let '(items_array, rest) :=
        move_legacy_sockets in_out offset (S index) rest items_array in
      (items_array, socket :: rest)
  end.

Definition versioning_convert_node_tree_socket_lists_to_interface `{InterfaceFlags}
    (ntree : bNodeTree) : result bNodeTree :=
  let num_inputs := length (inputs_legacy ntree) in
  let num_outputs := length (outputs_legacy ntree) in
  let items_num := (num_inputs + num_outputs)%nat in
  let items_array := replicate items_num None in
  (* Convert outputs first to retain old outputs/inputs ordering. *)
  let '(items_array, outputs) :=
    move_legacy_sockets SOCK_OUT 0 0 (outputs_legacy ntree) items_array in
  let '(items_array, inputs) :=
    move_legacy_sockets SOCK_IN num_outputs 0 (inputs_legacy ntree) items_array in
  items ← mapM deref items_array;
  Ok {| nodes := nodes ntree;
        links := links ntree;
        inputs_legacy := inputs;
        outputs_legacy := outputs;
        tree_interface :=
          {| root_panel := set_items_array (root_panel (tree_interface ntree)) items;
             next_uid := next_uid (tree_interface ntree) |} |}.

(** [BLI_freelistN(&ntree->inputs_legacy); BLI_freelistN(&ntree->outputs_legacy);] *)
Definition free_legacy_sockets (ntree : bNodeTree) : bNodeTree :=
  {| nodes := nodes ntree;
     links := links ntree;
     inputs_legacy := [];
     outputs_legacy := [];
     tree_interface := tree_interface ntree |}.

(** The block [if (!MAIN_VERSION_FILE_ATLEAST(bmain, 400, 20))] of
    [blo_do_versions_400], for one tree of [FOREACH_NODETREE]; its [else]
    branch frees the legacy sockets a newer writer added. *)
Definition blo_do_versions_400_socket_lists `{InterfaceFlags}
    (bmain : Main) (ntree : bNodeTree) : result bNodeTree :=
  if negb (MAIN_VERSION_FILE_ATLEAST bmain 400 20) then
    (* Convert old socket lists into new interface items. *)
    ntree ← versioning_convert_node_tree_socket_lists_to_interface ntree;
    Ok (free_legacy_sockets ntree)
  else Ok (free_legacy_sockets ntree).

(** ** Split of the sockets flagged both input and output *)

(** The value an [int] holds after an arithmetic result. *)
Definition int_wrap (z : Z) : Z := (z + 2 ^ 31) mod 2 ^ 32 - 2 ^ 31.

Definition is_panel (item : bNodeTreeInterfaceItem) : bool :=
  match item with NODE_INTERFACE_PANEL _ => true | NODE_INTERFACE_SOCKET _ => false end.

Definition set_flag (socket : bNodeTreeInterfaceSocket) (flag : Z)
    : bNodeTreeInterfaceSocket :=
  {| name := name socket;
     description := description socket;
     socket_type := socket_type socket;
     flag := flag;
     attribute_domain := attribute_domain socket;
     default_attribute_name := default_attribute_name socket;
     identifier := identifier socket;
     socket_data := socket_data socket;
     properties := properties socket |}.

(** Node socket copy function based on bNodeTreeInterface::item_copy; [dst] is
    the duplicate [MEM_dupallocN] made. *)
Definition version_copy_socket (dst src : bNodeTreeInterfaceSocket) (identifier : string)
    : bNodeTreeInterfaceSocket :=
  {| name := name src;
     description := description src;
     socket_type := socket_type src;
     flag := flag dst;
     attribute_domain := attribute_domain dst;
     default_attribute_name := default_attribute_name src;
     identifier := identifier;
     socket_data := match socket_data src with
                    | Some data => Some data
                    | None => socket_data dst
                    end;
     properties := match properties src with
                   | Some prop => Some prop
                   | None => properties dst
                   end |}.

(** The loop [for (test_pos = 0; test_pos <= initial_pos; test_pos++)] over the
    items from [test_pos] on; [pos] is the position when the loop ends without
    a find. *)
Fixpoint first_panel_up_to (items : list bNodeTreeInterfaceItem)
    (test_pos initial_pos pos : Z) : Z :=
  match items with
  | [] => (* Initial position is out of range but valid. *) pos
  | item :: items' =>
      if test_pos <=? initial_pos then
        if is_panel item then
          (* Found valid position, inserting moves the first panel. *)
          test_pos
        else first_panel_up_to items' (test_pos + 1) initial_pos pos
      else pos
  end.

(** The loop [for (test_pos = items.size() - 1; test_pos >= initial_pos; test_pos--)]
    over the items from [test_pos] down, given last item first. *)
Fixpoint last_socket_down_to (items_rev : list bNodeTreeInterfaceItem)
    (test_pos initial_pos pos : Z) : Z :=
  match items_rev with
  | [] => (* Initial position is out of range but valid. *) pos
  | item :: items' =>
      if test_pos >=? initial_pos then
        if negb (is_panel item) then
          (* Found valid position, insert after the last socket item. *)
          test_pos + 1
        else last_socket_down_to items' (test_pos - 1) initial_pos pos
      else pos
  end.

Definition version_nodes_find_valid_insert_position_for_item `{InterfaceFlags}
    (panel : bNodeTreeInterfacePanel) (item : bNodeTreeInterfaceItem) (initial_pos : Z) : Z :=
  let sockets_above_panels :=
    negb (flag_test (panel_flag panel) NODE_INTERFACE_PANEL_ALLOW_SOCKETS_AFTER_PANELS) in
  let items := items_array panel in
  let pos := initial_pos in
  if sockets_above_panels then
    if is_panel item then
      (* Find the closest valid position from the end, only panels at or after #position. *)
      last_socket_down_to (reverse items) (Z.of_nat (length items) - 1) initial_pos pos
    else
      (* Find the closest valid position from the start, no panels at or after #position. *)
      first_panel_up_to items 0 initial_pos pos
  else pos.

(** The result is the panel after the insertion and the position the item went
    to. *)
Definition version_nodes_insert_item `{InterfaceFlags} (parent : bNodeTreeInterfacePanel)
    (socket : bNodeTreeInterfaceSocket) (position : Z) : bNodeTreeInterfacePanel * nat :=
  (* Apply any constraints on the item positions. *)
  let position :=
    version_nodes_find_valid_insert_position_for_item parent
      (NODE_INTERFACE_SOCKET socket) position in
  let position := Z.min (Z.max position 0) (Z.of_nat (length (items_array parent))) in
  let old_items := items_array parent in
  let position := Z.to_nat position in
  (set_items_array parent
     (take position old_items ++ NODE_INTERFACE_SOCKET socket :: drop position old_items),
   position).

Definition alter_socket (f : bNodeTreeInterfaceSocket -> bNodeTreeInterfaceSocket)
    (item : bNodeTreeInterfaceItem) : bNodeTreeInterfaceItem :=
  match item with
  | NODE_INTERFACE_SOCKET socket => NODE_INTERFACE_SOCKET (f socket)
  | NODE_INTERFACE_PANEL panel => NODE_INTERFACE_PANEL panel
  end.

(** Node group interface copy function based on
    bNodeTreeInterface::insert_item_copy.

    [parent] is the panel the pointer of the source designates once null has
    been replaced by the root panel, and the reference [socket] designates the
    item at index [socket] of that panel, as in the calls of
    [blo_do_versions_400].  The result is [tree_interface.next_uid] and the
    panel after the call. *)
Definition version_node_group_split_socket `{InterfaceFlags} (next_uid : Z)
    (socket : nat) (parent : bNodeTreeInterfacePanel) (position : Z)
    : result (Z * bNodeTreeInterfacePanel) :=
  item ← deref (items_array parent !! socket);
  match item with
  | NODE_INTERFACE_PANEL _ => Fault
  | NODE_INTERFACE_SOCKET original =>
      let csocket := original in
      (* Generate a new unique identifier.
         This might break existing links, but the identifiers were duplicate anyway. *)
      let dst_identifier := "Socket_" +:+ pretty next_uid in
      let next_uid := int_wrap (next_uid + 1) in
      let csocket := version_copy_socket csocket original dst_identifier in
      let '(parent, cposition) := version_nodes_insert_item parent csocket position in
      (* The original is one place further when the copy went in before it. *)
      let socket := if (cposition <=? socket)%nat then S socket else socket in
      (* Original socket becomes output. *)
      let items := alter
        (alter_socket (fun s => set_flag s (Z.land (flag s) (Z.lnot NODE_INTERFACE_SOCKET_INPUT))))
        socket (items_array parent) in
      (* Copied socket becomes input. *)
      let items := alter
        (alter_socket (fun s => set_flag s (Z.land (flag s) (Z.lnot NODE_INTERFACE_SOCKET_OUTPUT))))
        cposition items in
      Ok (next_uid, set_items_array parent items)
  end.

(** The call of [blo_do_versions_400] for the socket at index [position] of
    [parent]: [version_node_group_split_socket(ntree->tree_interface, *socket,
    parent, position + 1)]. *)
Definition split_socket_at `{InterfaceFlags} (next_uid : Z) (parent : bNodeTreeInterfacePanel)
    (position : nat) : result (Z * bNodeTreeInterfacePanel) :=
  version_node_group_split_socket next_uid position parent (Z.of_nat position + 1).

(** ** Sort of the interface items *)

Definition is_output `{InterfaceFlags} (socket : bNodeTreeInterfaceSocket) : bool :=
  flag_test (flag socket) NODE_INTERFACE_SOCKET_OUTPUT.

(** True if item a should be above item b. *)
Definition item_compare `{InterfaceFlags} (a b : bNodeTreeInterfaceItem) : bool :=
  if negb (eqb (is_panel a) (is_panel b)) then
    (* Keep sockets above panels. *)
    negb (is_panel a)
  else
    (* Keep outputs above inputs. *)
    match a, b with
    | NODE_INTERFACE_SOCKET sa, NODE_INTERFACE_SOCKET sb =>
        let is_output_a := is_output sa in
        let is_output_b := is_output sb in
        if negb (eqb is_output_a is_output_b) then is_output_a else false
    | _, _ => false
    end.

(** [std::stable_sort(first, last, comp)]: the elements in the order of [comp],
    equivalent elements in the order they had.  The model inserts each
    element before the first one that is not strictly below it. *)
Fixpoint stable_insert {A : Type} (comp : A -> A -> bool) (x : A) (l : list A) : list A :=
  match l with
  | [] => [x]
  | y :: l' => if comp y x then y :: stable_insert comp x l' else x :: y :: l'
  end.

Fixpoint stable_sort {A : Type} (comp : A -> A -> bool) (l : list A) : list A :=
  match l with
  | [] => []
  | x :: l' => stable_insert comp x (stable_sort comp l')
  end.

(** [fuel] bounds the depth of the call stack of the embedding. *)
Fixpoint versioning_node_group_sort_sockets_recursive `{InterfaceFlags} (fuel : nat)
    (panel : bNodeTreeInterfacePanel) : result bNodeTreeInterfacePanel :=
  match fuel with
  | O => OutOfFuel
  | S fuel =>
      (* Sort panel content. *)
      let items := stable_sort item_compare (items_array panel) in
      (* Sort any child panels too. *)
      items ← mapM (fun item =>
                      match item with
                      | NODE_INTERFACE_PANEL child =>
                          child ← versioning_node_group_sort_sockets_recursive fuel child;
                          Ok (NODE_INTERFACE_PANEL child)
                      | NODE_INTERFACE_SOCKET _ => Ok item
                      end) items;
      Ok (set_items_array panel items)
  end.

(** The step of the loop over the sorted items. *)
Definition sort_child `{InterfaceFlags} (fuel : nat) (item : bNodeTreeInterfaceItem)
    : result bNodeTreeInterfaceItem :=
  match item with
  | NODE_INTERFACE_PANEL child =>
      child ← versioning_node_group_sort_sockets_recursive fuel child;
      Ok (NODE_INTERFACE_PANEL child)
  | NODE_INTERFACE_SOCKET _ => Ok item
  end.

(** The number of panels on the longest chain of nested panels. *)
Fixpoint panel_depth (panel : bNodeTreeInterfacePanel) : nat :=
  match panel with
  | Panel _ _ items =>
      S (foldr (fun item d =>
                  Nat.max d match item with
                            | NODE_INTERFACE_PANEL child => panel_depth child
                            | NODE_INTERFACE_SOCKET _ => 0%nat
                            end) 0%nat items)
  end.

(** ** Instances used to run the model

    The masks below are single bits in the order the flags are declared; the
    kernel takes the first node of the requested type as output node and knows
    the math node with its three float inputs and its float output. *)

Program Definition sample_flags : InterfaceFlags := {|
  NODE_INTERFACE_SOCKET_INPUT := 1;
  NODE_INTERFACE_SOCKET_OUTPUT := 2;
  NODE_INTERFACE_SOCKET_HIDE_VALUE := 4;
  NODE_INTERFACE_SOCKET_HIDE_IN_MODIFIER := 8;
  SOCK_HIDE_VALUE := 128;
  SOCK_HIDE_IN_MODIFIER := 8192;
  NODE_INTERFACE_PANEL_ALLOW_SOCKETS_AFTER_PANELS := 4
|}.
Next Obligation. repeat constructor; discriminate. Defined.
Next Obligation. repeat split; reflexivity. Defined.

Definition float_socket (identifier : string) (value : float32) : bNodeSocket :=
  {| sock_name := identifier;
     sock_identifier := identifier;
     sock_description := EmptyString;
     sock_idname := "NodeSocketFloat";
     sock_flag := 0;
     sock_attribute_domain := 0;
     sock_default_attribute_name := None;
     sock_type := SOCK_FLOAT;
     sock_default_value := Some (bNodeSocketValueFloat value);
     sock_prop := None |}.

Definition shader_socket (identifier : string) : bNodeSocket :=
  {| sock_name := identifier;
     sock_identifier := identifier;
     sock_description := EmptyString;
     sock_idname := "NodeSocketShader";
     sock_flag := 0;
     sock_attribute_domain := 0;
     sock_default_attribute_name := None;
     sock_type := SOCK_SHADER;
     sock_default_value := None;
     sock_prop := None |}.

Definition sample_node (idname : string) (type : node_type)
    (inputs outputs : list bNodeSocket) : bNode :=
  {| node_idname := idname;
     node_type_of := type;
     node_custom1 := 0;
     node_flag := 0;
     node_parent := None;
     node_locx := F32.zero;
     node_locy := F32.zero;
     node_width := F32.of_Z 140;
     node_inputs := inputs;
     node_outputs := outputs |}.

Fixpoint first_node_of_type (type : node_type) (l : list bNode) (i : nat) : option node_ptr :=
  match l with
  | [] => None
  | node :: l' =>
      if bool_decide (node_type_of node = type) then Some i
      else first_node_of_type type l' (S i)
  end.

Definition sample_kernel : Kernel := {|
  NODE_MATH_GREATER_THAN := 16;
  NODE_HIDDEN := 8;
  RE_engine_id_BLENDER_EEVEE := "BLENDER_EEVEE";
  version_eevee_output_node_get := fun ntree type => first_node_of_type type (nodes ntree) 0%nat;
  node_type_new := fun idname =>
    if String.eqb idname "ShaderNodeMath" then
      sample_node idname SH_NODE_MATH
        [float_socket "Value" F32.half; float_socket "Value_001" F32.half;
         float_socket "Value_002" F32.zero]
        [float_socket "Value" F32.zero]
    else sample_node idname (NODE_TYPE_OTHER 0) [] []
|}.

(** Sample trees. *)

Definition empty_interface : bNodeTreeInterface :=
  {| root_panel := Panel None 0 []; next_uid := 0 |}.

Definition sample_tree (nodes : list bNode) (links : list bNodeLink) : bNodeTree :=
  {| nodes := nodes;
     links := links;
     inputs_legacy := [];
     outputs_legacy := [];
     tree_interface := empty_interface |}.

Definition link_between (from_node from_index to_node to_index : nat) : bNodeLink :=
  {| fromnode := from_node;
     fromsock := SocketPtr from_node SOCK_OUT from_index;
     tonode := to_node;
     tosock := SocketPtr to_node SOCK_IN to_index |}.

Arguments link_between (from_node from_index to_node to_index)%_nat.

Definition output_material_node : bNode :=
  sample_node "ShaderNodeOutputMaterial" SH_NODE_OUTPUT_MATERIAL
    [shader_socket "Surface"; shader_socket "Volume"] [].

(** A reroute node fed by its own output. *)
Definition reroute_cycle : bNodeTree :=
  sample_tree
    [sample_node "NodeReroute" NODE_REROUTE [shader_socket "Input"] [shader_socket "Output"]]
    [link_between 0 0 0 0].

(** An output node with nothing plugged into its surface. *)
Definition unconnected_surface : bNodeTree :=
  sample_tree [output_material_node] [].

(** A node group plugged into the surface. *)
Definition group_surface : bNodeTree :=
  sample_tree
    [output_material_node;
     sample_node "ShaderNodeGroup" NODE_GROUP [] [shader_socket "Shader"]]
    [link_between 1 0 0 0].

(** A principled BSDF plugged into the surface, its alpha driven by the
    output of a texture node. *)
Definition textured_alpha : bNodeTree :=
  sample_tree
    [output_material_node;
     sample_node "ShaderNodeBsdfPrincipled" SH_NODE_BSDF_PRINCIPLED
       [float_socket "Metallic" F32.zero; float_socket "Alpha" F32.one]
       [shader_socket "BSDF"];
     sample_node "ShaderNodeTexImage" (NODE_TYPE_OTHER 143) []
       [float_socket "Color" F32.zero; float_socket "Alpha" F32.zero]]
    [link_between 1 0 0 0; link_between 2 1 1 1].

Definition sample_material (name : string) (ntree : bNodeTree)
    (method : eBlenderMaterial_BlendMethod) (threshold : float32) : Material :=
  {| id_name := name;
     use_nodes := true;
     nodetree := Some ntree;
     blend_method := method;
     blend_shadow := MA_BS_NONE;
     alpha_threshold := threshold |}.

(** A document stored at the given version tag. *)
Definition main_at (ver subver : Z) : Main :=
  {| versionfile := ver; subversionfile := subver; scenes := []; materials := [] |}.

(** ** Statements about the split of a socket *)

Fixpoint first_panel (items : list bNodeTreeInterfaceItem) : option nat :=
  match items with
  | [] => None
  | item :: items' => if is_panel item then Some 0%nat else S <$> first_panel items'
  end.

(** Where the duplicate of the socket at [position] goes: right after the
    socket, or in front of the first panel of the parent when the parent
    keeps its sockets above its panels and has a panel up to there. *)
Definition duplicate_position `{InterfaceFlags} (parent : bNodeTreeInterfacePanel)
    (position : nat) : nat :=
  if flag_test (panel_flag parent) NODE_INTERFACE_PANEL_ALLOW_SOCKETS_AFTER_PANELS
  then S position
  else match first_panel (take (S (S position)) (items_array parent)) with
       | Some k => k
       | None => S position
       end.

Definition output_only `{InterfaceFlags} (socket : bNodeTreeInterfaceSocket) : Prop :=
  flag_test (flag socket) NODE_INTERFACE_SOCKET_INPUT = false
  /\ flag_test (flag socket) NODE_INTERFACE_SOCKET_OUTPUT = true.

Definition input_only `{InterfaceFlags} (socket : bNodeTreeInterfaceSocket) : Prop :=
  flag_test (flag socket) NODE_INTERFACE_SOCKET_INPUT = true
  /\ flag_test (flag socket) NODE_INTERFACE_SOCKET_OUTPUT = false.

Definition input_and_output `{InterfaceFlags} (socket : bNodeTreeInterfaceSocket) : Prop :=
  flag_test (flag socket) NODE_INTERFACE_SOCKET_INPUT = true
  /\ flag_test (flag socket) NODE_INTERFACE_SOCKET_OUTPUT = true.

(** The split as the specification words it: in the panel [after], the socket
    that was at [position] of [before] has become two adjacent items, the
    original, output only, and right after it a duplicate, input only, with
    the same name and the identifier made from [next_uid]; the other items are
    where they were. *)
Definition split_as_specified `{InterfaceFlags} (next_uid : Z)
    (before : bNodeTreeInterfacePanel) (position : nat) (socket : bNodeTreeInterfaceSocket)
    (after : bNodeTreeInterfacePanel) : Prop :=
  exists original duplicate : bNodeTreeInterfaceSocket,
    items_array after
    = take position (items_array before)
      ++ [NODE_INTERFACE_SOCKET original; NODE_INTERFACE_SOCKET duplicate]
      ++ drop (S position) (items_array before)
    /\ identifier original = identifier socket
    /\ name original = name socket
    /\ name duplicate = name socket
    /\ identifier duplicate = "Socket_" +:+ pretty next_uid
    /\ identifier duplicate <> identifier original
    /\ output_only original
    /\ input_only duplicate.

(** A root panel with a panel in front of a socket flagged input and output. *)
Definition sample_socket (name identifier : string) (flag : Z) : bNodeTreeInterfaceSocket :=
  {| name := Some name;
     description := None;
     socket_type := "NodeSocketFloat";
     flag := flag;
     attribute_domain := 0;
     default_attribute_name := None;
     identifier := identifier;
     socket_data := None;
     properties := None |}.

Definition panel_before_socket : bNodeTreeInterfacePanel :=
  Panel None 0
    [ NODE_INTERFACE_PANEL (Panel (Some "Panel"%string) 0 []);
      NODE_INTERFACE_SOCKET (sample_socket "Value" "Socket_7" 3) ].

Definition socket_before_panel : bNodeTreeInterfacePanel :=
  Panel None 0
    [ NODE_INTERFACE_SOCKET (sample_socket "Value" "Socket_7" 3);
      NODE_INTERFACE_PANEL (Panel (Some "Panel"%string) 0 []) ].

(** ** Statements about the sort of the items *)

(** The place of an item in the order of [item_compare]: the sockets flagged
    as output, then the other sockets, then the panels. *)
Definition item_rank `{InterfaceFlags} (item : bNodeTreeInterfaceItem) : nat :=
  match item with
  | NODE_INTERFACE_SOCKET socket => if is_output socket then 0%nat else 1%nat
  | NODE_INTERFACE_PANEL _ => 2%nat
  end.

(** The comparison and the order a rank gives. *)
Definition rank_lt {A : Type} (rank : A -> nat) (a b : A) : bool :=
  (rank a <? rank b)%nat.
Definition rank_order {A : Type} (rank : A -> nat) (a b : A) : Prop :=
  (rank a <= rank b)%nat.

Definition rank_le `{InterfaceFlags} : relation bNodeTreeInterfaceItem :=
  rank_order item_rank.

(** [item_rearranged a b]: [b] is [a] up to the order of the items of the
    panels, and where a panel of [b] holds the items of the panel of [a], the
    items of a same rank are in the order they had. *)
#[warnings="-register-all"] Inductive item_rearranged `{InterfaceFlags}
    : bNodeTreeInterfaceItem -> bNodeTreeInterfaceItem -> Prop :=
| rearranged_socket (socket : bNodeTreeInterfaceSocket) :
    item_rearranged (NODE_INTERFACE_SOCKET socket) (NODE_INTERFACE_SOCKET socket)
| rearranged_panel (name : option string) (flag : Z)
    (items items' : list bNodeTreeInterfaceItem) :
    (forall rank : nat,
        Forall2 item_rearranged
          (filter (fun item => item_rank item = rank) items)
          (filter (fun item => item_rank item = rank) items')) ->
    item_rearranged (NODE_INTERFACE_PANEL (Panel name flag items))
                    (NODE_INTERFACE_PANEL (Panel name flag items')).

(** The items of a panel are in order, and so are those of the panels below
    it. *)
#[warnings="-register-all"] Inductive item_sorted `{InterfaceFlags} : bNodeTreeInterfaceItem -> Prop :=
| sorted_socket (socket : bNodeTreeInterfaceSocket) :
    item_sorted (NODE_INTERFACE_SOCKET socket)
| sorted_panel (name : option string) (flag : Z) (items : list bNodeTreeInterfaceItem) :
    StronglySorted rank_le items ->
    Forall item_sorted items ->
    item_sorted (NODE_INTERFACE_PANEL (Panel name flag items)).

Definition panel_sorted `{InterfaceFlags} (panel : bNodeTreeInterfacePanel) : Prop :=
  item_sorted (NODE_INTERFACE_PANEL panel).

Definition panel_rearranged `{InterfaceFlags} (before after : bNodeTreeInterfacePanel) : Prop :=
  item_rearranged (NODE_INTERFACE_PANEL before) (NODE_INTERFACE_PANEL after).

(** What the sort makes of one item of a panel. *)
Definition sorted_to `{InterfaceFlags} (fuel : nat) (item item' : bNodeTreeInterfaceItem) : Prop :=
  sort_child fuel item = Ok item'
  /\ item_rank item' = item_rank item
  /\ item_sorted item'
  /\ item_rearranged item item'
  /\ sort_child fuel item' = Ok item'.

(** An interface with inputs in front of outputs and a panel in between. *)
Definition unsorted_panel : bNodeTreeInterfacePanel :=
  Panel None 0
    [ NODE_INTERFACE_SOCKET (sample_socket "A" "Socket_0" 1);
      NODE_INTERFACE_PANEL
        (Panel (Some "Panel"%string) 0
           [ NODE_INTERFACE_SOCKET (sample_socket "C" "Socket_2" 1);
             NODE_INTERFACE_SOCKET (sample_socket "D" "Socket_3" 2) ]);
      NODE_INTERFACE_SOCKET (sample_socket "B" "Socket_1" 2);
      NODE_INTERFACE_SOCKET (sample_socket "E" "Socket_4" 1);
      NODE_INTERFACE_SOCKET (sample_socket "F" "Socket_5" 2) ].

(** A group stored with the legacy lists [outputs = [B]] and [inputs = [A]]. *)
Definition legacy_group : bNodeTree :=
  {| nodes := [];
     links := [];
     inputs_legacy := [float_socket "A" F32.half];
     outputs_legacy := [float_socket "B" F32.zero];
     tree_interface := empty_interface |}.

Definition item_identifier (item : bNodeTreeInterfaceItem) : option string :=
  match item with
  | NODE_INTERFACE_SOCKET socket => Some (identifier socket)
  | NODE_INTERFACE_PANEL _ => None
  end.

Definition item_socket_type (item : bNodeTreeInterfaceItem) : option string :=
  match item with
  | NODE_INTERFACE_SOCKET socket => Some (socket_type socket)
  | NODE_INTERFACE_PANEL _ => None
  end.

(** The subtype names as the specification speaks of them: the name of a base
    type with a subtype suffix behind it.  Each base type is listed with the
    suffixes of its subtypes. *)
Definition socket_subtypes : list (string * list string) :=
  [ ("NodeSocketFloat",
     ["Unsigned"; "Percentage"; "Factor"; "Angle"; "Time"; "TimeAbsolute"; "Distance"]);
    ("NodeSocketInt", ["Unsigned"; "Percentage"; "Factor"]);
    ("NodeSocketVector",
     ["Translation"; "Direction"; "Velocity"; "Acceleration"; "Euler"; "XYZ"]) ]%string.

Definition subtype_names : list string :=
  concat (map (fun entry => map (String.append (fst entry)) (snd entry)) socket_subtypes).

(** No identifier of the items is one the counter of the interface has yet to
    give: an identifier "Socket_n" of an item has [n] below [next_uid]. *)
Definition identifiers_below (next_uid : Z) (items : list bNodeTreeInterfaceItem) : Prop :=
  forall n : Z,
    next_uid <= n -> Some ("Socket_" +:+ pretty n) ∉ (item_identifier <$> items).

(** A root panel whose socket has the identifier the counter gives next. *)
Definition colliding_socket : bNodeTreeInterfacePanel :=
  Panel None 0 [ NODE_INTERFACE_SOCKET (sample_socket "Value" "Socket_8" 3) ].

(** A group stored with legacy lists of subtypes. *)
Definition legacy_subtypes : bNodeTree :=
  {| nodes := [];
     links := [];
     inputs_legacy :=
       [ {| sock_name := "Factor";
            sock_identifier := "Input_1";
            sock_description := EmptyString;
            sock_idname := "NodeSocketFloatFactor";
            sock_flag := 0;
            sock_attribute_domain := 0;
            sock_default_attribute_name := None;
            sock_type := SOCK_FLOAT;
            sock_default_value := Some (bNodeSocketValueFloat F32.half);
            sock_prop := None |} ];
     outputs_legacy :=
       [ {| sock_name := "Direction";
            sock_identifier := "Output_2";
            sock_description := EmptyString;
            sock_idname := "NodeSocketVectorDirection";
            sock_flag := 0;
            sock_attribute_domain := 0;
            sock_default_attribute_name := None;
            sock_type := SOCK_VECTOR;
            sock_default_value := None;
            sock_prop := None |};
         shader_socket "Output_3" ];
     tree_interface := empty_interface |}.

(** A document rendered by the legacy engine, with three materials. *)
Definition eevee_document (ver subver : Z) : Main :=
  {| versionfile := ver;
     subversionfile := subver;
     scenes := [ {| r_engine := "BLENDER_EEVEE" |} ];
     materials :=
       [ sample_material "MAGroup" group_surface MA_BM_CLIP F32.half;
         sample_material "MAGlass" unconnected_surface MA_BM_CLIP F32.half;
         sample_material "MALeaf" textured_alpha MA_BM_CLIP F32.half ] |}.

Definition node_count (material : Material) : option nat :=
  (fun ntree => length (nodes ntree)) <$> nodetree material.


(** * Further code of [versioning_400.cc] and statements about it *)

(** ** Statements about the result of the analysis *)

(** The pointer designates an input socket of a node of the tree. *)
Definition input_socket_of (ntree : bNodeTree) (p : socket_ptr) : Prop :=
  sp_in_out p = SOCK_IN
  /\ exists (node : bNode) (sock : bNodeSocket),
       nodes ntree !! sp_node p = Some node
       /\ node_inputs node !! sp_index p = Some sock.

(** What the caller of the analysis relies on: an opaque or complex source
    carries no socket, a semi-transparent one always carries one, and a socket
    carried is an input socket of a node of the tree. *)
Definition alpha_source_wf (ntree : bNodeTree) (a : AlphaSource.t) : Prop :=
  match AlphaSource.state a with
  | AlphaSource.ALPHA_OPAQUE | AlphaSource.ALPHA_COMPLEX_MIX =>
      AlphaSource.socket a = None /\ AlphaSource.is_transparency a = false
  | AlphaSource.ALPHA_SEMI_TRANSPARENT =>
      exists p, AlphaSource.socket a = Some p /\ input_socket_of ntree p
  | AlphaSource.ALPHA_FULLY_TRANSPARENT =>
      forall p, AlphaSource.socket a = Some p -> input_socket_of ntree p
  end.

(** ** Statements about the conversion of a material *)



(** The storage of the default value has the shape the conversion expects for
    the type of the socket: a colour for [SOCK_RGBA], a float otherwise. *)
Definition value_matches_type (sock : bNodeSocket) : Prop :=
  match sock_default_value sock with
  | Some (bNodeSocketValueRGBA _ _ _ _) => sock_type sock = SOCK_RGBA
  | Some (bNodeSocketValueFloat _) => sock_type sock <> SOCK_RGBA
  | _ => False
  end.

(** What the conversion stores for the level [v]: the colour (v, v, v, 1) in a
    colour socket, [v] in another socket. *)
Definition written_value (sock : bNodeSocket) (v : float32) : bNodeSocketValue :=
  if bool_decide (sock_type sock = SOCK_RGBA)
  then bNodeSocketValueRGBA v v v F32.one
  else bNodeSocketValueFloat v.

(** Every input socket has at most one incoming link. *)
Definition single_links (ntree : bNodeTree) : Prop :=
  NoDup (tosock <$> links ntree).




(** A principled BSDF plugged into the surface, its alpha a constant. *)
Definition constant_alpha (alpha : float32) : bNodeTree :=
  sample_tree
    [output_material_node;
     sample_node "ShaderNodeBsdfPrincipled" SH_NODE_BSDF_PRINCIPLED
       [float_socket "Metallic" F32.zero; float_socket "Alpha" alpha]
       [shader_socket "BSDF"]]
    [link_between 1 0 0 0].

(** The second material is the first one up to its node tree: the name and
    the blend settings are the same, and it has a tree when the first has
    one. *)
Definition same_material_settings (material material' : Material) : Prop :=
  id_name material' = id_name material
  /\ use_nodes material' = use_nodes material
  /\ blend_method material' = blend_method material
  /\ blend_shadow material' = blend_shadow material
  /\ alpha_threshold material' = alpha_threshold material
  /\ (is_Some (nodetree material') <-> is_Some (nodetree material)).

(** ** [versioning_fix_socket_subtype_idnames] *)

Definition set_socket_type (socket : bNodeTreeInterfaceSocket) (socket_type : string)
    : bNodeTreeInterfaceSocket :=
  {| name := name socket;
     description := description socket;
     socket_type := socket_type;
     flag := flag socket;
     attribute_domain := attribute_domain socket;
     default_attribute_name := default_attribute_name socket;
     identifier := identifier socket;
     socket_data := socket_data socket;
     properties := properties socket |}.

(** The body of the function given to [foreach_item]. *)
Definition fix_socket_subtype_idname (item : bNodeTreeInterfaceItem)
    : bNodeTreeInterfaceItem :=
  match item with
  | NODE_INTERFACE_SOCKET socket =>
      let corrected_socket_type := legacy_socket_idname_to_socket_type (socket_type socket) in
      if negb (String.eqb (socket_type socket) corrected_socket_type)
      then NODE_INTERFACE_SOCKET (set_socket_type socket corrected_socket_type)
      else item
  | NODE_INTERFACE_PANEL _ => item
  end.

(** Modelled from the spec: [bNodeTreeInterface::foreach_item], a member
    function of the interface defined outside [versioning_400.cc]; the pass
    "corrects any item", so the function is applied to every item of the
    tree, those of the panels below the root included. *)
Fixpoint fix_socket_subtype_idnames_panel (panel : bNodeTreeInterfacePanel)
    : bNodeTreeInterfacePanel :=
  match panel with
  | Panel name flag items =>
      Panel name flag
        (map (fun item =>
                match item with
                | NODE_INTERFACE_SOCKET _ => fix_socket_subtype_idname item
                | NODE_INTERFACE_PANEL child =>
                    (* The function leaves a panel as it is; its items follow. *)
                    NODE_INTERFACE_PANEL (fix_socket_subtype_idnames_panel child)
                end) items)
  end.

Definition versioning_fix_socket_subtype_idnames (ntree : bNodeTree) : bNodeTree :=
  {| nodes := nodes ntree;
     links := links ntree;
     inputs_legacy := inputs_legacy ntree;
     outputs_legacy := outputs_legacy ntree;
     tree_interface :=
       {| root_panel := fix_socket_subtype_idnames_panel (root_panel (tree_interface ntree));
          next_uid := next_uid (tree_interface ntree) |} |}.

(** An item with its type name taken away, the items of a panel included. *)
Fixpoint without_socket_type (item : bNodeTreeInterfaceItem) : bNodeTreeInterfaceItem :=
  match item with
  | NODE_INTERFACE_SOCKET socket => NODE_INTERFACE_SOCKET (set_socket_type socket EmptyString)
  | NODE_INTERFACE_PANEL (Panel name flag items) =>
      NODE_INTERFACE_PANEL (Panel name flag (map without_socket_type items))
  end.

(** The type names of the sockets of an item, the items of a panel included. *)
Fixpoint socket_types (item : bNodeTreeInterfaceItem) : list string :=
  match item with
  | NODE_INTERFACE_SOCKET socket => [socket_type socket]
  | NODE_INTERFACE_PANEL (Panel _ _ items) => concat (map socket_types items)
  end.

(** An interface stored with a subtype name, below a panel. *)
Definition subtype_interface : bNodeTree :=
  {| nodes := [];
     links := [];
     inputs_legacy := [];
     outputs_legacy := [];
     tree_interface :=
       {| root_panel :=
            Panel None 0
              [ NODE_INTERFACE_SOCKET
                  (set_socket_type (sample_socket "A" "Socket_0" 1) "NodeSocketInt");
                NODE_INTERFACE_PANEL
                  (Panel (Some "Panel"%string) 0
                     [ NODE_INTERFACE_SOCKET
                         (set_socket_type (sample_socket "B" "Socket_1" 1)
                            "NodeSocketFloatFactor") ]) ];
          next_uid := 2 |} |}.

(** ** Statements about the conversion of the legacy socket lists *)

(** The legacy socket owns no data any more. *)
Definition owns_no_data (legacy_socket : bNodeSocket) : Prop :=
  sock_default_value legacy_socket = None
  /\ sock_prop legacy_socket = None
  /\ sock_default_attribute_name legacy_socket = None.

(** The data an interface item owns. *)
Definition item_data (item : bNodeTreeInterfaceItem)
    : option (option bNodeSocketValue * option IDProperty * option string) :=
  match item with
  | NODE_INTERFACE_SOCKET socket =>
      Some (socket_data socket, properties socket, default_attribute_name socket)
  | NODE_INTERFACE_PANEL _ => None
  end.

Definition legacy_socket_data (legacy_socket : bNodeSocket)
    : option (option bNodeSocketValue * option IDProperty * option string) :=
  Some (sock_default_value legacy_socket, sock_prop legacy_socket,
        sock_default_attribute_name legacy_socket).

(** A group stored with legacy lists of subtypes, and with items in its root
    panel. *)
Definition legacy_subtype_group : bNodeTree :=
  {| nodes := [];
     links := [];
     inputs_legacy :=
       [ {| sock_name := "Factor";
            sock_identifier := "Input_1";
            sock_description := EmptyString;
            sock_idname := "NodeSocketFloatFactor";
            sock_flag := 0;
            sock_attribute_domain := 0;
            sock_default_attribute_name := Some "factor"%string;
            sock_type := SOCK_FLOAT;
            sock_default_value := Some (bNodeSocketValueFloat F32.half);
            sock_prop := Some (IDP "ui" [1]) |} ];
     outputs_legacy := [float_socket "Output_2" F32.zero];
     tree_interface :=
       {| root_panel := Panel None 0 [NODE_INTERFACE_SOCKET (sample_socket "Old" "Socket_0" 1)];
          next_uid := 1 |} |}.

(** ** Statements about the insertion of an item *)

(** The layout of a panel that keeps its sockets above its panels: no socket
    comes after a panel. *)
Fixpoint sockets_above_panels (items : list bNodeTreeInterfaceItem) : bool :=
  match items with
  | [] => true
  | item :: items' =>
      if is_panel item then forallb is_panel items' else sockets_above_panels items'
  end.

(** The position an insertion is made at, once brought into the range of the
    items: [std::min(std::max(position, 0), parent.items_num)]. *)
Definition clamp_position (position : Z) (items : list bNodeTreeInterfaceItem) : nat :=
  Z.to_nat (Z.min (Z.max position 0) (Z.of_nat (length items))).

(** The number of sockets flagged both input and output among the items. *)
Definition is_dual `{InterfaceFlags} (item : bNodeTreeInterfaceItem) : bool :=
  match item with
  | NODE_INTERFACE_SOCKET socket =>
      flag_test (flag socket) NODE_INTERFACE_SOCKET_INPUT
      && flag_test (flag socket) NODE_INTERFACE_SOCKET_OUTPUT
  | NODE_INTERFACE_PANEL _ => false
  end.

Definition count_dual `{InterfaceFlags} (items : list bNodeTreeInterfaceItem) : nat :=
  length (filter (fun item => is_dual item = true) items).

(** The number of socket items among the items of a panel. *)
Definition socket_count (items : list bNodeTreeInterfaceItem) : nat :=
  length (filter (fun item => is_panel item = false) items).

(** The items once [item] has been put in at index [k]. *)
Definition put_in (items : list bNodeTreeInterfaceItem) (k : nat)
    (item : bNodeTreeInterfaceItem) : list bNodeTreeInterfaceItem :=
  take k items ++ item :: drop k items.

(** A root panel with two sockets above two panels. *)
Definition sockets_then_panels : bNodeTreeInterfacePanel :=
  Panel None 0
    [ NODE_INTERFACE_SOCKET (sample_socket "A" "Socket_0" 2);
      NODE_INTERFACE_SOCKET (sample_socket "B" "Socket_1" 3);
      NODE_INTERFACE_PANEL (Panel (Some "P"%string) 0 []);
      NODE_INTERFACE_PANEL (Panel (Some "Q"%string) 0 []) ].

(** ** [version_bonecollection_anim] *)

(** [struct FCurve], as far as the versioning code looks at it; [rna_path] is
    a pointer to a C string. *)
Record FCurve : Type := { rna_path : option string }.

(** Modelled from the spec: [blender::StringRef], its members [startswith] and
    [drop_known_prefix], and [BLI_sprintfN], defined outside
    [versioning_400.cc].  The model gives them the meaning of their names: a
    reference made from a null pointer is the empty string, [startswith]
    tells whether the string begins with the prefix, [drop_known_prefix] is
    the string without the first characters, as many as the prefix has, and
    the format "collections_all[%s" puts the argument after the literal. *)
Definition StringRef (str : option string) : string := default EmptyString str.

Definition startswith (str prefix : string) : bool := String.prefix prefix str.

Definition drop_known_prefix (str prefix : string) : string :=
  String.substring (String.length prefix) (String.length str - String.length prefix) str.

Definition version_bonecollection_anim (fcurve : FCurve) : FCurve :=
  let path := StringRef (rna_path fcurve) in
  let rna_path_prefix := "collections["%string in
  if negb (startswith path rna_path_prefix) then fcurve
  else
    let path_remainder := drop_known_prefix path rna_path_prefix in
    {| rna_path := Some ("collections_all[" +:+ path_remainder) |}.

(** ** [versioning_eevee_shadow_settings] *)

(** [struct Object], as far as the versioning code looks at it. *)
Record Object : Type := {
  ob_id_name : string;
  visibility_flag : Z
}.

(** The material slots of an object are read through two functions of the
    object kernel, declared outside [versioning_400.cc]; the model is
    parametric in them and in the bit [OB_HIDE_SHADOW] of the DNA headers. *)
Class ObjectKernel : Type := {
  OB_HIDE_SHADOW : Z;
  (** [BKE_object_material_len_p(object)]: the number the pointer designates,
      none when the pointer is null. *)
  BKE_object_material_len_p : Object -> option Z;
  (** [BKE_object_material_get(object, act)]: the material of the slot [act],
      counted from 1; none when the pointer is null. *)
  BKE_object_material_get : Object -> Z -> option Material
}.

(** The loop over the [IndexRange] of the number of slots, from the index
    [i] on. *)
Fixpoint shadow_casting_slots `{ObjectKernel} (object : Object) (indices : list Z)
    (hide_shadows : bool) : bool :=
  match indices with
  | [] => hide_shadows
  | i :: indices' =>
      let material := BKE_object_material_get object (i + 1) in
      let hide_shadows :=
        match material with
        | None => false
        | Some material =>
            if negb (bool_decide (blend_shadow material = MA_BS_NONE)) then false
            else hide_shadows
        end in
      shadow_casting_slots object indices' hide_shadows
  end.

Definition set_visibility_flag (object : Object) (visibility_flag : Z) : Object :=
  {| ob_id_name := ob_id_name object; visibility_flag := visibility_flag |}.

(** An [IndexRange] of a negative size is not a range: the call is a [Fault]. *)
Definition versioning_eevee_shadow_settings `{ObjectKernel} (object : Object)
    : result Object :=
  (* EEVEE no longer uses the Material::blend_shadow property.
     Instead, it uses Object::visibility_flag for disabling shadow casting. *)
  match BKE_object_material_len_p object with
  | None => Ok object
  | Some material_len =>
      if material_len <? 0 then Fault
      else
        let hide_shadows := material_len >? 0 in
        let hide_shadows :=
          shadow_casting_slots object (seqZ 0 material_len) hide_shadows in
        (* Enable the hide_shadow flag only if there's not any shadow casting material. *)
        Ok (set_visibility_flag object
              (SET_FLAG_FROM_TEST (visibility_flag object) hide_shadows OB_HIDE_SHADOW))
  end.

(** A kernel for objects named after their slots: the object "OB" followed
    by one character per slot, [n] for a material that casts no shadow, [s]
    for one that does, any other character for an empty slot; an object with
    another name has no material slots at all. *)
Definition slot_material (c : Ascii.ascii) : option Material :=
  if Ascii.eqb c (Ascii.ascii_of_nat 110) then
    Some {| id_name := "MANone"; use_nodes := false; nodetree := None;
            blend_method := MA_BM_SOLID; blend_shadow := MA_BS_NONE;
            alpha_threshold := F32.half |}
  else if Ascii.eqb c (Ascii.ascii_of_nat 115) then
    Some {| id_name := "MASolid"; use_nodes := false; nodetree := None;
            blend_method := MA_BM_SOLID; blend_shadow := MA_BS_SOLID;
            alpha_threshold := F32.half |}
  else None.

Definition sample_object_kernel : ObjectKernel := {|
  OB_HIDE_SHADOW := 512;
  BKE_object_material_len_p := fun object =>
    if String.prefix "OB" (ob_id_name object)
    then Some (Z.of_nat (String.length (ob_id_name object)) - 2)
    else None;
  BKE_object_material_get := fun object act =>
    match String.get (Z.to_nat (act + 1)) (ob_id_name object) with
    | Some c => slot_material c
    | None => None
    end
|}.

(** ** [version_socket_identifier_suffixes_for_dynamic_types] *)

(** What the function takes from the DNA headers, declared outside
    [versioning_400.cc]: the bit [SOCK_UNAVAIL] of the flags of a socket and
    the size of the array [identifier] of a socket, the terminating null
    included. *)
Class SocketLayout : Type := {
  SOCK_UNAVAIL : Z;
  sizeof_identifier : nat
}.

(** Modelled from the spec: [bNodeSocket::is_available], a member function
    defined outside [versioning_400.cc]; a socket is available when the bit
    [SOCK_UNAVAIL] of its flags is clear. *)
Definition is_available `{SocketLayout} (socket : bNodeSocket) : bool :=
  Z.land (sock_flag socket) SOCK_UNAVAIL =? 0.

(** [strstr(haystack, needle)] of the C library: where the first occurrence of
    [needle] in [haystack] begins, none for a null result. *)
Definition strstr (haystack needle : string) : option nat :=
  String.index 0 needle haystack.

(** Modelled from the spec: [BLI_strncat(dst, src, dst_maxncpy)] of
    [BLI_string], defined outside [versioning_400.cc]; it appends [src] to
    [dst] as far as an array of [dst_maxncpy] characters, the terminating
    null included, has room. *)
Definition BLI_strncat (dst src : string) (dst_maxncpy : nat) : string :=
  String.substring 0 (dst_maxncpy - 1) (dst +:+ src).

Definition set_identifier (socket : bNodeSocket) (identifier : string) : bNodeSocket :=
  {| sock_name := sock_name socket;
     sock_identifier := identifier;
     sock_description := sock_description socket;
     sock_idname := sock_idname socket;
     sock_flag := sock_flag socket;
     sock_attribute_domain := sock_attribute_domain socket;
     sock_default_attribute_name := sock_default_attribute_name socket;
     sock_type := sock_type socket;
     sock_default_value := sock_default_value socket;
     sock_prop := sock_prop socket |}.

(** The loop [LISTBASE_FOREACH (bNodeSocket *, socket, &sockets)], from a
    socket of the list on, with the value [index] has at that point; the
    [return] in the body leaves the sockets behind as they are. *)
Fixpoint identifier_suffixes_from `{SocketLayout} (sockets : list bNodeSocket)
    (separator : string) (total : option Z) (index : Z) : list bNodeSocket :=
  match sockets with
  | [] => []
  | socket :: sockets' =>
      if is_available socket then
        match strstr (sock_identifier socket) separator with
        | Some pos =>
            (* End the identifier at the separator so that the old suffix is ignored. *)
            let socket :=
              set_identifier socket (String.substring 0 pos (sock_identifier socket)) in
            match total with
            | Some total_value =>
                let index := int_wrap (index + 1) in
                if index =? total_value then socket :: sockets'
                else socket :: identifier_suffixes_from sockets' separator total index
            | None => socket :: identifier_suffixes_from sockets' separator total index
            end
        | None => socket :: identifier_suffixes_from sockets' separator total index
        end
      else
        (* Rename existing identifiers so that they don't conflict with the renamed one. *)
        set_identifier socket
          (BLI_strncat (sock_identifier socket) "_deprecated" sizeof_identifier)
        :: identifier_suffixes_from sockets' separator total index
  end.

Definition version_socket_identifier_suffixes_for_dynamic_types `{SocketLayout}
    (sockets : list bNodeSocket) (separator : string) (total : option Z)
    : list bNodeSocket :=
  identifier_suffixes_from sockets separator total 0.

(** A socket without its identifier: two sockets with the same image differ by
    their identifiers only. *)
Definition without_identifier (socket : bNodeSocket) : bNodeSocket :=
  set_identifier socket EmptyString.

(** What the function makes of one socket when it goes over it. *)
Definition identifier_suffix_cut `{SocketLayout} (separator : string) (socket : bNodeSocket)
    : bNodeSocket :=
  if is_available socket then
    match strstr (sock_identifier socket) separator with
    | Some pos => set_identifier socket (String.substring 0 pos (sock_identifier socket))
    | None => socket
    end
  else set_identifier socket
         (BLI_strncat (sock_identifier socket) "_deprecated" sizeof_identifier).

(** The socket is available and its identifier holds the separator. *)
Definition has_suffix `{SocketLayout} (separator : string) (socket : bNodeSocket) : bool :=
  is_available socket && bool_decide (is_Some (strstr (sock_identifier socket) separator)).

Definition sample_layout : SocketLayout :=
  {| SOCK_UNAVAIL := 8; sizeof_identifier := 64 |}.

(** The inputs of a node with a data type menu: the sockets of the types not
    in use are unavailable. *)
Definition dynamic_sockets : list bNodeSocket :=
  [ set_identifier (float_socket "Value" F32.zero) "Value_Float";
    {| sock_name := "Value"; sock_identifier := "Value_Vector";
       sock_description := EmptyString; sock_idname := "NodeSocketVector";
       sock_flag := 8; sock_attribute_domain := 0; sock_default_attribute_name := None;
       sock_type := SOCK_VECTOR; sock_default_value := None; sock_prop := None |};
    set_identifier (float_socket "Group Index" F32.zero) "Group Index";
    set_identifier (float_socket "Domain" F32.zero) "Domain" ].

(** The number of available sockets whose identifier holds the separator. *)
Definition suffix_count `{SocketLayout} (separator : string) (sockets : list bNodeSocket)
    : nat :=
  length (filter (fun socket => has_suffix separator socket = true) sockets).

(** ** Trees the analysis can read *)

Definition float_storage (sock : bNodeSocket) : Prop :=
  exists v, sock_default_value sock = Some (bNodeSocketValueFloat v).

Definition rgba_storage (sock : bNodeSocket) : Prop :=
  exists r g b a, sock_default_value sock = Some (bNodeSocketValueRGBA r g b a).

(** The node has an input socket of the given identifier, and the first one
    it has satisfies [P]. *)
Definition has_input (node : bNode) (identifier : string) (P : bNodeSocket -> Prop) : Prop :=
  exists (i : nat) (sock : bNodeSocket),
    find_identifier identifier (node_inputs node) 0%nat = Some i
    /\ node_inputs node !! i = Some sock
    /\ P sock.

(** What the analysis dereferences without a test when it meets a node: the
    input sockets it reads by position and the sockets it looks up by
    identifier, with the storage of the value it reads. *)
Definition node_analysable (node : bNode) : Prop :=
  match node_type_of node with
  | NODE_REROUTE => (1 <= length (node_inputs node))%nat
  | SH_NODE_BSDF_TRANSPARENT => has_input node "Color" rgba_storage
  | SH_NODE_MIX_SHADER =>
      (3 <= length (node_inputs node))%nat /\ has_input node "Fac" float_storage
  | SH_NODE_ADD_SHADER => (2 <= length (node_inputs node))%nat
  | SH_NODE_BSDF_PRINCIPLED => has_input node "Alpha" float_storage
  | SH_NODE_EEVEE_SPECULAR => has_input node "Transparency" float_storage
  | _ => True
  end.

Definition tree_analysable (ntree : bNodeTree) : Prop :=
  links_resolve ntree /\ Forall node_analysable (nodes ntree).
(** * Properties *)

(** ** The combination rules of [AlphaSource] *)

Section AlphaSourceRules.
Import AlphaSource.

Lemma mix_state_table (a b : t) (fac : option socket_ptr) :
  state (mix a b fac) =
  match state a, state b with
  | ALPHA_COMPLEX_MIX, _ | _, ALPHA_COMPLEX_MIX => ALPHA_COMPLEX_MIX
  | ALPHA_SEMI_TRANSPARENT, _ | _, ALPHA_SEMI_TRANSPARENT => ALPHA_COMPLEX_MIX
  | ALPHA_FULLY_TRANSPARENT, ALPHA_FULLY_TRANSPARENT => ALPHA_FULLY_TRANSPARENT
  | ALPHA_OPAQUE, ALPHA_OPAQUE => ALPHA_OPAQUE
  | _, _ => ALPHA_SEMI_TRANSPARENT
  end.
Proof.
  unfold mix, is_complex, is_semi_transparent, is_fully_transparent, is_opaque.
  destruct (state a), (state b); reflexivity.
Qed.

(** C1, as the claim words it, fails: a semi-transparent source mixed with
    an opaque one is complex for the code, where the claim promises a
    semi-transparent result driven by the factor. *)
Lemma mix_semi_opaque_not_semi :
  ~ (forall (a b : t) (fac : option socket_ptr),
       state (mix a b fac) = mix_spec_state a b).
Proof.
  intros H.
  specialize (H (alpha_source (Some (SocketPtr 0%nat SOCK_IN 0%nat)) false) opaque
                (Some (SocketPtr 1%nat SOCK_IN 0%nat))).
  vm_compute in H. discriminate H.
Qed.

(** C1, amended: the result of [mix] is complex as soon as an operand is
    complex or semi-transparent, whatever the other operand; fully
    transparent for two fully transparent operands; opaque for two opaque
    operands; and for one fully transparent and one opaque operand it is
    semi-transparent, driven by the factor socket, read inverted exactly when
    the first operand is the opaque one. *)
Theorem mix_rule (a b : t) (fac : option socket_ptr) :
  mix a b fac =
  match state a, state b with
  | ALPHA_COMPLEX_MIX, _ | _, ALPHA_COMPLEX_MIX => complex_alpha
  | ALPHA_SEMI_TRANSPARENT, _ | _, ALPHA_SEMI_TRANSPARENT => complex_alpha
  | ALPHA_FULLY_TRANSPARENT, ALPHA_FULLY_TRANSPARENT => fully_transparent None false
  | ALPHA_OPAQUE, ALPHA_OPAQUE => opaque
  | ALPHA_FULLY_TRANSPARENT, ALPHA_OPAQUE => alpha_source fac false
  | ALPHA_OPAQUE, ALPHA_FULLY_TRANSPARENT => alpha_source fac true
  end.
Proof.
  unfold mix, is_complex, is_semi_transparent, is_fully_transparent, is_opaque,
    is_transparent.
  destruct (state a), (state b); reflexivity.
Qed.

(** C7: [mix] gives the same state whichever way round its operands are;
    [add] of two opaque sources is opaque and of two fully transparent
    sources is fully transparent; a complex operand on either side makes the
    result of [mix] and of [add] complex. *)
Theorem analyzer_algebra :
  (forall (a b : t) (fac : option socket_ptr),
      state (mix a b fac) = state (mix b a fac))
  /\ add opaque opaque = opaque
  /\ (forall sa ia sb ib,
        state (add (Build sa ALPHA_OPAQUE ia) (Build sb ALPHA_OPAQUE ib)) = ALPHA_OPAQUE)
  /\ (forall sa ia sb ib,
        state (add (Build sa ALPHA_FULLY_TRANSPARENT ia)
                   (Build sb ALPHA_FULLY_TRANSPARENT ib)) = ALPHA_FULLY_TRANSPARENT)
  /\ (forall s i b fac, mix (Build s ALPHA_COMPLEX_MIX i) b fac = complex_alpha)
  /\ (forall s i a fac, mix a (Build s ALPHA_COMPLEX_MIX i) fac = complex_alpha)
  /\ (forall s i b, add (Build s ALPHA_COMPLEX_MIX i) b = complex_alpha)
  /\ (forall s i a, add a (Build s ALPHA_COMPLEX_MIX i) = complex_alpha).
Proof.
  split; [| split; [| split; [| split; [| split; [| split; [| split]]]]]]; intros.
  - rewrite !mix_state_table. destruct (state a), (state b); reflexivity.
  - reflexivity.
  - reflexivity.
  - reflexivity.
  - reflexivity.
  - unfold mix, is_complex. simpl. rewrite orb_true_r. reflexivity.
  - reflexivity.
  - unfold add, is_complex. simpl. rewrite orb_true_r. reflexivity.
Qed.

End AlphaSourceRules.

(** ** The recursive analysis *)

Ltac unfold_bind :=
  unfold socket_at, node_at, version_cycles_node_socket_float_value,
    version_cycles_node_socket_rgba_value in *;
  unfold mbind, result_bind, mret, result_ret, deref in *.

(** Case analysis on every scrutinee of the goal, closing the branches that
    end on a constructor other than the expected one. *)
Ltac break_match :=
  match goal with
  | |- context [match ?x with _ => _ end] =>
      lazymatch x with
      | context [match _ with _ => _ end] => fail
      | _ => destruct x eqn:?
      end
  end.


Section Analysis.
Import AlphaSource.

Lemma alpha_source_get_depth_cap (fuel : nat) (ntree : bNodeTree)
    (socket : option socket_ptr) (depth : Z) :
  100 < depth ->
  versioning_eevee_alpha_source_get (S fuel) ntree socket depth = Ok complex_alpha.
Proof.
  intros Hd. simpl. destruct (Z.gtb_spec depth 100); [reflexivity | lia].
Qed.

Lemma alpha_source_get_enough_fuel (fuel : nat) :
  forall (ntree : bNodeTree) (socket : option socket_ptr) (depth : Z),
    (alpha_source_fuel depth <= fuel)%nat ->
    versioning_eevee_alpha_source_get fuel ntree socket depth <> OutOfFuel.
Proof.
  induction fuel as [|fuel IH]; intros ntree socket depth Hfuel.
  - unfold alpha_source_fuel in Hfuel. lia.
  - cbn [versioning_eevee_alpha_source_get].
    destruct (Z.gtb_spec depth 100) as [Hd|Hd]; [discriminate|].
    assert (IH' : forall s, versioning_eevee_alpha_source_get fuel ntree s (depth + 1)
                            <> OutOfFuel).
    { intros s. apply IH. unfold alpha_source_fuel in *. lia. }
    unfold_bind.
    repeat first
      [ discriminate
      | match goal with
        | |- context [versioning_eevee_alpha_source_get fuel ntree ?s (depth + 1)] =>
            let E := fresh "E" in
            destruct (versioning_eevee_alpha_source_get fuel ntree s (depth + 1)) eqn:E;
            [ | | exfalso; exact (IH' s E) ]
        end
      | break_match ].
Qed.

(** Once the fuel is enough for an answer, more fuel gives the same answer. *)
Lemma alpha_source_get_more_fuel (fuel : nat) :
  forall (fuel' : nat) (ntree : bNodeTree) (socket : option socket_ptr) (depth : Z),
    (fuel <= fuel')%nat ->
    versioning_eevee_alpha_source_get fuel ntree socket depth <> OutOfFuel ->
    versioning_eevee_alpha_source_get fuel' ntree socket depth
    = versioning_eevee_alpha_source_get fuel ntree socket depth.
Proof.
  induction fuel as [|fuel IH]; intros fuel' ntree socket depth Hle Hres.
  - simpl in Hres. congruence.
  - destruct fuel' as [|fuel']; [lia|].
    assert (IH' : forall s d,
               versioning_eevee_alpha_source_get fuel ntree s d <> OutOfFuel ->
               versioning_eevee_alpha_source_get fuel' ntree s d
               = versioning_eevee_alpha_source_get fuel ntree s d).
    { intros s d. apply IH. lia. }
    cbn [versioning_eevee_alpha_source_get] in *.
    revert Hres. unfold_bind.
    repeat first
      [ solve [ intros; first [ reflexivity | congruence ] ]
      | match goal with
        | |- context [versioning_eevee_alpha_source_get fuel' ntree ?s ?d] =>
            let E := fresh "E" in
            destruct (versioning_eevee_alpha_source_get fuel ntree s d) eqn:E;
            [ rewrite (IH' s d) by (rewrite E; discriminate)
            | rewrite (IH' s d) by (rewrite E; discriminate)
            | generalize (versioning_eevee_alpha_source_get fuel' ntree s d); intro ]
        end
      | break_match ].
Qed.

(** C9: whatever the tree (links may form cycles), the socket and the depth,
    the analysis returns as soon as the call stack may hold
    [alpha_source_fuel depth] frames, 102 for the depth 0 of the first call:
    every recursive call is made at [depth + 1], and a call at a depth above
    the cap of 100 returns the complex classification at once. *)
Theorem alpha_source_get_terminates (fuel : nat) (ntree : bNodeTree)
    (socket : option socket_ptr) (depth : Z)
    (Hfuel : (alpha_source_fuel depth <= fuel)%nat) :
  versioning_eevee_alpha_source_get fuel ntree socket depth <> OutOfFuel
  /\ (forall fuel', (fuel <= fuel')%nat ->
        versioning_eevee_alpha_source_get fuel' ntree socket depth
        = versioning_eevee_alpha_source_get fuel ntree socket depth)
  /\ (100 < depth ->
        versioning_eevee_alpha_source_get fuel ntree socket depth = Ok complex_alpha).
Proof.
  split; [|split].
  - apply alpha_source_get_enough_fuel. exact Hfuel.
  - intros fuel' Hle. apply alpha_source_get_more_fuel; [exact Hle|].
    apply alpha_source_get_enough_fuel. exact Hfuel.
  - intros Hd. destruct fuel as [|fuel]; [unfold alpha_source_fuel in Hfuel; lia|].
    apply alpha_source_get_depth_cap. exact Hd.
Qed.

End Analysis.

Lemma alpha_source_get_terminates_witness :
  (alpha_source_fuel 0 <= 102)%nat
  /\ versioning_eevee_alpha_source_get 102 reroute_cycle
       (Some (SocketPtr 0 SOCK_IN 0)) 0 <> OutOfFuel.
Proof.
  split.
  - unfold alpha_source_fuel. lia.
  - apply (alpha_source_get_terminates 102 reroute_cycle (Some (SocketPtr 0 SOCK_IN 0)) 0).
    unfold alpha_source_fuel. lia.
Defined.

(** The walk around the cycle ends on the cap. *)
Example reroute_cycle_is_complex :
  versioning_eevee_alpha_source_get (alpha_source_fuel 0) reroute_cycle
    (Some (SocketPtr 0 SOCK_IN 0)) 0 = Ok AlphaSource.complex_alpha.
Proof. vm_compute. reflexivity. Qed.

(** One frame less is not enough for that walk. *)
Example reroute_cycle_needs_fuel :
  versioning_eevee_alpha_source_get 101 reroute_cycle
    (Some (SocketPtr 0 SOCK_IN 0)) 0 = OutOfFuel.
Proof. vm_compute. reflexivity. Qed.

(** ** The conversion of the blend method *)

Section BlendMode.
Context `{Kernel}.
Import AlphaSource.

Lemma alpha_source_get_unconnected (fuel : nat) (ntree : bNodeTree) (s : socket_ptr)
    (depth : Z) :
  depth <= 100 ->
  socket_link ntree s = None ->
  versioning_eevee_alpha_source_get (S fuel) ntree (Some s) depth = Ok opaque.
Proof.
  intros Hd Hlink. simpl.
  destruct (Z.gtb_spec depth 100); [lia|].
  rewrite Hlink. reflexivity.
Qed.

Lemma set_nodetree_same (material : Material) (ntree : bNodeTree) :
  nodetree material = Some ntree -> set_nodetree material ntree = material.
Proof. destruct material; simpl; intros ->; reflexivity. Qed.

Lemma reports_differ (material : Material) :
  report_non_trivial_alpha material <> report_different_modes material.
Proof.
  unfold report_non_trivial_alpha, report_different_modes. intros Heq.
  injection Heq as Heq.
  apply (inj (String.append _)) in Heq.
  apply (inj (String.append _)) in Heq.
  discriminate Heq.
Qed.


Lemma blend_mode_settings_unconnected (ntree : bNodeTree) (out : node_ptr)
    (output : bNode) (s : socket_ptr) (threshold : float32) :
  version_eevee_output_node_get ntree SH_NODE_OUTPUT_MATERIAL = Some out ->
  nodes ntree !! out = Some output ->
  nodeFindSocket out output SOCK_IN "Surface" = Some s ->
  socket_link ntree s = None ->
  versioning_eevee_material_blend_mode_settings ntree threshold = Ok (true, ntree).
Proof.
  intros Hout Hnode Hfind Hlink.
  unfold versioning_eevee_material_blend_mode_settings, node_at.
  rewrite Hout, Hnode. cbn [deref mbind result_bind]. rewrite Hfind.
  unfold alpha_source_fuel.
  rewrite alpha_source_get_unconnected by (lia || assumption).
  reflexivity.
Qed.

(** C10: a socket no link arrives at is opaque at every depth within the cap.
    When that socket is the surface socket of the output node of a material,
    [versioning_eevee_material_blend_mode_settings] returns true and leaves the
    tree as it is, and the iteration of the caller leaves the material as it
    is and does not report non-trivial alpha blending. *)
Theorem unconnected_socket_is_opaque (fuel : nat) (ntree : bNodeTree) (s : socket_ptr)
    (depth : Z) (material : Material) (out : node_ptr) (output : bNode)
    (threshold : float32)
    (Hdepth : depth <= 100)
    (Hlink : socket_link ntree s = None) :
  versioning_eevee_alpha_source_get (S fuel) ntree (Some s) depth = Ok opaque
  /\ (version_eevee_output_node_get ntree SH_NODE_OUTPUT_MATERIAL = Some out ->
      nodes ntree !! out = Some output ->
      nodeFindSocket out output SOCK_IN "Surface" = Some s ->
      versioning_eevee_material_blend_mode_settings ntree threshold = Ok (true, ntree)
      /\ (nodetree material = Some ntree ->
          exists reports,
            convert_blend_method material = Ok (material, reports)
            /\ report_non_trivial_alpha material ∉ reports)).
Proof.
  split; [apply alpha_source_get_unconnected; assumption|].
  intros Hout Hnode Hfind.
  split; [eapply blend_mode_settings_unconnected; eassumption|].
  intros Hnt. unfold convert_blend_method. rewrite Hnt.
  repeat match goal with
         | |- context [if ?b then _ else _] => destruct b
         end;
    try (eexists; split; [reflexivity|]).
  - apply not_elem_of_nil.
  - apply not_elem_of_nil.
  - rewrite list_elem_of_singleton. apply reports_differ.
  - rewrite (blend_mode_settings_unconnected ntree out output s) by assumption.
    simpl. rewrite (set_nodetree_same _ _ Hnt).
    eexists; split; [reflexivity | apply not_elem_of_nil].
  - rewrite (blend_mode_settings_unconnected ntree out output s) by assumption.
    simpl. rewrite (set_nodetree_same _ _ Hnt).
    eexists; split; [reflexivity | apply not_elem_of_nil].
Qed.

End BlendMode.

Lemma unconnected_socket_is_opaque_witness :
  0 <= 100
  /\ socket_link unconnected_surface (SocketPtr 0 SOCK_IN 0) = None
  /\ versioning_eevee_alpha_source_get 1 unconnected_surface
       (Some (SocketPtr 0 SOCK_IN 0)) 0 = Ok AlphaSource.opaque
  /\ @versioning_eevee_material_blend_mode_settings sample_kernel
       unconnected_surface F32.half = Ok (true, unconnected_surface).
Proof.
  split; [lia|]. split; [reflexivity|].
  destruct (@unconnected_socket_is_opaque sample_kernel 0 unconnected_surface
              (SocketPtr 0 SOCK_IN 0) 0
              (sample_material "MAGlass" unconnected_surface MA_BM_CLIP F32.half)
              0%nat output_material_node F32.half ltac:(lia) eq_refl) as [H1 H2].
  split; [exact H1|].
  apply H2; reflexivity.
Defined.

Section ComplexAlpha.
Context `{Kernel}.
Import AlphaSource.



End ComplexAlpha.


(** ** The math node in front of a driven alpha socket *)

Section MathNode.
Context `{Kernel}.
Import AlphaSource.

Lemma socket_link_tosock (ntree : bNodeTree) (s : socket_ptr) (link : bNodeLink) :
  socket_link ntree s = Some link -> tosock link = s /\ link ∈ links ntree.
Proof.
  unfold socket_link. intros Hfind.
  apply find_some in Hfind as [Hin Hdec].
  apply bool_decide_eq_true in Hdec.
  split; [exact Hdec | apply list_elem_of_In; exact Hin].
Qed.

Lemma filter_remove_first (s : socket_ptr) (link : bNodeLink) (l : list bNodeLink) :
  tosock link = s ->
  filter (fun l => tosock l <> s) (remove_first link l)
  = filter (fun l => tosock l <> s) l.
Proof.
  intros Hto. induction l as [|x l IH]; [reflexivity|].
  simpl. case_bool_decide as Hx.
  - subst x. rewrite filter_cons_False by (intros Hne; apply Hne; exact Hto). reflexivity.
  - rewrite !filter_cons. rewrite IH. reflexivity.
Qed.

Lemma filter_all (P : bNodeLink -> Prop) `{forall x, Decision (P x)} (l : list bNodeLink) :
  Forall P l -> filter P l = l.
Proof.
  induction 1 as [|x l Hx Hl IH]; [reflexivity|].
  rewrite filter_cons_True by exact Hx. rewrite IH. reflexivity.
Qed.

Lemma find_filter_none (s : socket_ptr) (l : list bNodeLink) :
  List.find (fun l => bool_decide (tosock l = s)) (filter (fun l => tosock l <> s) l) = None.
Proof.
  induction l as [|x l IH]; [reflexivity|].
  rewrite filter_cons. destruct (decide (tosock x <> s)) as [Hne|Heq]; [|exact IH].
  simpl. rewrite bool_decide_eq_false_2 by exact Hne. exact IH.
Qed.

Lemma alter_snoc {A : Type} (f : A -> A) (l : list A) (x : A) :
  alter f (length l) (l ++ [x]) = l ++ [f x].
Proof.
  rewrite alter_app_r_alt by lia. rewrite Nat.sub_diag. reflexivity.
Qed.

Lemma Forall_remove_first (P : bNodeLink -> Prop) (link : bNodeLink) (l : list bNodeLink) :
  Forall P l -> Forall P (remove_first link l).
Proof.
  induction 1 as [|x l Hx Hl IH]; [constructor|].
  simpl. case_bool_decide; [exact Hl|]. constructor; assumption.
Qed.

Lemma find_none_Forall (s : socket_ptr) (l : list bNodeLink) :
  Forall (fun l => tosock l <> s) l ->
  List.find (fun l => bool_decide (tosock l = s)) l = None.
Proof.
  induction 1 as [|x l Hx Hl IH]; [reflexivity|].
  simpl. rewrite bool_decide_eq_false_2 by exact Hx. exact IH.
Qed.

Lemma find_app_none {A : Type} (f : A -> bool) (l1 l2 : list A) :
  List.find f l1 = None -> List.find f (l1 ++ l2) = List.find f l2.
Proof.
  induction l1 as [|x l1 IH]; [reflexivity|].
  simpl. destruct (f x); [discriminate|]. exact IH.
Qed.

(** C2: the surface of the tree is classified semi-transparent, a link
    arrives at the driving socket, and the threshold is not 2.0.  Then the
    conversion returns true; the nodes of the tree are the former ones and
    one math node after them, in GREATER_THAN mode, whose second input holds
    the threshold, or 1 - threshold for a transparency socket; the link that
    arrived at the driving socket is gone; a link goes from its source socket
    to the first input of the math node, and a link goes from the output of
    the math node to the driving socket. *)
Theorem math_node_inserted (ntree : bNodeTree) (out : node_ptr) (output : bNode)
    (alpha : t) (alpha_socket : socket_ptr) (link : bNodeLink) (threshold : float32)
    (input_1 input_2 output_1 : bNodeSocket) (value_2 : float32)
    (Hout : version_eevee_output_node_get ntree SH_NODE_OUTPUT_MATERIAL = Some out)
    (Hnode : nodes ntree !! out = Some output)
    (Halpha : versioning_eevee_alpha_source_get (alpha_source_fuel 0) ntree
                (nodeFindSocket out output SOCK_IN "Surface") 0 = Ok alpha)
    (Hsemi : state alpha = ALPHA_SEMI_TRANSPARENT)
    (Hsocket : socket alpha = Some alpha_socket)
    (Hlink : socket_link ntree alpha_socket = Some link)
    (Hthreshold : F32.eqb threshold F32.two = false)
    (Hvalid : links_resolve ntree)
    (Hin1 : node_inputs (node_type_new "ShaderNodeMath") !! 0%nat = Some input_1)
    (Hin2 : node_inputs (node_type_new "ShaderNodeMath") !! 1%nat = Some input_2)
    (Hval2 : sock_default_value input_2 = Some (bNodeSocketValueFloat value_2))
    (Hout1 : node_outputs (node_type_new "ShaderNodeMath") !! 0%nat = Some output_1) :
  let math_node := length (nodes ntree) in
  let source_link :=
    {| fromnode := fromnode link; fromsock := fromsock link;
       tonode := math_node; tosock := SocketPtr math_node SOCK_IN 0 |} in
  let result_link :=
    {| fromnode := math_node; fromsock := SocketPtr math_node SOCK_OUT 0;
       tonode := tonode link; tosock := alpha_socket |} in
  exists (ntree' : bNodeTree) (to_node from_node : bNode),
    versioning_eevee_material_blend_mode_settings ntree threshold = Ok (true, ntree')
    /\ nodes ntree !! tonode link = Some to_node
    /\ nodes ntree !! fromnode link = Some from_node
    /\ nodes ntree' =
         nodes ntree ++ [inserted_math_node to_node from_node (math_threshold alpha threshold)]
    /\ node_custom1 (inserted_math_node to_node from_node (math_threshold alpha threshold))
         = NODE_MATH_GREATER_THAN
    /\ (sock_default_value <$>
          (node_inputs (inserted_math_node to_node from_node (math_threshold alpha threshold))
             !! 1%nat))
       = Some (Some (bNodeSocketValueFloat (math_threshold alpha threshold)))
    /\ links ntree' =
         filter (fun l => tosock l <> alpha_socket) (links ntree) ++ [source_link; result_link]
    /\ (link ∉ links ntree')
    /\ socket_link ntree' (SocketPtr math_node SOCK_IN 0) = Some source_link
    /\ socket_link ntree' alpha_socket = Some result_link.
Proof.
  intros math_node source_link result_link.
  destruct (socket_link_tosock _ _ _ Hlink) as [Hto Hin].
  subst alpha_socket.
  assert (Hres : link_resolves ntree link).
  { unfold links_resolve in Hvalid. rewrite Forall_forall in Hvalid. apply Hvalid, Hin. }
  destruct Hres as (Hfrom_lt & Hto_lt & Hfrom_sock & Hto_sock).
  destruct (lookup_lt_is_Some_2 _ _ Hto_lt) as [to_node Hto_node].
  destruct (lookup_lt_is_Some_2 _ _ Hfrom_lt) as [from_node Hfrom_node].
  assert (Hne : SocketPtr math_node SOCK_IN 0 <> tosock link).
  { intros Heq. apply (f_equal sp_node) in Heq.
    simpl in Heq. subst math_node. lia. }
  assert (Hfresh : Forall (fun l => tosock l <> SocketPtr math_node SOCK_IN 0)
                          (remove_first link (links ntree))).
  { apply Forall_remove_first. unfold links_resolve in Hvalid.
    eapply Forall_impl; [exact Hvalid|].
    intros x (_ & Hlt & _ & Hsock) Heq.
    rewrite Heq in Hsock. simpl in Hsock. subst math_node. lia. }
  assert (Hlinks :
    filter (fun l => tosock l <> tosock link)
      (filter (fun l => tosock l <> SocketPtr math_node SOCK_IN 0)
         (remove_first link (links ntree)) ++ [source_link]) ++ [result_link]
    = filter (fun l => tosock l <> tosock link) (links ntree)
      ++ [source_link; result_link]).
  { rewrite (filter_all _ _ Hfresh). rewrite filter_app.
    rewrite (filter_remove_first _ _ _ eq_refl).
    rewrite filter_cons_True by exact Hne. rewrite filter_nil.
    rewrite <- app_assoc. reflexivity. }
  eexists _, to_node, from_node.
  split.
  {
  unfold versioning_eevee_material_blend_mode_settings, node_at.
  rewrite Hout, Hnode. cbn [deref mbind result_bind]. rewrite Halpha.
  cbn [mbind result_bind]. unfold is_complex. rewrite Hsemi, Hsocket, Hthreshold, Hlink.
  unfold nodeAddNode, nodeRemLink. cbn [nodes set_nodes set_links links].
  rewrite !lookup_app_l by lia. rewrite Hto_node, Hfrom_node.
  cbn [deref mbind result_bind].
  unfold update_node, node_at. cbn [nodes set_nodes set_links links].
  rewrite list_lookup_middle by reflexivity. cbn [deref mbind result_bind].
  rewrite alter_snoc. cbn [nodes set_nodes set_links links].
  rewrite list_lookup_middle by reflexivity. cbn [deref mbind result_bind].
  unfold BLI_findlink. cbn [node_sockets setup_math_node node_inputs node_outputs].
  rewrite Hin1, Hin2, Hout1.
  unfold nodeAddLink. cbn [deref mbind result_bind nodes set_nodes set_links links].
  unfold write_float_value, socket_at, node_at.
  cbn [nodes set_nodes set_links links sp_node sp_in_out sp_index].
  rewrite list_lookup_middle by reflexivity. cbn [deref mbind result_bind].
  cbn [node_sockets setup_math_node node_inputs node_outputs].
  rewrite Hin2. cbn [deref mbind result_bind].
  unfold version_cycles_node_socket_float_value. rewrite Hval2.
  unfold update_node, node_at. cbn [nodes set_nodes set_links links].
  rewrite list_lookup_middle by reflexivity. cbn [deref mbind result_bind].
  rewrite alter_snoc.
  reflexivity. }
  cbn [nodes links set_nodes set_links].
  split; [exact Hto_node|]. split; [exact Hfrom_node|].
  split; [reflexivity|]. split; [reflexivity|].
  split.
  { unfold inserted_math_node, set_node_socket. cbn [node_inputs setup_math_node].
    rewrite list_lookup_alter_eq, Hin2. reflexivity. }
  split; [exact Hlinks|].
  subst result_link source_link math_node. cbn beta in Hlinks. rewrite Hlinks.
  split; [|split].
  - rewrite elem_of_app, list_elem_of_filter.
    intros [[Hne' _] | Hin'].
    + apply Hne'. reflexivity.
    + apply elem_of_cons in Hin' as [Heq | Hin'].
      * apply Hne. rewrite Heq. reflexivity.
      * apply list_elem_of_singleton in Hin'.
        apply (f_equal fromnode) in Hin'. simpl in Hin'. lia.
  - unfold socket_link. cbn [links set_links set_nodes].
    rewrite find_app_none.
    + simpl. rewrite bool_decide_eq_true_2 by reflexivity. reflexivity.
    + apply find_none_Forall.
      apply Forall_forall. intros x Hx.
      apply list_elem_of_filter in Hx as [_ Hx].
      unfold links_resolve in Hvalid. rewrite Forall_forall in Hvalid.
      destruct (Hvalid x Hx) as (_ & Hlt & _ & Hsock). intros Heq.
      rewrite Heq in Hsock. simpl in Hsock. lia.
  - unfold socket_link. cbn [links set_links set_nodes].
    rewrite find_app_none by apply find_filter_none.
    simpl. rewrite bool_decide_eq_false_2 by exact Hne.
    rewrite bool_decide_eq_true_2 by reflexivity. reflexivity.
Qed.

End MathNode.

Lemma math_node_inserted_witness :
  exists ntree' : bNodeTree,
    @versioning_eevee_material_blend_mode_settings sample_kernel textured_alpha F32.half
    = Ok (true, ntree')
    /\ links ntree' =
       [ link_between 1 0 0 0;
         {| fromnode := 2%nat; fromsock := SocketPtr 2 SOCK_OUT 1;
            tonode := 3%nat; tosock := SocketPtr 3 SOCK_IN 0 |};
         {| fromnode := 3%nat; fromsock := SocketPtr 3 SOCK_OUT 0;
            tonode := 1%nat; tosock := SocketPtr 1 SOCK_IN 1 |} ]
    /\ length (nodes ntree') = 4%nat.
Proof.
  destruct (@math_node_inserted sample_kernel textured_alpha 0%nat output_material_node
              (AlphaSource.alpha_source (Some (SocketPtr 1 SOCK_IN 1)) false)
              (SocketPtr 1 SOCK_IN 1) (link_between 2 1 1 1) F32.half
              (float_socket "Value" F32.half) (float_socket "Value_001" F32.half)
              (float_socket "Value" F32.zero) F32.half)
    as (ntree' & to_node & from_node & Hrun & _ & _ & Hnodes & _ & _ & Hlinks & _).
  - reflexivity.
  - reflexivity.
  - vm_compute. reflexivity.
  - reflexivity.
  - reflexivity.
  - reflexivity.
  - vm_compute. reflexivity.
  - unfold links_resolve, link_resolves. simpl. repeat constructor.
  - reflexivity.
  - reflexivity.
  - reflexivity.
  - reflexivity.
  - exists ntree'. split; [exact Hrun|]. split.
    + rewrite Hlinks. reflexivity.
    + rewrite Hnodes. reflexivity.
Defined.

(** Scenario 4 of the specification, run: the threshold 0.5 is the value of
    the second input of the math node. *)
Example textured_alpha_threshold :
  match @versioning_eevee_material_blend_mode_settings sample_kernel textured_alpha F32.half with
  | Ok (converted, ntree') =>
      converted = true
      /\ (node_custom1 <$> nodes ntree' !! 3%nat) = Some 16
      /\ ((nodes ntree' !! 3%nat) ≫= fun math => sock_default_value <$> node_inputs math !! 1%nat)
         = Some (Some (bNodeSocketValueFloat F32.half))
  | _ => False
  end.
Proof. vm_compute. repeat split. Qed.

(** ** The version guards *)

Lemma at_least_spec (bmain : Main) (ver subver : Z) :
  MAIN_VERSION_FILE_ATLEAST bmain ver subver = true
  <-> tag_le (ver, subver) (stored_tag bmain).
Proof.
  unfold MAIN_VERSION_FILE_ATLEAST, tag_le, stored_tag. simpl.
  rewrite orb_true_iff, andb_true_iff, Z.gtb_lt, Z.eqb_eq, Z.geb_le.
  intuition lia.
Qed.

Lemma not_at_least_spec (bmain : Main) (ver subver : Z) :
  negb (MAIN_VERSION_FILE_ATLEAST bmain ver subver) = true
  <-> tag_lt (stored_tag bmain) (ver, subver).
Proof.
  rewrite negb_true_iff, <- not_true_iff_false, at_least_spec.
  unfold tag_le, tag_lt, stored_tag. simpl. lia.
Qed.

Lemma guard_holds_spec (bmain : Main) (g : guard) :
  guard_holds bmain g = true <->
  match g with
  | NotAtLeast ver subver => tag_lt (stored_tag bmain) (ver, subver)
  | AtLeastAndNotAtLeast ver0 subver0 ver subver =>
      tag_le (ver0, subver0) (stored_tag bmain) /\ tag_lt (stored_tag bmain) (ver, subver)
  end.
Proof.
  destruct g as [ver subver | ver0 subver0 ver subver]; simpl.
  - apply not_at_least_spec.
  - rewrite andb_true_iff, at_least_spec, not_at_least_spec. reflexivity.
Qed.

Lemma blocks_run_from_lower (bmain : Main) (gs : list guard) :
  forall (i j : nat), j ∈ blocks_run_from bmain i gs -> (i <= j)%nat.
Proof.
  induction gs as [|g gs IH]; intros i j Hj; simpl in Hj.
  - inversion Hj.
  - destruct (guard_holds bmain g).
    + apply elem_of_cons in Hj as [-> | Hj]; [lia|]. apply IH in Hj. lia.
    + apply IH in Hj. lia.
Qed.

Lemma blocks_run_from_NoDup (bmain : Main) (gs : list guard) :
  forall i : nat, NoDup (blocks_run_from bmain i gs).
Proof.
  induction gs as [|g gs IH]; intros i; simpl.
  - constructor.
  - destruct (guard_holds bmain g); [|apply IH].
    constructor; [|apply IH].
    intros Hin. apply blocks_run_from_lower in Hin. lia.
Qed.

Lemma blocks_run_from_spec (bmain : Main) (gs : list guard) :
  forall (i j : nat),
    j ∈ blocks_run_from bmain i gs
    <-> exists g, gs !! (j - i)%nat = Some g /\ (i <= j)%nat /\ guard_holds bmain g = true.
Proof.
  induction gs as [|g gs IH]; intros i j; simpl.
  - split; [intros Hj; inversion Hj | intros (g & Hg & _); discriminate Hg].
  - assert (Hrest : j ∈ blocks_run_from bmain (S i) gs
                    <-> exists g', (g :: gs) !! (j - i)%nat = Some g'
                                   /\ (S i <= j)%nat /\ guard_holds bmain g' = true).
    { rewrite IH. split; intros (g' & Hg' & Hle & Hrun); exists g'.
      - replace (j - i)%nat with (S (j - S i)) by lia. auto.
      - replace (j - i)%nat with (S (j - S i)) in Hg' by lia. auto. }
    destruct (guard_holds bmain g) eqn:Hg.
    + rewrite elem_of_cons, Hrest. split.
      * intros [-> | (g' & Hg' & Hle & Hrun)].
        -- exists g. rewrite Nat.sub_diag. auto.
        -- exists g'. split; [exact Hg'|]. split; [lia | exact Hrun].
      * intros (g' & Hg' & Hle & Hrun).
        destruct (decide (j = i)) as [-> | Hne]; [left; reflexivity|].
        right. exists g'. split; [exact Hg'|]. split; [lia | exact Hrun].
    + rewrite Hrest. split.
      * intros (g' & Hg' & Hle & Hrun). exists g'. split; [exact Hg'|]. split; [lia | exact Hrun].
      * intros (g' & Hg' & Hle & Hrun).
        destruct (decide (j = i)) as [-> | Hne].
        -- rewrite Nat.sub_diag in Hg'. simpl in Hg'. congruence.
        -- exists g'. split; [exact Hg'|]. split; [lia | exact Hrun].
Qed.

(** C5, as the claim words it, fails for the block guarded at (401, 11): a
    document stored at (400, 10) is strictly below that tag and the body of
    the block does not run. *)
Lemma guard_401_11_not_below_only :
  ~ (forall (g : guard) (bmain : Main),
       g ∈ blo_do_versions_400_guards ->
       (guard_holds bmain g = true <-> tag_lt (stored_tag bmain) (guard_tag g))).
Proof.
  intros Hclaim.
  assert (Hin : AtLeastAndNotAtLeast 400 20 401 11 ∈ blo_do_versions_400_guards).
  { apply list_elem_of_lookup. exists 34%nat. reflexivity. }
  destruct (Hclaim _ (main_at 400 10) Hin) as [_ Hrun].
  assert (Hlt : tag_lt (stored_tag (main_at 400 10))
                       (guard_tag (AtLeastAndNotAtLeast 400 20 401 11))).
  { left. simpl. lia. }
  apply Hrun in Hlt. vm_compute in Hlt. discriminate Hlt.
Qed.

(** C5, amended: in one pass over [blo_do_versions_400] or
    [do_versions_after_linking_400], the body of a block runs at most once,
    and it runs exactly when its guard holds.  For every block but one the
    guard holds exactly when the stored tag is strictly below the tag of the
    block, so for the block of the socket lists at (400, 20); the guard of the
    block at (401, 11) holds exactly when the stored tag is strictly below
    (401, 11) and at least (400, 20). *)
Theorem version_gate (bmain : Main) (gs : list guard) (g : guard) (i : nat)
    (Hgs : gs = blo_do_versions_400_guards \/ gs = do_versions_after_linking_400_guards)
    (Hg : gs !! i = Some g) :
  NoDup (blocks_run bmain gs)
  /\ (i ∈ blocks_run bmain gs <-> guard_holds bmain g = true)
  /\ (guard_holds bmain g = true <->
      tag_lt (stored_tag bmain) (guard_tag g)
      /\ (g = AtLeastAndNotAtLeast 400 20 401 11 -> tag_le (400, 20) (stored_tag bmain)))
  /\ (g <> AtLeastAndNotAtLeast 400 20 401 11 ->
      (guard_holds bmain g = true <-> tag_lt (stored_tag bmain) (guard_tag g)))
  /\ (guard_holds bmain (NotAtLeast 400 20) = true
      <-> tag_lt (stored_tag bmain) (400, 20)).
Proof.
  assert (Hshape : Forall (fun g => (exists ver subver, g = NotAtLeast ver subver)
                                    \/ g = AtLeastAndNotAtLeast 400 20 401 11) gs).
  { destruct Hgs as [-> | ->];
      repeat (constructor;
              [first [left; eexists _, _; reflexivity | right; reflexivity]|]);
      constructor. }
  rewrite Forall_lookup in Hshape. specialize (Hshape i g Hg).
  split; [apply blocks_run_from_NoDup|]. split; [|split; [|split]].
  - unfold blocks_run. rewrite blocks_run_from_spec. rewrite Nat.sub_0_r. split.
    + intros (g' & Hg' & _ & Hrun). congruence.
    + intros Hrun. exists g. split; [exact Hg|]. split; [lia | exact Hrun].
  - rewrite guard_holds_spec.
    destruct Hshape as [(ver & subver & ->) | ->]; simpl.
    + split; [intros Hlt; split; [exact Hlt | discriminate] | intros [Hlt _]; exact Hlt].
    + split; [intros [Hle Hlt]; auto | intros [Hlt Hle]; auto].
  - intros Hne. rewrite guard_holds_spec.
    destruct Hshape as [(ver & subver & ->) | ->]; [reflexivity | congruence].
  - apply guard_holds_spec.
Qed.

Lemma version_gate_witness :
  3%nat ∈ blocks_run (main_at 400 5) blo_do_versions_400_guards
  <-> guard_holds (main_at 400 5) (NotAtLeast 400 6) = true.
Proof.
  destruct (version_gate (main_at 400 5) blo_do_versions_400_guards (NotAtLeast 400 6) 3
              (or_introl eq_refl) eq_refl) as (_ & Hrun & _).
  exact Hrun.
Defined.

(** A document stored at (400, 25): the first block that runs is the one at
    (400, 26), and the block at (401, 11) runs; it does not run for a document
    stored at (400, 10). *)
Example blocks_run_at_400_25 :
  head (blocks_run (main_at 400 25) blo_do_versions_400_guards) = Some 19%nat
  /\ 34%nat ∈ blocks_run (main_at 400 25) blo_do_versions_400_guards
  /\ 34%nat ∉ blocks_run (main_at 400 10) blo_do_versions_400_guards.
Proof.
  split; [reflexivity|]. split.
  - apply (bool_decide_eq_true_1 (34%nat ∈ _)). vm_compute. reflexivity.
  - apply (bool_decide_eq_false_1 (34%nat ∈ _)). vm_compute. reflexivity.
Qed.

(** ** Flag words *)

Lemma land_lnot_disjoint (m m' : Z) : Z.land m m' = 0 -> Z.land (Z.lnot m) m' = m'.
Proof.
  intros Hdis. apply Z.bits_inj'. intros n Hn.
  rewrite Z.land_spec, Z.lnot_spec by exact Hn.
  assert (Hbit : Z.testbit (Z.land m m') n = false) by (rewrite Hdis; apply Z.bits_0).
  rewrite Z.land_spec in Hbit.
  destruct (Z.testbit m n), (Z.testbit m' n); simpl in *; congruence.
Qed.

Lemma flag_test_set_same (value mask : Z) (test : bool) :
  mask <> 0 -> flag_test (SET_FLAG_FROM_TEST value test mask) mask = test.
Proof.
  intros Hmask. unfold flag_test, SET_FLAG_FROM_TEST. destruct test.
  - rewrite Z.land_lor_distr_l, Z.land_diag.
    destruct (Z.eqb_spec (Z.lor (Z.land value mask) mask) 0) as [Hzero|]; [|reflexivity].
    apply Z.lor_eq_0_iff in Hzero as [_ Hzero]. contradiction.
  - rewrite <- Z.land_assoc, (Z.land_comm (Z.lnot mask)), Z.land_lnot_diag, Z.land_0_r.
    reflexivity.
Qed.

Lemma flag_test_set_other (value mask mask' : Z) (test : bool) :
  Z.land mask mask' = 0 ->
  flag_test (SET_FLAG_FROM_TEST value test mask) mask' = flag_test value mask'.
Proof.
  intros Hdis. unfold flag_test, SET_FLAG_FROM_TEST. destruct test.
  - rewrite Z.land_lor_distr_l, Hdis, Z.lor_0_r. reflexivity.
  - rewrite <- Z.land_assoc, (land_lnot_disjoint _ _ Hdis). reflexivity.
Qed.

Lemma flag_test_same (mask : Z) : mask <> 0 -> flag_test mask mask = true.
Proof.
  intros Hmask. unfold flag_test. rewrite Z.land_diag.
  destruct (Z.eqb_spec mask 0); [contradiction | reflexivity].
Qed.

Lemma flag_test_disjoint (mask mask' : Z) : Z.land mask mask' = 0 -> flag_test mask mask' = false.
Proof. intros Hdis. unfold flag_test. rewrite Hdis. reflexivity. Qed.

(** ** The conversion of the legacy socket lists *)

Section SocketLists.
Context `{InterfaceFlags}.

Lemma masks_not_zero :
  NODE_INTERFACE_SOCKET_INPUT <> 0 /\ NODE_INTERFACE_SOCKET_OUTPUT <> 0
  /\ NODE_INTERFACE_SOCKET_HIDE_VALUE <> 0 /\ NODE_INTERFACE_SOCKET_HIDE_IN_MODIFIER <> 0.
Proof.
  pose proof interface_masks_not_zero as Hnz.
  rewrite !Forall_cons in Hnz. tauto.
Qed.

Lemma mapM_deref_Some {A : Type} (l : list A) : mapM deref (Some <$> l) = Ok l.
Proof.
  induction l as [|x l IH]; [reflexivity|].
  cbn [fmap list_fmap mapM deref mbind result_bind].
  cbn [fmap list_fmap] in IH. rewrite IH. reflexivity.
Qed.

Lemma move_legacy_sockets_spec (in_out : eNodeSocketInOut) (offset : nat)
    (sockets : list bNodeSocket) :
  forall (index : nat) (pre post : list (option bNodeTreeInterfaceItem)),
    length pre = (offset + index)%nat ->
    move_legacy_sockets in_out offset index sockets
      (pre ++ replicate (length sockets) None ++ post)
    = (pre ++ (Some <$> ((fun s => (legacy_socket_move_to_interface s in_out).1) <$> sockets))
           ++ post,
       legacy_socket_moved_from <$> sockets).
Proof.
  induction sockets as [|s sockets IH]; intros index pre post Hlen.
  - reflexivity.
  - cbn [move_legacy_sockets length replicate].
    cbn [legacy_socket_move_to_interface].
    rewrite <- Hlen.
    rewrite (insert_app_r_alt pre _ (length pre)) by lia.
    rewrite Nat.sub_diag. cbn [app insert list_insert].
    specialize (IH (S index) (pre ++ [Some (legacy_socket_move_to_interface s in_out).1]) post).
    rewrite <- app_assoc in IH. cbn [app] in IH.
    cbn [legacy_socket_move_to_interface fst] in IH.
    rewrite IH by (rewrite length_app; simpl; lia).
    cbn [fmap list_fmap legacy_socket_move_to_interface fst].
    rewrite <- app_assoc. reflexivity.
Qed.

Lemma subtype_name_base (base : string) (suffixes : list string) (suffix : string) :
  (base, suffixes) ∈ socket_subtypes ->
  suffix ∈ suffixes ->
  legacy_socket_idname_to_socket_type (base +:+ suffix) = base.
Proof.
  unfold socket_subtypes. intros Hbase Hsuffix.
  repeat (apply elem_of_cons in Hbase as [Hbase | Hbase];
          [injection Hbase as -> ->;
           repeat (apply elem_of_cons in Hsuffix as [-> | Hsuffix]; [reflexivity|]);
           apply elem_of_nil in Hsuffix; contradiction|]).
  apply elem_of_nil in Hbase. contradiction.
Qed.

Lemma other_name_kept (idname : string) :
  idname ∉ subtype_names -> legacy_socket_idname_to_socket_type idname = idname.
Proof.
  intros Hnot. unfold legacy_socket_idname_to_socket_type, subtypes_map.
  cbn [lookup_subtype fst snd].
  repeat match goal with
         | |- context [String.eqb ?key idname] =>
             destruct (String.eqb_spec key idname) as [Heq | _];
             [ exfalso; apply Hnot; rewrite <- Heq;
               apply (bool_decide_eq_true_1 (_ ∈ _)); vm_compute; reflexivity |]
         end.
  reflexivity.
Qed.

(** C4: the root panel the conversion builds holds one item per legacy
    socket, the outputs in their order first and the inputs in their order
    after them; each item is a socket with the name, the identifier, the
    description, the default value, the attribute domain and the two hide
    flags of its legacy socket, the base type of the type name of the legacy
    socket, and the role of the list it comes from.  The base type of a
    subtype name, the name of a base type with a subtype suffix behind it, is
    the name of that base type; every other type name is its own base
    type. *)
Theorem socket_lists_to_interface (ntree : bNodeTree) :
  (exists ntree' : bNodeTree,
      versioning_convert_node_tree_socket_lists_to_interface ntree = Ok ntree'
      /\ items_array (root_panel (tree_interface ntree'))
         = ((fun s => (legacy_socket_move_to_interface s SOCK_OUT).1) <$> outputs_legacy ntree)
           ++ ((fun s => (legacy_socket_move_to_interface s SOCK_IN).1) <$> inputs_legacy ntree))
  /\ (forall (legacy_socket : bNodeSocket) (in_out : eNodeSocketInOut),
        exists new_socket : bNodeTreeInterfaceSocket,
          (legacy_socket_move_to_interface legacy_socket in_out).1
          = NODE_INTERFACE_SOCKET new_socket
          /\ name new_socket = Some (sock_name legacy_socket)
          /\ identifier new_socket = sock_identifier legacy_socket
          /\ description new_socket = Some (sock_description legacy_socket)
          /\ socket_type new_socket
             = legacy_socket_idname_to_socket_type (sock_idname legacy_socket)
          /\ socket_data new_socket = sock_default_value legacy_socket
          /\ attribute_domain new_socket = sock_attribute_domain legacy_socket
          /\ flag_test (flag new_socket) NODE_INTERFACE_SOCKET_HIDE_VALUE
             = flag_test (sock_flag legacy_socket) SOCK_HIDE_VALUE
          /\ flag_test (flag new_socket) NODE_INTERFACE_SOCKET_HIDE_IN_MODIFIER
             = flag_test (sock_flag legacy_socket) SOCK_HIDE_IN_MODIFIER
          /\ flag_test (flag new_socket) NODE_INTERFACE_SOCKET_INPUT
             = bool_decide (in_out = SOCK_IN)
          /\ flag_test (flag new_socket) NODE_INTERFACE_SOCKET_OUTPUT
             = bool_decide (in_out = SOCK_OUT))
  /\ (forall (base : string) (suffixes : list string) (suffix : string)
             (legacy_socket : bNodeSocket) (in_out : eNodeSocketInOut),
        (base, suffixes) ∈ socket_subtypes ->
        suffix ∈ suffixes ->
        sock_idname legacy_socket = base +:+ suffix ->
        item_socket_type (legacy_socket_move_to_interface legacy_socket in_out).1
        = Some base)
  /\ (forall (legacy_socket : bNodeSocket) (in_out : eNodeSocketInOut),
        sock_idname legacy_socket ∉ subtype_names ->
        item_socket_type (legacy_socket_move_to_interface legacy_socket in_out).1
        = Some (sock_idname legacy_socket)).
Proof.
  destruct masks_not_zero as (Hin & Hout & Hhv & Hhm).
  destruct interface_masks_disjoint as (Hio & Hiv & Him & Hov & Hom & Hvm).
  split; [|split; [|split]].
  3: { intros base suffixes suffix legacy_socket in_out Hbase Hsuffix Hidname.
       cbn [legacy_socket_move_to_interface fst item_socket_type socket_type].
       rewrite Hidname. f_equal. eapply subtype_name_base; eassumption. }
  3: { intros legacy_socket in_out Hother.
       cbn [legacy_socket_move_to_interface fst item_socket_type socket_type].
       f_equal. apply other_name_kept. exact Hother. }
  - unfold versioning_convert_node_tree_socket_lists_to_interface.
    rewrite Nat.add_comm, replicate_add.
    pose proof (move_legacy_sockets_spec SOCK_OUT 0 (outputs_legacy ntree) 0 []
                  (replicate (length (inputs_legacy ntree)) None) eq_refl) as Houtputs.
    cbn [app] in Houtputs. rewrite Houtputs.
    pose proof (move_legacy_sockets_spec SOCK_IN (length (outputs_legacy ntree))
                  (inputs_legacy ntree) 0
                  (Some <$> ((fun s => (legacy_socket_move_to_interface s SOCK_OUT).1)
                               <$> outputs_legacy ntree)) []) as Hinputs.
    rewrite !app_nil_r in Hinputs.
    rewrite Hinputs by (rewrite !length_fmap; lia).
    rewrite <- fmap_app, mapM_deref_Some.
    eexists. split; reflexivity.
  - intros legacy_socket in_out. eexists. split; [reflexivity|].
    cbn [name identifier description socket_type socket_data attribute_domain flag].
    repeat (split; [reflexivity|]).
    split; [|split; [|split]].
    + rewrite flag_test_set_other by (rewrite Z.land_comm; exact Hvm).
      apply flag_test_set_same. exact Hhv.
    + apply flag_test_set_same. exact Hhm.
    + rewrite flag_test_set_other by (rewrite Z.land_comm; exact Him).
      rewrite flag_test_set_other by (rewrite Z.land_comm; exact Hiv).
      destruct in_out; simpl.
      * apply flag_test_same. exact Hin.
      * apply flag_test_disjoint. rewrite Z.land_comm. exact Hio.
    + rewrite flag_test_set_other by (rewrite Z.land_comm; exact Hom).
      rewrite flag_test_set_other by (rewrite Z.land_comm; exact Hov).
      destruct in_out; simpl.
      * apply flag_test_disjoint. exact Hio.
      * apply flag_test_same. exact Hout.
Qed.

End SocketLists.

(** ** The split of a socket flagged input and output *)

(** The run of the code on a panel that holds a panel in front of the socket:
    the duplicate goes in front of the panel. *)
Example split_behind_panel :
  @split_socket_at sample_flags 8 panel_before_socket 1
  = Ok (9, Panel None 0
             [ NODE_INTERFACE_SOCKET (sample_socket "Value" "Socket_8" 1);
               NODE_INTERFACE_PANEL (Panel (Some "Panel"%string) 0 []);
               NODE_INTERFACE_SOCKET (sample_socket "Value" "Socket_7" 2) ]).
Proof. vm_compute. reflexivity. Qed.

Example split_before_panel :
  @split_socket_at sample_flags 8 socket_before_panel 0
  = Ok (9, Panel None 0
             [ NODE_INTERFACE_SOCKET (sample_socket "Value" "Socket_7" 2);
               NODE_INTERFACE_SOCKET (sample_socket "Value" "Socket_8" 1);
               NODE_INTERFACE_PANEL (Panel (Some "Panel"%string) 0 []) ]).
Proof. vm_compute. reflexivity. Qed.

(** The split is not always the one of the specification: the constraint on
    the position of the inserted item puts the duplicate in front of the first
    panel of the parent when a panel comes before the socket and the parent
    keeps its sockets above its panels; the duplicate is then not right after
    the original. *)
Lemma split_duplicate_not_adjacent :
  ~ (forall (flags : InterfaceFlags) (next_uid : Z) (parent : bNodeTreeInterfacePanel)
            (position : nat) (socket : bNodeTreeInterfaceSocket),
        items_array parent !! position = Some (NODE_INTERFACE_SOCKET socket) ->
        input_and_output socket ->
        exists (next_uid' : Z) (parent' : bNodeTreeInterfacePanel),
          split_socket_at next_uid parent position = Ok (next_uid', parent')
          /\ split_as_specified next_uid parent position socket parent').
Proof.
  intros Hclaim.
  destruct (Hclaim sample_flags 8 panel_before_socket 1%nat
              (sample_socket "Value" "Socket_7" 3) eq_refl)
    as (next_uid' & parent' & Hrun & original & duplicate & Hitems & _).
  - split; reflexivity.
  - rewrite split_behind_panel in Hrun. injection Hrun as _ <-.
    simpl in Hitems. discriminate Hitems.
Qed.

(** The run of the code on a socket whose identifier is the one the counter
    gives next: the two items have the same identifier. *)
Example split_identifier_collision :
  @split_socket_at sample_flags 8 colliding_socket 0
  = Ok (9, Panel None 0
             [ NODE_INTERFACE_SOCKET (sample_socket "Value" "Socket_8" 2);
               NODE_INTERFACE_SOCKET (sample_socket "Value" "Socket_8" 1) ]).
Proof. vm_compute. reflexivity. Qed.

(** C3, as the claim words it, fails on two counts.  The duplicate is not
    right after the original when a panel stands in front of the socket in a
    parent that keeps its sockets above its panels.  And where the duplicate
    is right after the original, in a parent without panels, the two
    identifiers are not distinct when the identifier of the original is the
    one the counter gives next: the code takes the identifier from the
    counter without looking at those in use. *)
Lemma split_not_as_specified :
  ~ (forall (flags : InterfaceFlags) (next_uid : Z) (parent : bNodeTreeInterfacePanel)
            (position : nat) (socket : bNodeTreeInterfaceSocket),
        items_array parent !! position = Some (NODE_INTERFACE_SOCKET socket) ->
        input_and_output socket ->
        exists (next_uid' : Z) (parent' : bNodeTreeInterfacePanel),
          split_socket_at next_uid parent position = Ok (next_uid', parent')
          /\ split_as_specified next_uid parent position socket parent')
  /\ ~ (forall (flags : InterfaceFlags) (next_uid : Z) (parent : bNodeTreeInterfacePanel)
              (position : nat) (socket : bNodeTreeInterfaceSocket),
          items_array parent !! position = Some (NODE_INTERFACE_SOCKET socket) ->
          input_and_output socket ->
          Forall (fun item => is_panel item = false) (items_array parent) ->
          exists (next_uid' : Z) (parent' : bNodeTreeInterfacePanel),
            split_socket_at next_uid parent position = Ok (next_uid', parent')
            /\ split_as_specified next_uid parent position socket parent').
Proof.
  split; [exact split_duplicate_not_adjacent|].
  intros Hclaim.
  destruct (Hclaim sample_flags 8 colliding_socket 0%nat
              (sample_socket "Value" "Socket_8" 3) eq_refl)
    as (next_uid' & parent' & Hrun & original & duplicate & _ & Horiginal & _ & _
        & Hduplicate & Hdistinct & _).
  - split; reflexivity.
  - repeat constructor.
  - apply Hdistinct. rewrite Horiginal, Hduplicate. reflexivity.
Qed.

Section SplitSocket.
Context `{InterfaceFlags}.

Lemma first_panel_up_to_spec (items : list bNodeTreeInterfaceItem) :
  forall (test_pos initial_pos pos : Z),
    first_panel_up_to items test_pos initial_pos pos
    = match first_panel (take (Z.to_nat (initial_pos + 1 - test_pos)) items) with
      | Some k => test_pos + Z.of_nat k
      | None => pos
      end.
Proof.
  induction items as [|item items IH]; intros test_pos initial_pos pos.
  - rewrite take_nil. reflexivity.
  - cbn [first_panel_up_to]. destruct (Z.leb_spec test_pos initial_pos) as [Hle|Hgt].
    + replace (Z.to_nat (initial_pos + 1 - test_pos))
        with (S (Z.to_nat (initial_pos + 1 - (test_pos + 1)))) by lia.
      cbn [take first_panel]. destruct (is_panel item).
      * lia.
      * rewrite IH.
        destruct (first_panel (take _ items)) as [k|]; cbn [fmap option_fmap option_map];
          [lia | reflexivity].
    + replace (Z.to_nat (initial_pos + 1 - test_pos)) with 0%nat by lia.
      reflexivity.
Qed.

Lemma first_panel_lt (items : list bNodeTreeInterfaceItem) (k : nat) :
  first_panel items = Some k -> (k < length items)%nat.
Proof.
  revert k. induction items as [|item items IH]; intros k; simpl; [discriminate|].
  destruct (is_panel item).
  - intros [= <-]. lia.
  - destruct (first_panel items) as [k'|]; simpl; [|discriminate].
    intros [= <-]. specialize (IH k' eq_refl). lia.
Qed.

Lemma first_panel_none (items : list bNodeTreeInterfaceItem) :
  Forall (fun item => is_panel item = false) items -> first_panel items = None.
Proof.
  induction 1 as [|item items Hitem Hitems IH]; [reflexivity|].
  simpl. rewrite Hitem, IH. reflexivity.
Qed.

Lemma first_panel_app_socket (items : list bNodeTreeInterfaceItem)
    (item : bNodeTreeInterfaceItem) (rest : list bNodeTreeInterfaceItem) :
  Forall (fun item => is_panel item = false) items ->
  is_panel item = false ->
  match first_panel (items ++ item :: rest) with
  | Some k => (S (length items) <= k)%nat
  | None => True
  end.
Proof.
  intros Hitems Hitem. induction Hitems as [|x items Hx Hitems IH]; simpl.
  - rewrite Hitem. destruct (first_panel rest); simpl; [lia | exact I].
  - rewrite Hx. destruct (first_panel (items ++ item :: rest)); simpl; [lia | exact I].
Qed.

Lemma duplicate_position_le (parent : bNodeTreeInterfacePanel) (position : nat) :
  (position < length (items_array parent))%nat ->
  (duplicate_position parent position <= S position)%nat.
Proof.
  intros Hlt. unfold duplicate_position.
  destruct (flag_test _ _); [lia|].
  destruct (first_panel _) as [k|] eqn:Hk; [|lia].
  apply first_panel_lt in Hk. rewrite length_take in Hk. lia.
Qed.

Lemma valid_insert_position (parent : bNodeTreeInterfacePanel) (position : nat)
    (socket : bNodeTreeInterfaceSocket) :
  (position < length (items_array parent))%nat ->
  Z.to_nat
    (Z.min (Z.max (version_nodes_find_valid_insert_position_for_item parent
                     (NODE_INTERFACE_SOCKET socket) (Z.of_nat position + 1)) 0)
           (Z.of_nat (length (items_array parent))))
  = duplicate_position parent position.
Proof.
  intros Hlt. pose proof (duplicate_position_le parent position Hlt) as Hle.
  unfold version_nodes_find_valid_insert_position_for_item, duplicate_position in *.
  destruct (flag_test _ _); cbn [negb is_panel]; [lia|].
  rewrite first_panel_up_to_spec.
  replace (Z.to_nat (Z.of_nat position + 1 + 1 - 0)) with (S (S position)) by lia.
  destruct (first_panel _) as [k|]; lia.
Qed.

Lemma insert_then_alter {A : Type} (f g : A -> A) (l : list A) (c : A) (i k : nat) :
  (i < length l)%nat ->
  (k <= S i)%nat ->
  alter g k (alter f (if (k <=? i)%nat then S i else i) (take k l ++ c :: drop k l))
  = take k (alter f i l) ++ g c :: drop k (alter f i l).
Proof.
  intros Hi Hk.
  assert (Hlen : length (take k l) = k) by (rewrite length_take; lia).
  destruct (Nat.leb_spec k i) as [Hle|Hgt].
  - rewrite (alter_app_r_alt f (take k l)) by lia.
    rewrite Hlen. replace (S i - k)%nat with (S (i - k)) by lia.
    cbn [alter list_alter].
    rewrite (alter_app_r_alt g (take k l)) by lia.
    rewrite Hlen, Nat.sub_diag. cbn [alter list_alter].
    rewrite take_alter_ge by lia. rewrite drop_alter_ge by lia. reflexivity.
  - assert (k = S i) as -> by lia.
    rewrite (alter_app_l f (take (S i) l)) by lia.
    rewrite (alter_app_r_alt g) by (rewrite length_alter; lia).
    rewrite length_alter, Hlen, Nat.sub_diag. cbn [alter list_alter].
    rewrite take_alter_lt by lia. rewrite drop_alter_lt by lia. reflexivity.
Qed.

Lemma split_adjacent {A : Type} (f : A -> A) (l : list A) (x c : A) (i : nat) :
  l !! i = Some x ->
  take (S i) (alter f i l) ++ c :: drop (S i) (alter f i l)
  = take i l ++ [f x; c] ++ drop (S i) l.
Proof.
  intros Hx.
  rewrite (take_S_r (alter f i l) i (f x)) by (rewrite list_lookup_alter_eq, Hx; reflexivity).
  rewrite take_alter_ge by lia. rewrite drop_alter_lt by lia.
  rewrite <- app_assoc. reflexivity.
Qed.

Lemma fmap_alter_absorb {A B : Type} (g : A -> B) (f : A -> A) (i : nat) (l : list A) :
  (forall x, g (f x) = g x) -> g <$> alter f i l = g <$> l.
Proof.
  intros Hgf. revert i. induction l as [|x l IH]; intros [|i]; csimpl; try reflexivity.
  - rewrite Hgf. reflexivity.
  - rewrite IH. reflexivity.
Qed.

(** C3, amended: a socket flagged input and output becomes two items of the
    same panel with the same name: the original keeps its identifier and is
    output only, and a duplicate that takes its identifier from the counter of
    the interface, which then advances, and is input only.  The duplicate is
    inserted right after the original, unless the panel keeps its sockets
    above its panels and holds a panel in front of the original: it is then
    inserted in front of the first panel.  In the first case the split is the
    one of the specification, two adjacent items with distinct identifiers,
    the duplicate right after the original, exactly when the identifier of the
    original is not the one the counter gives.  That is so when no
    identifier of the panel is one the counter has yet to give: the
    identifier of the duplicate is then new to the panel, and different from
    the one of the original, and as long as the counter does not wrap the
    panel is again without an identifier the counter has yet to give. *)
Theorem split_socket (next_uid : Z) (parent : bNodeTreeInterfacePanel) (position : nat)
    (socket : bNodeTreeInterfaceSocket)
    (Hitem : items_array parent !! position = Some (NODE_INTERFACE_SOCKET socket))
    (Hdual : input_and_output socket) :
  let original :=
    set_flag socket (Z.land (flag socket) (Z.lnot NODE_INTERFACE_SOCKET_INPUT)) in
  let duplicate :=
    set_flag (version_copy_socket socket socket ("Socket_" +:+ pretty next_uid))
      (Z.land (flag socket) (Z.lnot NODE_INTERFACE_SOCKET_OUTPUT)) in
  let items :=
    alter (fun _ => NODE_INTERFACE_SOCKET original) position (items_array parent) in
  let k := duplicate_position parent position in
  exists parent' : bNodeTreeInterfacePanel,
    split_socket_at next_uid parent position = Ok (int_wrap (next_uid + 1), parent')
    /\ panel_name parent' = panel_name parent
    /\ panel_flag parent' = panel_flag parent
    /\ items_array parent' = take k items ++ NODE_INTERFACE_SOCKET duplicate :: drop k items
    /\ output_only original
    /\ input_only duplicate
    /\ identifier original = identifier socket
    /\ name original = name socket
    /\ name duplicate = name socket
    /\ identifier duplicate = "Socket_" +:+ pretty next_uid
    /\ (flag_test (panel_flag parent) NODE_INTERFACE_PANEL_ALLOW_SOCKETS_AFTER_PANELS = true
        \/ Forall (fun item => is_panel item = false) (take position (items_array parent)) ->
        k = S position
        /\ (identifier socket <> "Socket_" +:+ pretty next_uid <->
            split_as_specified next_uid parent position socket parent'))
    /\ (identifiers_below next_uid (items_array parent) ->
        identifier original <> identifier duplicate
        /\ (Some (identifier duplicate) ∉ (item_identifier <$> items_array parent))
        /\ (- 2 ^ 31 <= next_uid < 2 ^ 31 - 1 ->
            identifiers_below (int_wrap (next_uid + 1)) (items_array parent'))).
Proof.
  intros original duplicate items k.
  destruct masks_not_zero as (Hin & Hout & _ & _).
  destruct interface_masks_disjoint as (Hio & _).
  destruct Hdual as [Hdual_in Hdual_out].
  pose proof (lookup_lt_Some _ _ _ Hitem) as Hlt.
  pose proof (duplicate_position_le parent position Hlt) as Hk.
  assert (Horiginal : output_only original).
  { split.
    - exact (flag_test_set_same (flag socket) _ false Hin).
    - rewrite <- Hdual_out.
      exact (flag_test_set_other (flag socket) _ _ false Hio). }
  assert (Hduplicate : input_only duplicate).
  { split.
    - rewrite <- Hdual_in. rewrite Z.land_comm in Hio.
      exact (flag_test_set_other (flag socket) _ _ false Hio).
    - exact (flag_test_set_same (flag socket) _ false Hout). }
  assert (Hitems : items
                   = alter (alter_socket
                              (fun s => set_flag s (Z.land (flag s)
                                                      (Z.lnot NODE_INTERFACE_SOCKET_INPUT))))
                       position (items_array parent)).
  { apply list_eq. intros i. unfold items.
    destruct (decide (i = position)) as [-> | Hne].
    - rewrite !list_lookup_alter_eq, Hitem. reflexivity.
    - rewrite !list_lookup_alter_ne by congruence. reflexivity. }
  exists (set_items_array parent
            (take k items ++ NODE_INTERFACE_SOCKET duplicate :: drop k items)).
  split.
  { unfold split_socket_at, version_node_group_split_socket.
    rewrite Hitem. cbn [deref mbind result_bind].
    unfold version_nodes_insert_item.
    rewrite (valid_insert_position parent position _ Hlt). fold k.
    cbn [items_array set_items_array panel_name panel_flag].
    rewrite (insert_then_alter _ _ _ _ position k Hlt Hk).
    rewrite <- Hitems. reflexivity. }
  split; [reflexivity|]. split; [reflexivity|]. split; [reflexivity|].
  split; [exact Horiginal|]. split; [exact Hduplicate|].
  split; [reflexivity|]. split; [reflexivity|]. split; [reflexivity|].
  split; [reflexivity|].
  split.
  2: { intros Hbelow.
       assert (Hnew : Some ("Socket_" +:+ pretty next_uid)
                      ∉ (item_identifier <$> items_array parent))
         by (apply Hbelow; lia).
       assert (Hold : Some (identifier socket) ∈ (item_identifier <$> items_array parent)).
       { apply list_elem_of_lookup. exists position.
         rewrite list_lookup_fmap, Hitem. reflexivity. }
       split; [|split; [exact Hnew|]].
       - cbn [original duplicate identifier set_flag version_copy_socket].
         intros Heq. apply Hnew. rewrite <- Heq. exact Hold.
       - intros Hrange.
         assert (Hwrap : int_wrap (next_uid + 1) = next_uid + 1)
           by (unfold int_wrap; rewrite Z.mod_small by lia; lia).
         rewrite Hwrap. intros n Hn.
         cbn [items_array set_items_array].
         assert (Hids : item_identifier <$> items = item_identifier <$> items_array parent).
         { rewrite Hitems. apply fmap_alter_absorb. intros [s | p]; reflexivity. }
         rewrite fmap_app, fmap_cons, fmap_take, fmap_drop, Hids.
         rewrite elem_of_app, elem_of_cons.
         intros [Hin' | [Heq | Hin']].
         + apply (Hbelow n); [lia|].
           rewrite <- (take_drop k (item_identifier <$> items_array parent)).
           apply elem_of_app. left. exact Hin'.
         + cbn [item_identifier duplicate identifier set_flag version_copy_socket] in Heq.
           injection Heq as Heq. apply (inj (String.append _)) in Heq.
           apply (inj pretty) in Heq. lia.
         + apply (Hbelow n); [lia|].
           rewrite <- (take_drop k (item_identifier <$> items_array parent)).
           apply elem_of_app. right. exact Hin'. }
  intros Hfree.
  assert (Hpos : k = S position).
  { unfold k, duplicate_position. destruct Hfree as [-> | Hsockets]; [reflexivity|].
    destruct (flag_test (panel_flag parent) _); [reflexivity|].
    rewrite <- (take_drop position (items_array parent)) at 1.
    rewrite (drop_S _ _ _ Hitem).
    rewrite take_app_ge by (rewrite length_take; lia).
    rewrite length_take, Nat.min_l by lia.
    replace (S (S position) - position)%nat with 2%nat by lia.
    cbn [take].
    pose proof (first_panel_app_socket (take position (items_array parent))
                  (NODE_INTERFACE_SOCKET socket)
                  (take 1 (drop (S position) (items_array parent))) Hsockets eq_refl)
      as Hfirst.
    destruct (first_panel _) as [k'|] eqn:Hk'; [|reflexivity].
    apply first_panel_lt in Hk'.
    rewrite length_take, Nat.min_l in Hfirst by lia.
    rewrite length_app, length_take, Nat.min_l in Hk' by lia.
    cbn [length] in Hk'.
    assert (length (take 1 (drop (S position) (items_array parent))) <= 1)%nat
      by (rewrite length_take; lia).
    lia. }
  split; [exact Hpos|].
  split.
  2: { intros (original' & duplicate' & _ & Horiginal' & _ & _ & Hduplicate' & Hdistinct & _).
       congruence. }
  intros Hfresh. exists original, duplicate.
  split.
  { cbn [items_array set_items_array]. rewrite Hpos, Hitems.
    rewrite (split_adjacent _ _ _ _ _ Hitem). reflexivity. }
  split; [reflexivity|]. split; [reflexivity|]. split; [reflexivity|].
  split; [reflexivity|].
  split; [cbn; congruence|].
  split; [exact Horiginal | exact Hduplicate].
Qed.

End SplitSocket.

Lemma split_socket_witness :
  exists parent' : bNodeTreeInterfacePanel,
    @split_socket_at sample_flags 8 socket_before_panel 0 = Ok (9, parent')
    /\ @split_as_specified sample_flags 8 socket_before_panel 0
         (sample_socket "Value" "Socket_7" 3) parent'
    /\ identifiers_below 8 (items_array socket_before_panel)
    /\ identifiers_below 9 (items_array parent').
Proof.
  assert (Hbelow : identifiers_below 8 (items_array socket_before_panel)).
  { intros n Hn Hin. cbn in Hin.
    apply elem_of_cons in Hin as [Heq | Hin].
    - injection Heq as Heq. change (pretty n = pretty 7) in Heq.
      apply (inj pretty) in Heq. lia.
    - apply elem_of_cons in Hin as [Heq | Hin]; [discriminate Heq|].
      apply elem_of_nil in Hin. exact Hin. }
  destruct (@split_socket sample_flags 8 socket_before_panel 0%nat
              (sample_socket "Value" "Socket_7" 3) eq_refl (conj eq_refl eq_refl))
    as (parent' & Hrun & _ & _ & _ & _ & _ & _ & _ & _ & _ & Hspec & Hcounter).
  exists parent'. split; [exact Hrun|]. split.
  - apply Hspec.
    + right. constructor.
    + vm_compute. discriminate.
  - split; [exact Hbelow|].
    destruct (Hcounter Hbelow) as (_ & _ & Hnext).
    apply Hnext. lia.
Defined.

(** ** The sort of the interface items *)

Section StableSort.
Context {A : Type} (rank : A -> nat).

Local Abbreviation comp := (rank_lt rank).
Local Abbreviation le := (rank_order rank).

Lemma stable_insert_perm (x : A) (l : list A) : stable_insert comp x l ≡ₚ x :: l.
Proof.
  induction l as [|y l IH]; [reflexivity|].
  simpl. destruct (comp y x); [|reflexivity].
  rewrite IH. apply Permutation_swap.
Qed.

Lemma stable_sort_perm (l : list A) : stable_sort comp l ≡ₚ l.
Proof.
  induction l as [|x l IH]; [reflexivity|].
  simpl. rewrite stable_insert_perm, IH. reflexivity.
Qed.

Lemma stable_insert_sorted (x : A) (l : list A) :
  StronglySorted le l -> StronglySorted le (stable_insert comp x l).
Proof.
  induction 1 as [|y l Hl IH Hy]; simpl.
  - repeat constructor.
  - unfold rank_lt at 1.
    destruct (Nat.ltb_spec (rank y) (rank x)) as [Hlt|Hge].
    + constructor; [exact IH|].
      rewrite stable_insert_perm. constructor; [unfold rank_order; lia | exact Hy].
    + constructor; [constructor; assumption|].
      constructor; [exact Hge|].
      eapply Forall_impl; [exact Hy|]. unfold rank_order. intros z Hz. lia.
Qed.

Lemma stable_sort_sorted (l : list A) : StronglySorted le (stable_sort comp l).
Proof.
  induction l as [|x l IH]; simpl; [constructor | apply stable_insert_sorted, IH].
Qed.

Lemma stable_insert_filter (k : nat) (x : A) (l : list A) :
  filter (fun a => rank a = k) (stable_insert comp x l)
  = filter (fun a => rank a = k) (x :: l).
Proof.
  induction l as [|y l IH]; [reflexivity|].
  simpl. unfold rank_lt at 1.
  destruct (Nat.ltb_spec (rank y) (rank x)) as [Hlt|Hge]; [|reflexivity].
  rewrite (filter_cons _ y), IH, !(filter_cons _ x), !(filter_cons _ y).
  repeat case_decide; try reflexivity; lia.
Qed.

Lemma stable_sort_filter (k : nat) (l : list A) :
  filter (fun a => rank a = k) (stable_sort comp l) = filter (fun a => rank a = k) l.
Proof.
  induction l as [|x l IH]; [reflexivity|].
  simpl. rewrite stable_insert_filter, !filter_cons, IH. reflexivity.
Qed.

Lemma stable_sort_sorted_id (l : list A) : StronglySorted le l -> stable_sort comp l = l.
Proof.
  induction 1 as [|x l Hl IH Hx]; [reflexivity|].
  simpl. rewrite IH. destruct Hx as [|y l Hy Hx]; [reflexivity|].
  simpl. unfold rank_lt at 1.
  destruct (Nat.ltb_spec (rank y) (rank x)) as [Hlt|Hge]; [|reflexivity].
  unfold rank_order in Hy. lia.
Qed.

(** The order and the stability determine the result: a list in order whose
    elements of each rank are those of [l], in the order of [l], is the list
    the model of [std::stable_sort] returns. *)
Lemma sorted_stable_unique (l l' : list A) :
  StronglySorted le l ->
  StronglySorted le l' ->
  (forall k, filter (fun a => rank a = k) l = filter (fun a => rank a = k) l') ->
  l = l'.
Proof.
  intros Hl. revert l'. induction Hl as [|x t Ht IH Hx]; intros l' Hl' Hfilter.
  - destruct l' as [|y t']; [reflexivity|].
    specialize (Hfilter (rank y)). rewrite filter_cons_True in Hfilter by reflexivity.
    discriminate Hfilter.
  - destruct Hl' as [|y t' Ht' Hy].
    + specialize (Hfilter (rank x)). rewrite filter_cons_True in Hfilter by reflexivity.
      discriminate Hfilter.
    + assert (Hxy : rank x = rank y).
      { apply Nat.le_antisymm.
        - unfold rank_order in *. assert (Hin : y ∈ x :: t).
          { eapply (proj1 (list_elem_of_filter (fun a => rank a = rank y) _ _)).
            rewrite (Hfilter (rank y)). rewrite filter_cons_True by reflexivity. left. }
          apply elem_of_cons in Hin as [-> | Hin]; [lia|].
          rewrite Forall_forall in Hx. exact (Hx y Hin).
        - unfold rank_order in *. assert (Hin : x ∈ y :: t').
          { eapply (proj1 (list_elem_of_filter (fun a => rank a = rank x) _ _)).
            rewrite <- (Hfilter (rank x)). rewrite filter_cons_True by reflexivity. left. }
          apply elem_of_cons in Hin as [-> | Hin]; [lia|].
          rewrite Forall_forall in Hy. exact (Hy x Hin). }
      pose proof (Hfilter (rank x)) as Hhead.
      rewrite filter_cons_True in Hhead by reflexivity.
      rewrite filter_cons_True in Hhead by (symmetry; exact Hxy).
      injection Hhead as -> Htail.
      f_equal. apply IH; [exact Ht'|].
      intros k. specialize (Hfilter k). rewrite !filter_cons in Hfilter.
      case_decide; [injection Hfilter as Hfilter|]; exact Hfilter.
Qed.

Lemma stable_sort_unique (l l' : list A) :
  StronglySorted le l' ->
  (forall k, filter (fun a => rank a = k) l' = filter (fun a => rank a = k) l) ->
  l' = stable_sort comp l.
Proof.
  intros Hsorted Hstable. apply sorted_stable_unique.
  - exact Hsorted.
  - apply stable_sort_sorted.
  - intros k. rewrite stable_sort_filter. apply Hstable.
Qed.

End StableSort.

Section SortSockets.
Context `{InterfaceFlags}.

Lemma item_compare_rank (a b : bNodeTreeInterfaceItem) :
  item_compare a b = (item_rank a <? item_rank b)%nat.
Proof.
  unfold item_compare, item_rank.
  destruct a as [sa|pa], b as [sb|pb]; simpl; try reflexivity.
  - destruct (is_output sa), (is_output sb); reflexivity.
  - destruct (is_output sa); reflexivity.
  - destruct (is_output sb); reflexivity.
Qed.

Lemma stable_sort_ext {A : Type} (f g : A -> A -> bool) (l : list A) :
  (forall a b, f a b = g a b) -> stable_sort f l = stable_sort g l.
Proof.
  intros Hfg. induction l as [|x l IH]; [reflexivity|].
  simpl. rewrite IH. generalize (stable_sort g l) as s. intros s.
  induction s as [|y s IHs]; [reflexivity|].
  simpl. rewrite Hfg, IHs. reflexivity.
Qed.

Lemma stable_sort_item_compare (items : list bNodeTreeInterfaceItem) :
  stable_sort item_compare items = stable_sort (rank_lt item_rank) items.
Proof. apply stable_sort_ext, item_compare_rank. Qed.

Lemma sort_sockets_unfold (fuel : nat) (panel : bNodeTreeInterfacePanel) :
  versioning_node_group_sort_sockets_recursive (S fuel) panel
  = items ← mapM (sort_child fuel) (stable_sort item_compare (items_array panel));
    Ok (set_items_array panel items).
Proof. reflexivity. Qed.

Lemma mapM_Ok {A B : Type} (f : A -> result B) (l : list A) (l' : list B) :
  Forall2 (fun x y => f x = Ok y) l l' -> mapM f l = Ok l'.
Proof.
  induction 1 as [|x y l l' Hxy Hl IH]; [reflexivity|].
  cbn [mapM mbind result_bind]. rewrite Hxy. cbn [mbind result_bind].
  rewrite IH. reflexivity.
Qed.

Lemma Forall_exists_Forall2 {A B : Type} (R : A -> B -> Prop) (l : list A) :
  Forall (fun x => exists y, R x y) l -> exists l', Forall2 R l l'.
Proof.
  induction 1 as [|x l [y Hxy] Hl [l' IH]].
  - exists []. constructor.
  - exists (y :: l'). constructor; assumption.
Qed.

Lemma panel_depth_child (name : option string) (flag : Z)
    (items : list bNodeTreeInterfaceItem) (child : bNodeTreeInterfacePanel) :
  NODE_INTERFACE_PANEL child ∈ items ->
  (panel_depth child < panel_depth (Panel name flag items))%nat.
Proof.
  intros Hin. cbn [panel_depth]. apply Nat.lt_succ_r.
  induction items as [|item items IH]; [inversion Hin|].
  cbn [foldr]. apply elem_of_cons in Hin as [<- | Hin].
  - lia.
  - specialize (IH Hin). lia.
Qed.

Lemma rank_sorted_Forall2 (R : bNodeTreeInterfaceItem -> bNodeTreeInterfaceItem -> Prop)
    (l l' : list bNodeTreeInterfaceItem) :
  (forall a b, R a b -> item_rank b = item_rank a) ->
  Forall2 R l l' ->
  StronglySorted rank_le l -> StronglySorted rank_le l'.
Proof.
  intros Hrank Hall. induction Hall as [|a b l l' Hab Hl IH]; intros Hsorted.
  - constructor.
  - inversion Hsorted as [|? ? Hsorted' Ha]; subst.
    constructor; [apply IH; exact Hsorted'|].
    clear -Hrank Hab Hl Ha. induction Hl as [|c d l l' Hcd Hl IH]; [constructor|].
    inversion Ha as [|? ? Hc Ha']; subst.
    constructor; [|apply IH; exact Ha'].
    unfold rank_le, rank_order in *. rewrite (Hrank _ _ Hab), (Hrank _ _ Hcd). exact Hc.
Qed.

Lemma rank_filter_Forall2 (R : bNodeTreeInterfaceItem -> bNodeTreeInterfaceItem -> Prop)
    (k : nat) (l l' : list bNodeTreeInterfaceItem) :
  (forall a b, R a b -> item_rank b = item_rank a) ->
  Forall2 R l l' ->
  Forall2 R (filter (fun item => item_rank item = k) l)
            (filter (fun item => item_rank item = k) l').
Proof.
  intros Hrank Hall. induction Hall as [|a b l l' Hab Hl IH]; [constructor|].
  rewrite !filter_cons. rewrite (Hrank _ _ Hab).
  case_decide; [constructor; assumption | exact IH].
Qed.

Lemma Forall2_same {A : Type} (R : A -> A -> Prop) (l : list A) :
  Forall (fun x => R x x) l -> Forall2 R l l.
Proof. induction 1; constructor; assumption. Qed.

(** C8: on a panel whose nesting the call stack can hold, the sort returns a
    panel in which, at every level, the sockets come before the panels and
    the sockets flagged as output before the other sockets; the panel holds
    the items it held, panel by panel, the items of a same kind in the order
    they had; and the sort of the panel it returns is that panel again. *)
Theorem sort_sockets_recursive (fuel : nat) (panel : bNodeTreeInterfacePanel)
    (Hfuel : (panel_depth panel <= fuel)%nat) :
  exists sorted : bNodeTreeInterfacePanel,
    versioning_node_group_sort_sockets_recursive fuel panel = Ok sorted
    /\ panel_sorted sorted
    /\ panel_rearranged panel sorted
    /\ versioning_node_group_sort_sockets_recursive fuel sorted = Ok sorted.
Proof.
  revert panel Hfuel.
  induction fuel as [|fuel IH]; intros panel Hdepth.
  - destruct panel. cbn [panel_depth] in Hdepth. lia.
  - destruct panel as [name flag items].
    assert (Hitems : Forall (fun item => exists item', sorted_to fuel item item')
                       (stable_sort item_compare items)).
    { rewrite stable_sort_item_compare, stable_sort_perm.
      apply Forall_forall. intros item Hin. destruct item as [socket|child].
      - exists (NODE_INTERFACE_SOCKET socket). unfold sorted_to.
        repeat split; try reflexivity; constructor.
      - pose proof (panel_depth_child name flag items child Hin) as Hchild.
        destruct (IH child ltac:(lia)) as (child' & Hrun & Hsorted & Hrearranged & Hagain).
        exists (NODE_INTERFACE_PANEL child'). unfold sorted_to.
        cbn [sort_child]. rewrite Hrun, Hagain. cbn [mbind result_bind].
        repeat split; try reflexivity; assumption. }
    apply Forall_exists_Forall2 in Hitems as [items' Hitems].
    assert (Hrank : forall a b, sorted_to fuel a b -> item_rank b = item_rank a).
    { intros a b (_ & Hab & _). exact Hab. }
    assert (Hsorted : StronglySorted rank_le items').
    { apply (rank_sorted_Forall2 _ _ _ Hrank Hitems).
      rewrite stable_sort_item_compare. apply (stable_sort_sorted item_rank). }
    exists (Panel name flag items').
    split; [|split; [|split]].
    + rewrite sort_sockets_unfold. cbn [items_array].
      rewrite (mapM_Ok _ _ items'); [reflexivity|].
      eapply Forall2_impl; [exact Hitems|]. intros a b (Hab & _). exact Hab.
    + constructor; [exact Hsorted|].
      apply (Forall2_Forall_r _ _ _ _ Hitems).
      apply Forall_forall. intros a _ b (_ & _ & Hb & _). exact Hb.
    + constructor. intros rank.
      rewrite <- (stable_sort_filter item_rank rank items).
      rewrite <- stable_sort_item_compare.
      eapply Forall2_impl; [exact (rank_filter_Forall2 _ rank _ _ Hrank Hitems)|].
      intros a b (_ & _ & _ & Hab & _). exact Hab.
    + rewrite sort_sockets_unfold. cbn [items_array].
      rewrite stable_sort_item_compare, (stable_sort_sorted_id item_rank _ Hsorted).
      rewrite (mapM_Ok _ _ items'); [reflexivity|].
      apply Forall2_same.
      apply (Forall2_Forall_r _ _ _ _ Hitems).
      apply Forall_forall. intros a _ b (_ & _ & _ & _ & Hb). exact Hb.
Qed.


End SortSockets.

Lemma sort_sockets_recursive_witness :
  (panel_depth unsorted_panel <= 2)%nat
  /\ exists sorted : bNodeTreeInterfacePanel,
       @versioning_node_group_sort_sockets_recursive sample_flags 2 unsorted_panel = Ok sorted
       /\ @versioning_node_group_sort_sockets_recursive sample_flags 2 sorted = Ok sorted.
Proof.
  split.
  - simpl. lia.
  - destruct (@sort_sockets_recursive sample_flags 2 unsorted_panel ltac:(simpl; lia))
      as (sorted & Hrun & _ & _ & Hagain).
    exists sorted. split; assumption.
Defined.

(** The outputs B and F, the inputs A and E, then the panel, itself sorted. *)
Example unsorted_panel_sorted :
  @versioning_node_group_sort_sockets_recursive sample_flags 2 unsorted_panel
  = Ok (Panel None 0
          [ NODE_INTERFACE_SOCKET (sample_socket "B" "Socket_1" 2);
            NODE_INTERFACE_SOCKET (sample_socket "F" "Socket_5" 2);
            NODE_INTERFACE_SOCKET (sample_socket "A" "Socket_0" 1);
            NODE_INTERFACE_SOCKET (sample_socket "E" "Socket_4" 1);
            NODE_INTERFACE_PANEL
              (Panel (Some "Panel"%string) 0
                 [ NODE_INTERFACE_SOCKET (sample_socket "D" "Socket_3" 2);
                   NODE_INTERFACE_SOCKET (sample_socket "C" "Socket_2" 1) ]) ]).
Proof. vm_compute. reflexivity. Qed.

(** The call stack has to hold the nesting. *)
Example unsorted_panel_needs_fuel :
  @versioning_node_group_sort_sockets_recursive sample_flags 1 unsorted_panel = OutOfFuel.
Proof. vm_compute. reflexivity. Qed.

(** Scenario 1 of the specification: the root holds B, then A. *)
Lemma socket_lists_to_interface_witness :
  (exists ntree' : bNodeTree,
      @versioning_convert_node_tree_socket_lists_to_interface sample_flags legacy_group
      = Ok ntree'
      /\ item_identifier <$> items_array (root_panel (tree_interface ntree'))
         = [Some "B"; Some "A"]%string)
  /\ (exists ntree' : bNodeTree,
        @versioning_convert_node_tree_socket_lists_to_interface sample_flags legacy_subtypes
        = Ok ntree'
        /\ item_identifier <$> items_array (root_panel (tree_interface ntree'))
           = [Some "Output_2"; Some "Output_3"; Some "Input_1"]%string
        /\ item_socket_type <$> items_array (root_panel (tree_interface ntree'))
           = [Some "NodeSocketVector"; Some "NodeSocketShader"; Some "NodeSocketFloat"]%string).
Proof.
  split.
  - destruct (@socket_lists_to_interface sample_flags legacy_group)
      as [(ntree' & Hrun & Hitems) _].
    exists ntree'. split; [exact Hrun|].
    rewrite Hitems. reflexivity.
  - destruct (@socket_lists_to_interface sample_flags legacy_subtypes)
      as ((ntree' & Hrun & Hitems) & _ & Hsubtype & Hother).
    exists ntree'. split; [exact Hrun|].
    rewrite Hitems. split; [reflexivity|].
    cbn [legacy_subtypes outputs_legacy inputs_legacy fmap list_fmap app].
    repeat f_equal;
      first
        [ apply (Hsubtype "NodeSocketVector"%string
                   ["Translation"; "Direction"; "Velocity"; "Acceleration"; "Euler";
                    "XYZ"]%string
                   "Direction"%string); [| |reflexivity];
          apply (bool_decide_eq_true_1 (_ ∈ _)); vm_compute; reflexivity
        | apply (Hsubtype "NodeSocketFloat"%string
                   ["Unsigned"; "Percentage"; "Factor"; "Angle"; "Time"; "TimeAbsolute";
                    "Distance"]%string
                   "Factor"%string); [| |reflexivity];
          apply (bool_decide_eq_true_1 (_ ∈ _)); vm_compute; reflexivity
        | apply Hother; apply (bool_decide_eq_false_1 (_ ∈ _)); vm_compute; reflexivity ].
Defined.

(** The items the conversion makes of A and B: an input and an output of the
    base type, with the default values of the legacy sockets. *)
Example legacy_group_converted :
  @blo_do_versions_400_socket_lists sample_flags (main_at 306 0) legacy_group
  = Ok {| nodes := [];
          links := [];
          inputs_legacy := [];
          outputs_legacy := [];
          tree_interface :=
            {| root_panel :=
                 Panel None 0
                   [ NODE_INTERFACE_SOCKET
                       {| name := Some "B"%string;
                          description := Some EmptyString;
                          socket_type := "NodeSocketFloat";
                          flag := 2;
                          attribute_domain := 0;
                          default_attribute_name := None;
                          identifier := "B";
                          socket_data := Some (bNodeSocketValueFloat F32.zero);
                          properties := None |};
                     NODE_INTERFACE_SOCKET
                       {| name := Some "A"%string;
                          description := Some EmptyString;
                          socket_type := "NodeSocketFloat";
                          flag := 1;
                          attribute_domain := 0;
                          default_attribute_name := None;
                          identifier := "A";
                          socket_data := Some (bNodeSocketValueFloat F32.half);
                          properties := None |} ];
               next_uid := 0 |} |}.
Proof. vm_compute. reflexivity. Qed.

Example subtype_to_base_type :
  legacy_socket_idname_to_socket_type "NodeSocketFloatFactor" = "NodeSocketFloat"%string
  /\ legacy_socket_idname_to_socket_type "NodeSocketGeometry" = "NodeSocketGeometry"%string.
Proof. split; reflexivity. Qed.

(** The block of [do_versions_after_linking_400] on a document stored at
    (402, 50): one warning, for the material with the node group, and the
    material with the driven alpha gets its math node; on a document stored at
    (402, 51) the block does nothing. *)
Example blend_method_block :
  match @do_versions_after_linking_400_blend_method sample_kernel (eevee_document 402 50) [] with
  | Ok (bmain, reports) =>
      reports = [report_non_trivial_alpha
                   (sample_material "MAGroup" group_surface MA_BM_CLIP F32.half)]
      /\ node_count <$> materials bmain = [Some 2%nat; Some 1%nat; Some 4%nat]
  | _ => False
  end
  /\ @do_versions_after_linking_400_blend_method sample_kernel (eevee_document 402 51) []
     = Ok (eevee_document 402 51, []).
Proof. vm_compute. repeat split. Qed.

(** * Further properties *)

(** ** [AlphaSource::add] and the result of the analysis *)

Section AnalysisResult.
Import AlphaSource.

(** X1: the result of [add] for every pair of states: complex as soon as an
    operand is complex, or one is semi-transparent and the other transparent;
    otherwise the first operand when it is transparent, the second one when
    the first is opaque.  The state does not depend on the order of the
    operands. *)
Theorem add_rule (a b : t) :
  add a b =
    match state a, state b with
    | ALPHA_COMPLEX_MIX, _ | _, ALPHA_COMPLEX_MIX => complex_alpha
    | ALPHA_SEMI_TRANSPARENT, ALPHA_OPAQUE => a
    | ALPHA_SEMI_TRANSPARENT, _ => complex_alpha
    | ALPHA_FULLY_TRANSPARENT, ALPHA_SEMI_TRANSPARENT => complex_alpha
    | ALPHA_FULLY_TRANSPARENT, _ => a
    | ALPHA_OPAQUE, _ => b
    end
  /\ state (add a b) = state (add b a).
Proof.
  unfold add, is_complex, is_semi_transparent, is_transparent.
  destruct a as [sa [] ia], b as [sb [] ib]; split; reflexivity.
Qed.

Lemma find_identifier_lookup (identifier : string) (socks : list bNodeSocket) :
  forall i k : nat,
    find_identifier identifier socks i = Some k ->
    (i <= k)%nat /\ is_Some (socks !! (k - i)%nat).
Proof.
  induction socks as [|sock socks IH]; intros i k Hfind; [discriminate|].
  simpl in Hfind. destruct (String.eqb _ _).
  - injection Hfind as <-. rewrite Nat.sub_diag. split; [lia | eexists; reflexivity].
  - apply IH in Hfind as [Hle Hsome]. split; [lia|].
    replace (k - i)%nat with (S (k - S i)) by lia. exact Hsome.
Qed.

Lemma nodeFindSocket_input (ntree : bNodeTree) (n : node_ptr) (node : bNode)
    (identifier : string) (p : socket_ptr) :
  nodes ntree !! n = Some node ->
  nodeFindSocket n node SOCK_IN identifier = Some p ->
  input_socket_of ntree p.
Proof.
  intros Hnode Hfind. unfold nodeFindSocket in Hfind.
  destruct (find_identifier _ _ _) as [i|] eqn:Hi; [|discriminate].
  injection Hfind as <-.
  apply find_identifier_lookup in Hi as [_ [sock Hsock]].
  rewrite Nat.sub_0_r in Hsock.
  split; [reflexivity|]. exists node, sock. split; assumption.
Qed.

Lemma alpha_source_wf_mix (ntree : bNodeTree) (a b : t) (p : socket_ptr) :
  input_socket_of ntree p -> alpha_source_wf ntree (mix a b (Some p)).
Proof.
  intros Hp. unfold alpha_source_wf, mix, is_complex, is_semi_transparent,
    is_fully_transparent, is_opaque, is_transparent.
  destruct (state a), (state b); simpl; try (split; reflexivity);
    try (intros q; discriminate); exists p; (split; [reflexivity | exact Hp]).
Qed.

Lemma alpha_source_wf_add (ntree : bNodeTree) (a b : t) :
  alpha_source_wf ntree a -> alpha_source_wf ntree b -> alpha_source_wf ntree (add a b).
Proof.
  intros Ha Hb. unfold add, is_complex, is_semi_transparent, is_transparent.
  unfold alpha_source_wf in Ha, Hb.
  destruct (state a) eqn:Ea, (state b) eqn:Eb; simpl;
    try (unfold alpha_source_wf; simpl; split; reflexivity);
    unfold alpha_source_wf; first [rewrite Ea; exact Ha | rewrite Eb; exact Hb].
Qed.

(** X2: whatever the tree, when the analysis returns a source, an opaque or
    complex source carries no socket and is not read inverted, a
    semi-transparent source carries a socket, and the socket a source carries
    is an input socket of a node of the tree: the caller can read and write
    its default value. *)
Theorem alpha_source_get_wf (fuel : nat) :
  forall (ntree : bNodeTree) (socket : option socket_ptr) (depth : Z) (a : t),
    versioning_eevee_alpha_source_get fuel ntree socket depth = Ok a ->
    alpha_source_wf ntree a.
Proof.
  induction fuel as [|fuel IH]; intros ntree socket depth a Hget; [discriminate|].
  cbn [versioning_eevee_alpha_source_get] in Hget.
  assert (Hopaque : alpha_source_wf ntree opaque) by (split; reflexivity).
  assert (Hcomplex : alpha_source_wf ntree complex_alpha) by (split; reflexivity).
  assert (Hsemi : forall n node identifier p inverted,
             nodeFindSocket n node SOCK_IN identifier = Some p ->
             nodes ntree !! n = Some node ->
             alpha_source_wf ntree (alpha_source (Some p) inverted)).
  { intros n node identifier p inverted Hp Hn. exists p.
    split; [reflexivity | eapply nodeFindSocket_input; eassumption]. }
  assert (Hfull : forall n node identifier p inverted,
             nodeFindSocket n node SOCK_IN identifier = Some p ->
             nodes ntree !! n = Some node ->
             alpha_source_wf ntree (fully_transparent (Some p) inverted)).
  { intros n node identifier p inverted Hp Hn q Hq. injection Hq as <-.
    eapply nodeFindSocket_input; eassumption. }
  revert Hget. unfold_bind.
  repeat first
    [ discriminate
    | match goal with
      | |- Ok _ = Ok _ -> _ => intros [= <-]
      | |- context [versioning_eevee_alpha_source_get fuel ntree ?s ?d] =>
          let E := fresh "E" in
          destruct (versioning_eevee_alpha_source_get fuel ntree s d) eqn:E;
          [ apply IH in E | | ]
      end
    | break_match ];
    try assumption;
    try (eapply Hsemi; eassumption);
    try (eapply Hfull; eassumption);
    try (apply alpha_source_wf_add; assumption);
    try (apply alpha_source_wf_mix;
         eapply nodeFindSocket_input; [|eassumption]; eassumption).
Qed.

End AnalysisResult.

Lemma alpha_source_get_wf_witness :
  versioning_eevee_alpha_source_get 102 textured_alpha (Some (SocketPtr 0 SOCK_IN 0)) 0
  = Ok (AlphaSource.alpha_source (Some (SocketPtr 1 SOCK_IN 1)) false)
  /\ alpha_source_wf textured_alpha
       (AlphaSource.alpha_source (Some (SocketPtr 1 SOCK_IN 1)) false).
Proof.
  split; [vm_compute; reflexivity|].
  apply (alpha_source_get_wf 102 textured_alpha (Some (SocketPtr 0 SOCK_IN 0)) 0).
  vm_compute. reflexivity.
Defined.

(** ** What [versioning_eevee_material_blend_mode_settings] keeps *)

Section BlendModeGraph.
Context `{Kernel}.
Import AlphaSource.









Lemma socket_at_write (ntree base : bNodeTree) (p : socket_ptr) (sock : bNodeSocket)
    (f : bNodeSocket -> bNodeSocket) :
  socket_at ntree p = Ok sock ->
  socket_at
    (set_nodes base
       (alter (set_node_socket (sp_in_out p) (sp_index p) f) (sp_node p) (nodes ntree))) p
  = Ok (f sock).
Proof.
  destruct p as [n in_out i].
  unfold socket_at, node_at. cbn [nodes set_nodes sp_node sp_in_out sp_index].
  unfold node_ptr in *. intros Hs.
  destruct (nodes ntree !! n) as [node|] eqn:Hn; [|discriminate].
  rewrite list_lookup_alter_eq, Hn.
  cbn [deref mbind result_bind fmap option_fmap option_map] in *.
  destruct in_out; cbn [set_node_socket node_sockets node_inputs node_outputs] in *;
    (destruct (_ !! i) as [sock'|] eqn:Hi; [|discriminate]);
    rewrite list_lookup_alter_eq, Hi; injection Hs as <-; reflexivity.
Qed.

Lemma remove_first_single (link : bNodeLink) (l : list bNodeLink) :
  NoDup (tosock <$> l) -> link ∈ l ->
  Forall (fun x => tosock x <> tosock link) (remove_first link l).
Proof.
  induction l as [|x l IH]; intros Hnodup Hin; [constructor|].
  rewrite fmap_cons in Hnodup. apply NoDup_cons in Hnodup as [Hx Hnodup].
  assert (Hrest : Forall (fun y => tosock y <> tosock x) l).
  { apply Forall_forall. intros y Hy Heq. apply Hx. rewrite <- Heq.
    apply list_elem_of_fmap. exists y. split; [reflexivity | exact Hy]. }
  simpl. case_bool_decide as Hxl.
  - subst x. exact Hrest.
  - apply elem_of_cons in Hin as [Heq | Hin]; [congruence|].
    constructor.
    + rewrite Forall_forall in Hrest. intros Heq. exact (Hrest link Hin (eq_sym Heq)).
    + apply IH; assumption.
Qed.

Lemma value_matches_type_cases (sock : bNodeSocket) :
  value_matches_type sock ->
  (sock_type sock = SOCK_RGBA
   /\ exists r g b a, sock_default_value sock = Some (bNodeSocketValueRGBA r g b a))
  \/ (sock_type sock <> SOCK_RGBA
      /\ exists v, sock_default_value sock = Some (bNodeSocketValueFloat v)).
Proof.
  unfold value_matches_type.
  destruct (sock_default_value sock) as [[v|r g b a|data]|]; intros Hm; try contradiction.
  - right. split; [exact Hm | exists v; reflexivity].
  - left. split; [exact Hm | exists r, g, b, a; reflexivity].
Qed.

(** X4: the surface of the tree is driven by a socket and the target is fully
    opaque (threshold 2.0).  Then the conversion returns true and adds no
    node; the link that arrived at the driving socket, if any, is taken out
    and the other links stay; the socket holds the opaque constant, 1 for an
    alpha socket and 0 for a transparency socket, as a colour (v, v, v, 1) in
    a colour socket; and when every socket had at most one incoming link, no
    link arrives at the driving socket any more. *)
Theorem blend_mode_settings_opaque_target (ntree : bNodeTree) (out : node_ptr)
    (output : bNode) (alpha : t) (alpha_socket : socket_ptr) (sock : bNodeSocket)
    (threshold : float32)
    (Hout : version_eevee_output_node_get ntree SH_NODE_OUTPUT_MATERIAL = Some out)
    (Hnode : nodes ntree !! out = Some output)
    (Halpha : versioning_eevee_alpha_source_get (alpha_source_fuel 0) ntree
                (nodeFindSocket out output SOCK_IN "Surface") 0 = Ok alpha)
    (Hcomplex : is_complex alpha = false)
    (Hsocket : socket alpha = Some alpha_socket)
    (Hsock : socket_at ntree alpha_socket = Ok sock)
    (Hshape : value_matches_type sock)
    (Hthreshold : F32.eqb threshold F32.two = true) :
  let value := if is_transparency alpha then F32.zero else F32.one in
  exists ntree' : bNodeTree,
    versioning_eevee_material_blend_mode_settings ntree threshold = Ok (true, ntree')
    /\ links ntree' =
         match socket_link ntree alpha_socket with
         | Some link => remove_first link (links ntree)
         | None => links ntree
         end
    /\ length (nodes ntree') = length (nodes ntree)
    /\ socket_at ntree' alpha_socket
       = Ok (set_default_value (written_value sock value) sock)
    /\ (single_links ntree -> socket_link ntree' alpha_socket = None).
Proof.
  intros value.
  set (base := match socket_link ntree alpha_socket with
               | Some link => nodeRemLink ntree link
               | None => ntree
               end).
  assert (Hbase : nodes base = nodes ntree) by (subst base; destruct (socket_link _ _); reflexivity).
  assert (Hsock' : socket_at base alpha_socket = Ok sock).
  { unfold socket_at, node_at in *. rewrite Hbase. exact Hsock. }
  assert (Hlinks : links base = match socket_link ntree alpha_socket with
                                | Some link => remove_first link (links ntree)
                                | None => links ntree
                                end).
  { subst base. destruct (socket_link _ _); reflexivity. }
  exists (set_nodes base
            (alter (set_node_socket (sp_in_out alpha_socket) (sp_index alpha_socket)
                      (set_default_value (written_value sock value)))
               (sp_node alpha_socket) (nodes ntree))).
  split; [|split; [|split; [|split]]].
  - unfold versioning_eevee_material_blend_mode_settings, node_at.
    rewrite Hout, Hnode. cbn [deref mbind result_bind]. rewrite Halpha.
    cbn [mbind result_bind]. rewrite Hcomplex, Hsocket, Hthreshold.
    fold base. cbv zeta. rewrite Hsock'. cbn [mbind result_bind].
    unfold written_value, write_rgba_value, write_float_value, update_node.
    rewrite Hsock'. cbn [mbind result_bind].
    unfold version_cycles_node_socket_rgba_value, version_cycles_node_socket_float_value.
    assert (Hn : exists node, node_at base (sp_node alpha_socket) = Ok node).
    { unfold socket_at in Hsock'. destruct (node_at base _) as [node| |]; try discriminate.
      exists node. reflexivity. }
    destruct Hn as [node Hn]. rewrite Hn. rewrite Hbase.
    destruct (value_matches_type_cases _ Hshape) as [[Hty (r & g & b & a & Hv)] | [Hty [v Hv]]].
    + rewrite (bool_decide_eq_true_2 _ Hty), Hv. reflexivity.
    + rewrite (bool_decide_eq_false_2 _ Hty), Hv. reflexivity.
  - exact Hlinks.
  - cbn [nodes set_nodes]. apply length_alter.
  - apply socket_at_write. exact Hsock.
  - intros Hsingle. unfold socket_link. cbn [links set_nodes]. rewrite Hlinks.
    destruct (socket_link ntree alpha_socket) as [link|] eqn:Hlink.
    + destruct (socket_link_tosock _ _ _ Hlink) as [Hto Hin].
      apply find_none_Forall. rewrite <- Hto.
      apply remove_first_single; assumption.
    + exact Hlink.
Qed.

(** X5: the surface of the tree is driven by a socket no link arrives at and
    the target is not fully opaque.  Then the conversion returns true, adds
    no node and leaves the links alone, and the socket holds the outcome of
    the comparison the math node would make, 1 when the level is above the
    threshold and 0 otherwise: so its value is 0 or 1.  The level is the value
    of a float socket, and for a colour socket the mean of the three colour
    channels, taken as 1 when their sum reaches 3. *)
Theorem blend_mode_settings_constant (ntree : bNodeTree) (out : node_ptr)
    (output : bNode) (alpha : t) (alpha_socket : socket_ptr) (sock : bNodeSocket)
    (threshold : float32)
    (Hout : version_eevee_output_node_get ntree SH_NODE_OUTPUT_MATERIAL = Some out)
    (Hnode : nodes ntree !! out = Some output)
    (Halpha : versioning_eevee_alpha_source_get (alpha_source_fuel 0) ntree
                (nodeFindSocket out output SOCK_IN "Surface") 0 = Ok alpha)
    (Hcomplex : is_complex alpha = false)
    (Hsocket : socket alpha = Some alpha_socket)
    (Hlink : socket_link ntree alpha_socket = None)
    (Hsock : socket_at ntree alpha_socket = Ok sock)
    (Hshape : value_matches_type sock)
    (Hthreshold : F32.eqb threshold F32.two = false) :
  exists (ntree' : bNodeTree) (level : float32),
    versioning_eevee_material_blend_mode_settings ntree threshold = Ok (true, ntree')
    /\ links ntree' = links ntree
    /\ length (nodes ntree') = length (nodes ntree)
    /\ match sock_default_value sock with
       | Some (bNodeSocketValueFloat v) => level = v
       | Some (bNodeSocketValueRGBA r g b _) =>
           level = if F32.geb (F32.add (F32.add r g) b) F32.three then F32.one
                   else F32.div (F32.add (F32.add r g) b) F32.three
       | _ => False
       end
    /\ socket_at ntree' alpha_socket
       = Ok (set_default_value
               (written_value sock
                  (F32.of_bool (F32.gtb level (math_threshold alpha threshold)))) sock)
    /\ (F32.of_bool (F32.gtb level (math_threshold alpha threshold)) = F32.zero
        \/ F32.of_bool (F32.gtb level (math_threshold alpha threshold)) = F32.one).
Proof.
  assert (Hn : exists node, node_at ntree (sp_node alpha_socket) = Ok node).
  { unfold socket_at in Hsock. destruct (node_at ntree _) as [node| |]; try discriminate.
    exists node. reflexivity. }
  destruct Hn as [node Hn].
  assert (Hrun : forall level,
    match sock_default_value sock with
    | Some (bNodeSocketValueFloat v) => level = v
    | Some (bNodeSocketValueRGBA r g b _) =>
        level = if F32.geb (F32.add (F32.add r g) b) F32.three then F32.one
                else F32.div (F32.add (F32.add r g) b) F32.three
    | _ => False
    end ->
    versioning_eevee_material_blend_mode_settings ntree threshold
    = Ok (true,
          set_nodes ntree
            (alter (set_node_socket (sp_in_out alpha_socket) (sp_index alpha_socket)
                      (set_default_value
                         (written_value sock
                            (F32.of_bool (F32.gtb level (math_threshold alpha threshold))))))
               (sp_node alpha_socket) (nodes ntree)))).
  { intros level Hlevel.
    unfold versioning_eevee_material_blend_mode_settings, node_at.
    rewrite Hout, Hnode. cbn [deref mbind result_bind]. rewrite Halpha.
    cbn [mbind result_bind]. rewrite Hcomplex, Hsocket, Hthreshold, Hlink, Hsock.
    cbn [mbind result_bind].
    unfold written_value, write_rgba_value, write_float_value, update_node, math_threshold.
    rewrite Hsock. cbn [mbind result_bind].
    unfold version_cycles_node_socket_rgba_value, version_cycles_node_socket_float_value.
    rewrite Hn.
    destruct (value_matches_type_cases _ Hshape) as [[Hty (r & g & b & a & Hv)] | [Hty [v Hv]]].
    - rewrite (bool_decide_eq_true_2 _ Hty), Hv in *. subst level.
      cbn [mbind result_bind]. destruct (is_transparency alpha); reflexivity.
    - rewrite (bool_decide_eq_false_2 _ Hty), Hv in *. subst level.
      cbn [mbind result_bind]. destruct (is_transparency alpha); reflexivity. }
  assert (Hlevel : exists level,
    match sock_default_value sock with
    | Some (bNodeSocketValueFloat v) => level = v
    | Some (bNodeSocketValueRGBA r g b _) =>
        level = if F32.geb (F32.add (F32.add r g) b) F32.three then F32.one
                else F32.div (F32.add (F32.add r g) b) F32.three
    | _ => False
    end).
  { destruct (value_matches_type_cases _ Hshape) as [[_ (r & g & b & a & Hv)] | [_ [v Hv]]];
      rewrite Hv; eexists; reflexivity. }
  destruct Hlevel as [level Hlevel].
  eexists _, level.
  split; [exact (Hrun level Hlevel)|].
  split; [reflexivity|].
  split; [cbn [nodes set_nodes]; apply length_alter|].
  split; [exact Hlevel|].
  split; [apply socket_at_write; exact Hsock|].
  destruct (F32.gtb level _); [right | left]; reflexivity.
Qed.

End BlendModeGraph.


Lemma blend_mode_settings_opaque_target_witness :
  exists ntree' : bNodeTree,
    @versioning_eevee_material_blend_mode_settings sample_kernel textured_alpha F32.two
    = Ok (true, ntree')
    /\ links ntree' = [link_between 1 0 0 0]
    /\ socket_at ntree' (SocketPtr 1 SOCK_IN 1) = Ok (float_socket "Alpha" F32.one)
    /\ socket_link ntree' (SocketPtr 1 SOCK_IN 1) = None.
Proof.
  destruct (@blend_mode_settings_opaque_target sample_kernel textured_alpha 0%nat
              output_material_node
              (AlphaSource.alpha_source (Some (SocketPtr 1 SOCK_IN 1)) false)
              (SocketPtr 1 SOCK_IN 1) (float_socket "Alpha" F32.one) F32.two)
    as (ntree' & Hrun & Hlinks & _ & Hsock & Hsingle).
  - reflexivity.
  - reflexivity.
  - vm_compute. reflexivity.
  - reflexivity.
  - reflexivity.
  - reflexivity.
  - simpl. discriminate.
  - vm_compute. reflexivity.
  - exists ntree'. split; [exact Hrun|]. split; [exact Hlinks|]. split; [exact Hsock|].
    apply Hsingle. unfold single_links. simpl.
    repeat (constructor; [rewrite ?elem_of_cons, ?elem_of_nil; intuition discriminate|]).
    constructor.
Defined.

Lemma blend_mode_settings_constant_witness :
  exists ntree' : bNodeTree,
    @versioning_eevee_material_blend_mode_settings sample_kernel
      (constant_alpha F32.half) F32.half = Ok (true, ntree')
    /\ links ntree' = links (constant_alpha F32.half)
    /\ socket_at ntree' (SocketPtr 1 SOCK_IN 1) = Ok (float_socket "Alpha" F32.zero).
Proof.
  destruct (@blend_mode_settings_constant sample_kernel (constant_alpha F32.half) 0%nat
              output_material_node
              (AlphaSource.alpha_source (Some (SocketPtr 1 SOCK_IN 1)) false)
              (SocketPtr 1 SOCK_IN 1) (float_socket "Alpha" F32.half) F32.half)
    as (ntree' & level & Hrun & Hlinks & _ & Hlevel & Hsock & _).
  - reflexivity.
  - reflexivity.
  - vm_compute. reflexivity.
  - reflexivity.
  - reflexivity.
  - reflexivity.
  - reflexivity.
  - simpl. discriminate.
  - vm_compute. reflexivity.
  - exists ntree'. split; [exact Hrun|]. split; [exact Hlinks|].
    simpl in Hlevel. subst level. exact Hsock.
Defined.

(** ** The loop over the materials *)

Section BlendMethodLoop.
Context `{Kernel}.

Lemma convert_blend_method_keeps (material material' : Material) (added : list Report) :
  convert_blend_method material = Ok (material', added) ->
  same_material_settings material material'
  /\ (length added <= 1)%nat
  /\ Forall (fun r => report_type r = RPT_WARNING) added
  /\ (blend_method material = MA_BM_HASHED \/ blend_method material = MA_BM_BLEND ->
      material' = material /\ added = []).
Proof.
  assert (Hsame : same_material_settings material material)
    by (repeat split; auto).
  assert (Hset : forall ntree ntree', nodetree material = Some ntree ->
                   same_material_settings material (set_nodetree material ntree')).
  { intros ntree ntree' Hnt. repeat split; try reflexivity; intros _.
    - rewrite Hnt. eexists; reflexivity.
    - eexists; reflexivity. }
  unfold convert_blend_method.
  destruct (nodetree material) as [ntree|] eqn:Hnt.
  2: { intros [= <- <-]. repeat split; auto. }
  destruct (negb (use_nodes material)).
  { intros [= <- <-]. repeat split; auto. }
  destruct (bool_decide (blend_method material = MA_BM_HASHED)
            || bool_decide (blend_method material = MA_BM_BLEND)) eqn:Hcompatible.
  { intros [= <- <-]. repeat split; auto. }
  apply orb_false_iff in Hcompatible as [Hh Hb].
  apply bool_decide_eq_false in Hh. apply bool_decide_eq_false in Hb.
  assert (Hno : blend_method material = MA_BM_HASHED \/ blend_method material = MA_BM_BLEND ->
                forall (m : Material) (l : list Report), m = material /\ l = [])
    by (intros [Hm | Hm]; contradiction).
  match goal with |- context [if ?c then _ else _] => destruct c end.
  { intros [= <- <-]. split; [exact Hsame|]. split; [simpl; lia|].
    split; [repeat constructor | intros Hm; apply Hno, Hm]. }
  unfold mbind, result_bind.
  destruct (versioning_eevee_material_blend_mode_settings ntree _)
    as [[converted ntree']| |]; try discriminate.
  destruct converted; cbn [negb]; intros [= <- <-].
  - split; [exact (Hset _ _ eq_refl)|]. split; [simpl; lia|].
    split; [constructor | intros Hm; apply Hno, Hm].
  - split; [exact (Hset _ _ eq_refl)|]. split; [simpl; lia|].
    split; [repeat constructor | intros Hm; apply Hno, Hm].
Qed.

(** X6: when the block that converts the blend methods returns, the document
    has the same version tag, the same scenes and as many materials, each with
    the name and the blend settings it had: only node trees change, and a
    material in HASHED or BLEND mode is left as it was.  The reports given
    are kept and followed by at most one new report per material, each of
    them a warning.  On a document stored at (402, 51) or later nothing
    changes. *)
Theorem blend_method_block_keeps (bmain bmain' : Main) (reports reports' : list Report)
    (Hblock : do_versions_after_linking_400_blend_method bmain reports
              = Ok (bmain', reports')) :
  versionfile bmain' = versionfile bmain
  /\ subversionfile bmain' = subversionfile bmain
  /\ scenes bmain' = scenes bmain
  /\ Forall2 (fun material material' =>
                same_material_settings material material'
                /\ (blend_method material = MA_BM_HASHED
                    \/ blend_method material = MA_BM_BLEND -> material' = material))
       (materials bmain) (materials bmain')
  /\ (exists added : list Report,
        reports' = reports ++ added
        /\ (length added <= length (materials bmain))%nat
        /\ Forall (fun r => report_type r = RPT_WARNING) added)
  /\ (MAIN_VERSION_FILE_ATLEAST bmain 402 51 = true -> bmain' = bmain /\ reports' = reports).
Proof.
  assert (Hloop : forall (l l' : list Material) (rs rs' : list Report),
    convert_blend_methods l rs = Ok (l', rs') ->
    Forall2 (fun material material' =>
               same_material_settings material material'
               /\ (blend_method material = MA_BM_HASHED
                   \/ blend_method material = MA_BM_BLEND -> material' = material)) l l'
    /\ exists added, rs' = rs ++ added /\ (length added <= length l)%nat
                     /\ Forall (fun r => report_type r = RPT_WARNING) added).
  { induction l as [|material l IH]; intros l' rs rs' Hrun.
    - injection Hrun as <- <-. split; [constructor|].
      exists []. rewrite app_nil_r. repeat split; [simpl; lia | constructor].
    - cbn [convert_blend_methods] in Hrun. unfold mbind, result_bind in Hrun.
      destruct (convert_blend_method material) as [[material' added]| |] eqn:Hone;
        try discriminate.
      destruct (convert_blend_methods l (rs ++ added)) as [[rest rs'']| |] eqn:Hrest;
        try discriminate.
      injection Hrun as <- <-.
      apply convert_blend_method_keeps in Hone as (Hsame & Hlen & Hwarn & Hskip).
      apply IH in Hrest as (Hall & added' & -> & Hlen' & Hwarn').
      split.
      + constructor; [|exact Hall]. split; [exact Hsame|]. intros Hm. apply Hskip, Hm.
      + exists (added ++ added'). rewrite app_assoc. split; [reflexivity|].
        split; [rewrite length_app; simpl; lia | apply Forall_app; split; assumption]. }
  assert (Hsame : Forall2 (fun material material' =>
               same_material_settings material material'
               /\ (blend_method material = MA_BM_HASHED
                   \/ blend_method material = MA_BM_BLEND -> material' = material))
            (materials bmain) (materials bmain)).
  { apply Forall_Forall2_diag, Forall_forall. intros material _. repeat split; auto. }
  assert (Hnone : exists added : list Report,
             reports = reports ++ added /\ (length added <= length (materials bmain))%nat
             /\ Forall (fun r => report_type r = RPT_WARNING) added).
  { exists []. rewrite app_nil_r. repeat split; [simpl; lia | constructor]. }
  unfold do_versions_after_linking_400_blend_method in Hblock.
  destruct (MAIN_VERSION_FILE_ATLEAST bmain 402 51) eqn:Hver; cbn [negb] in Hblock.
  { injection Hblock as <- <-. repeat split; auto. }
  destruct (match head (scenes bmain) with
            | Some scene => String.eqb (r_engine scene) RE_engine_id_BLENDER_EEVEE
            | None => false
            end).
  2: { injection Hblock as <- <-. repeat split; auto; discriminate. }
  unfold mbind, result_bind in Hblock.
  destruct (convert_blend_methods (materials bmain) reports) as [[l' rs']| |] eqn:Hrun;
    try discriminate.
  injection Hblock as <- <-.
  apply Hloop in Hrun as [Hall Hreports].
  repeat split; try reflexivity; try assumption; discriminate.
Qed.

End BlendMethodLoop.

Lemma blend_method_block_keeps_witness :
  exists (bmain' : Main) (reports' : list Report),
    @do_versions_after_linking_400_blend_method sample_kernel (eevee_document 402 50) []
    = Ok (bmain', reports')
    /\ (id_name <$> materials bmain') = ["MAGroup"; "MAGlass"; "MALeaf"]%string
    /\ (length reports' <= 3)%nat.
Proof.
  eexists _, _.
  assert (Hblock : @do_versions_after_linking_400_blend_method sample_kernel
                     (eevee_document 402 50) [] = Ok (_, _))
    by (vm_compute; reflexivity).
  split; [exact Hblock|].
  destruct (@blend_method_block_keeps sample_kernel _ _ _ _ Hblock)
    as (_ & _ & _ & Hall & (added & Hreports & Hlen & _) & _).
  split; [reflexivity|].
  rewrite Hreports. exact Hlen.
Defined.

(** ** The version guards, across a whole pass *)

Lemma blocks_run_from_nil (bmain : Main) (gs : list guard) :
  Forall (fun g => guard_holds bmain g = false) gs ->
  forall i : nat, blocks_run_from bmain i gs = [].
Proof.
  induction 1 as [|g gs Hg Hgs IH]; intros i; [reflexivity|].
  simpl. rewrite Hg. apply IH.
Qed.

Lemma guard_off (bmain : Main) (g : guard) :
  tag_le (guard_tag g) (stored_tag bmain) -> guard_holds bmain g = false.
Proof.
  intros Hle. apply not_true_iff_false. rewrite guard_holds_spec.
  unfold tag_le, tag_lt in *.
  destruct g as [ver subver | ver0 subver0 ver subver]; simpl in *; lia.
Qed.

(** X7: for a document stored at (402, 55) or later, the tag of the last
    guarded block of the file, the guard of no block of [blo_do_versions_400]
    and of no block of [do_versions_after_linking_400] holds: none of the
    guarded bodies runs.  What the two functions do outside the guards, and in
    the [else] branch of the guard at (400, 20), is not in question here. *)
Theorem no_block_runs_at_latest (bmain : Main)
    (Hlatest : tag_le (402, 55) (stored_tag bmain)) :
  blocks_run bmain blo_do_versions_400_guards = []
  /\ blocks_run bmain do_versions_after_linking_400_guards = [].
Proof.
  assert (Hoff : forall g, tag_le (guard_tag g) (402, 55) -> guard_holds bmain g = false).
  { intros g Hg. apply guard_off. unfold tag_le in *.
    destruct (guard_tag g) as [ver subver], (stored_tag bmain) as [ver' subver'].
    simpl in *. lia. }
  split; apply blocks_run_from_nil.
  - repeat (constructor; [apply Hoff; unfold tag_le; simpl; lia|]). constructor.
  - repeat (constructor; [apply Hoff; unfold tag_le; simpl; lia|]). constructor.
Qed.

Lemma no_block_runs_at_latest_witness :
  blocks_run (main_at 402 55) blo_do_versions_400_guards = []
  /\ blocks_run (main_at 403 0) do_versions_after_linking_400_guards = [].
Proof.
  split.
  - apply (no_block_runs_at_latest (main_at 402 55)). right. simpl. lia.
  - apply (no_block_runs_at_latest (main_at 403 0)). left. simpl. lia.
Defined.

(** X8: the blocks are cumulative.  Of two documents, the one stored at the
    lower tag runs every block the other one runs, the block at (401, 11)
    apart, whose guard also asks for a tag of (400, 20) at least. *)
Theorem older_document_runs_more (older newer : Main) (gs : list guard) (i : nat)
    (Hgs : gs = blo_do_versions_400_guards \/ gs = do_versions_after_linking_400_guards)
    (Hle : tag_le (stored_tag older) (stored_tag newer))
    (Hrun : i ∈ blocks_run newer gs)
    (Hblock : gs !! i <> Some (AtLeastAndNotAtLeast 400 20 401 11)) :
  i ∈ blocks_run older gs.
Proof.
  assert (Hshape : Forall (fun g => (exists ver subver, g = NotAtLeast ver subver)
                                    \/ g = AtLeastAndNotAtLeast 400 20 401 11) gs).
  { destruct Hgs as [-> | ->];
      repeat (constructor;
              [first [left; eexists _, _; reflexivity | right; reflexivity]|]);
      constructor. }
  unfold blocks_run in *. rewrite blocks_run_from_spec in *.
  destruct Hrun as (g & Hg & Hi & Hholds).
  exists g. split; [exact Hg|]. split; [exact Hi|].
  rewrite Nat.sub_0_r in Hg. rewrite Forall_lookup in Hshape.
  destruct (Hshape i g Hg) as [(ver & subver & ->) | ->]; [|congruence].
  rewrite guard_holds_spec in *. unfold tag_le, tag_lt in *.
  destruct (stored_tag older), (stored_tag newer). simpl in *. lia.
Qed.

Lemma older_document_runs_more_witness :
  14%nat ∈ blocks_run (main_at 306 0) blo_do_versions_400_guards.
Proof.
  apply (older_document_runs_more (main_at 306 0) (main_at 400 19)
           blo_do_versions_400_guards 14 (or_introl eq_refl)).
  - left. simpl. lia.
  - apply (bool_decide_eq_true_1 (14%nat ∈ _)). vm_compute. reflexivity.
  - simpl. discriminate.
Defined.

(** ** The correction of the socket types *)

(** Induction over a panel and the panels below it. *)
Lemma panel_nested_ind (P : bNodeTreeInterfacePanel -> Prop) :
  (forall (name : option string) (flag : Z) (items : list bNodeTreeInterfaceItem),
      Forall (fun item => match item with
                          | NODE_INTERFACE_PANEL child => P child
                          | NODE_INTERFACE_SOCKET _ => True
                          end) items ->
      P (Panel name flag items)) ->
  forall panel : bNodeTreeInterfacePanel, P panel.
Proof.
  intros Hstep.
  exact (fix go (panel : bNodeTreeInterfacePanel) : P panel :=
           match panel with
           | Panel name flag items =>
               Hstep name flag items
                 ((fix go_items (l : list bNodeTreeInterfaceItem) :
                     Forall (fun item => match item with
                                         | NODE_INTERFACE_PANEL child => P child
                                         | NODE_INTERFACE_SOCKET _ => True
                                         end) l :=
                     match l with
                     | [] => List.Forall_nil _
                     | item :: l' =>
                         @List.Forall_cons _ _ item l'
                           (match item as i
                                  return match i with
                                         | NODE_INTERFACE_PANEL child => P child
                                         | NODE_INTERFACE_SOCKET _ => True
                                         end
                            with
                            | NODE_INTERFACE_PANEL child => go child
                            | NODE_INTERFACE_SOCKET _ => I
                            end)
                           (go_items l')
                     end) items)
           end).
Qed.

Lemma legacy_socket_idname_result (idname : string) :
  legacy_socket_idname_to_socket_type idname = idname
  \/ legacy_socket_idname_to_socket_type idname = "NodeSocketFloat"%string
  \/ legacy_socket_idname_to_socket_type idname = "NodeSocketInt"%string
  \/ legacy_socket_idname_to_socket_type idname = "NodeSocketVector"%string.
Proof.
  unfold legacy_socket_idname_to_socket_type, subtypes_map.
  cbn [lookup_subtype fst snd].
  repeat match goal with
         | |- context [String.eqb ?key idname] =>
             destruct (String.eqb key idname);
             [ right;
               first [ left; reflexivity
                     | right; left; reflexivity
                     | right; right; reflexivity ] |]
         end.
  left. reflexivity.
Qed.

Lemma legacy_socket_idname_idempotent (idname : string) :
  legacy_socket_idname_to_socket_type (legacy_socket_idname_to_socket_type idname)
  = legacy_socket_idname_to_socket_type idname.
Proof.
  destruct (legacy_socket_idname_result idname) as [Heq | [Heq | [Heq | Heq]]];
    rewrite !Heq; reflexivity.
Qed.

Lemma fix_socket_subtype_idname_fixed (socket : bNodeTreeInterfaceSocket) :
  legacy_socket_idname_to_socket_type (socket_type socket) = socket_type socket ->
  fix_socket_subtype_idname (NODE_INTERFACE_SOCKET socket) = NODE_INTERFACE_SOCKET socket.
Proof.
  intros Heq. unfold fix_socket_subtype_idname. rewrite Heq, String.eqb_refl. reflexivity.
Qed.

Lemma fix_socket_subtype_idname_socket (socket : bNodeTreeInterfaceSocket) :
  fix_socket_subtype_idname (NODE_INTERFACE_SOCKET socket)
  = NODE_INTERFACE_SOCKET
      (set_socket_type socket (legacy_socket_idname_to_socket_type (socket_type socket))).
Proof.
  unfold fix_socket_subtype_idname.
  destruct (String.eqb_spec (socket_type socket)
              (legacy_socket_idname_to_socket_type (socket_type socket))) as [Heq | Hne];
    cbn [negb]; [|reflexivity].
  rewrite <- Heq. destruct socket; reflexivity.
Qed.

(** X9: the correction of the socket types maps a type name to a name it
    leaves alone, so that running the pass twice is running it once; the
    pass changes nothing but type names, in the panels below the root too,
    and after it every socket of the interface has a type name the correction
    leaves alone.  The nodes, the links and the legacy lists of the tree are
    untouched. *)
Theorem fix_socket_subtype_idnames_idempotent :
  (forall idname : string,
      legacy_socket_idname_to_socket_type (legacy_socket_idname_to_socket_type idname)
      = legacy_socket_idname_to_socket_type idname)
  /\ (forall ntree : bNodeTree,
        let fixed := versioning_fix_socket_subtype_idnames ntree in
        versioning_fix_socket_subtype_idnames fixed = fixed
        /\ without_socket_type (NODE_INTERFACE_PANEL (root_panel (tree_interface fixed)))
           = without_socket_type (NODE_INTERFACE_PANEL (root_panel (tree_interface ntree)))
        /\ Forall (fun type => legacy_socket_idname_to_socket_type type = type)
             (socket_types (NODE_INTERFACE_PANEL (root_panel (tree_interface fixed))))
        /\ nodes fixed = nodes ntree
        /\ links fixed = links ntree
        /\ inputs_legacy fixed = inputs_legacy ntree
        /\ outputs_legacy fixed = outputs_legacy ntree
        /\ next_uid (tree_interface fixed) = next_uid (tree_interface ntree)).
Proof.
  split; [exact legacy_socket_idname_idempotent|].
  intros ntree fixed.
  assert (Hpanel : forall panel : bNodeTreeInterfacePanel,
    fix_socket_subtype_idnames_panel (fix_socket_subtype_idnames_panel panel)
    = fix_socket_subtype_idnames_panel panel
    /\ without_socket_type (NODE_INTERFACE_PANEL (fix_socket_subtype_idnames_panel panel))
       = without_socket_type (NODE_INTERFACE_PANEL panel)
    /\ Forall (fun type => legacy_socket_idname_to_socket_type type = type)
         (socket_types (NODE_INTERFACE_PANEL (fix_socket_subtype_idnames_panel panel)))).
  { apply panel_nested_ind. intros name flag items Hitems.
    cbn [fix_socket_subtype_idnames_panel without_socket_type socket_types].
    rewrite !map_map.
    induction Hitems as [|item items Hitem Hitems IH].
    - repeat split. constructor.
    - destruct IH as (IH1 & IH2 & IH3).
      injection IH1 as IH1. injection IH2 as IH2.
      cbn [map concat]. rewrite IH1, IH2.
      destruct item as [socket | child].
      + rewrite !fix_socket_subtype_idname_socket.
        cbn [without_socket_type socket_types set_socket_type socket_type].
        rewrite legacy_socket_idname_idempotent.
        split; [reflexivity|]. split; [reflexivity|].
        constructor; [apply legacy_socket_idname_idempotent | exact IH3].
      + destruct Hitem as (Hc1 & Hc2 & Hc3).
        rewrite Hc1.
        split; [reflexivity|]. split.
        * f_equal. f_equal. f_equal. exact Hc2.
        * apply Forall_app. split; [exact Hc3 | exact IH3]. }
  destruct (Hpanel (root_panel (tree_interface ntree))) as (H1 & H2 & H3).
  split.
  { unfold fixed, versioning_fix_socket_subtype_idnames.
    cbn [nodes links inputs_legacy outputs_legacy tree_interface root_panel next_uid].
    rewrite H1. reflexivity. }
  split; [exact H2|]. split; [exact H3|].
  repeat split.
Qed.

(** The pass on an interface with a subtype name below a panel. *)
Example subtype_interface_fixed :
  socket_types
    (NODE_INTERFACE_PANEL
       (root_panel (tree_interface (versioning_fix_socket_subtype_idnames subtype_interface))))
  = ["NodeSocketInt"; "NodeSocketFloat"]%string.
Proof. reflexivity. Qed.

(** ** The conversion of the legacy socket lists, further *)

Section SocketListsBlock.
Context `{InterfaceFlags}.

Lemma convert_socket_lists_run (ntree : bNodeTree) :
  versioning_convert_node_tree_socket_lists_to_interface ntree
  = Ok {| nodes := nodes ntree;
          links := links ntree;
          inputs_legacy := legacy_socket_moved_from <$> inputs_legacy ntree;
          outputs_legacy := legacy_socket_moved_from <$> outputs_legacy ntree;
          tree_interface :=
            {| root_panel :=
                 set_items_array (root_panel (tree_interface ntree))
                   (((fun s => (legacy_socket_move_to_interface s SOCK_OUT).1)
                       <$> outputs_legacy ntree)
                    ++ ((fun s => (legacy_socket_move_to_interface s SOCK_IN).1)
                          <$> inputs_legacy ntree));
               next_uid := next_uid (tree_interface ntree) |} |}.
Proof.
  unfold versioning_convert_node_tree_socket_lists_to_interface.
  rewrite Nat.add_comm, replicate_add.
  pose proof (move_legacy_sockets_spec SOCK_OUT 0 (outputs_legacy ntree) 0 []
                (replicate (length (inputs_legacy ntree)) None) eq_refl) as Houtputs.
  cbn [app] in Houtputs. rewrite Houtputs.
  pose proof (move_legacy_sockets_spec SOCK_IN (length (outputs_legacy ntree))
                (inputs_legacy ntree) 0
                (Some <$> ((fun s => (legacy_socket_move_to_interface s SOCK_OUT).1)
                             <$> outputs_legacy ntree)) []) as Hinputs.
  rewrite !app_nil_r in Hinputs.
  rewrite Hinputs by (rewrite !length_fmap; lia).
  rewrite <- fmap_app, mapM_deref_Some. reflexivity.
Qed.

(** X10: the conversion of the socket lists always returns, and it moves the
    data rather than copying them: the default value, the properties and the
    default attribute name of every legacy socket are owned by the item made
    from it, and the legacy socket, which stays in its list with its name
    and identifier, owns none of them any more.  The nodes, the links and the
    counter of identifiers of the tree are as they were, and so are the name
    and the flags of the root panel. *)
Theorem socket_lists_data_moved (ntree : bNodeTree) :
  exists ntree' : bNodeTree,
    versioning_convert_node_tree_socket_lists_to_interface ntree = Ok ntree'
    /\ (item_data <$> items_array (root_panel (tree_interface ntree')))
       = (legacy_socket_data <$> (outputs_legacy ntree ++ inputs_legacy ntree))
    /\ Forall owns_no_data (outputs_legacy ntree' ++ inputs_legacy ntree')
    /\ (sock_identifier <$> inputs_legacy ntree') = (sock_identifier <$> inputs_legacy ntree)
    /\ (sock_identifier <$> outputs_legacy ntree') = (sock_identifier <$> outputs_legacy ntree)
    /\ nodes ntree' = nodes ntree
    /\ links ntree' = links ntree
    /\ next_uid (tree_interface ntree') = next_uid (tree_interface ntree)
    /\ panel_name (root_panel (tree_interface ntree'))
       = panel_name (root_panel (tree_interface ntree))
    /\ panel_flag (root_panel (tree_interface ntree'))
       = panel_flag (root_panel (tree_interface ntree)).
Proof.
  eexists. split; [apply convert_socket_lists_run|].
  cbn [nodes links inputs_legacy outputs_legacy tree_interface root_panel next_uid].
  destruct (root_panel (tree_interface ntree)) as [name flag items].
  cbn [set_items_array items_array panel_name panel_flag].
  split.
  { rewrite !fmap_app, <- !list_fmap_compose. reflexivity. }
  split.
  { rewrite <- fmap_app. apply Forall_fmap, Forall_forall.
    intros legacy_socket _. repeat split. }
  split; [rewrite <- list_fmap_compose; reflexivity|].
  split; [rewrite <- list_fmap_compose; reflexivity|].
  repeat split.
Qed.

(** X11: the block of the socket lists always returns a tree without legacy
    sockets, with the nodes and the links it had.  For a document stored at
    (400, 20) or later the interface is left as it was: the legacy lists a
    newer writer added are dropped unused.  For an older document the root
    panel holds one socket item per legacy socket and nothing else, whatever
    it held before, and the type names of the items are names the later
    correction pass leaves alone: that pass would change nothing. *)
Theorem socket_lists_block (bmain : Main) (ntree : bNodeTree) :
  exists ntree' : bNodeTree,
    blo_do_versions_400_socket_lists bmain ntree = Ok ntree'
    /\ inputs_legacy ntree' = []
    /\ outputs_legacy ntree' = []
    /\ nodes ntree' = nodes ntree
    /\ links ntree' = links ntree
    /\ (MAIN_VERSION_FILE_ATLEAST bmain 400 20 = true ->
        tree_interface ntree' = tree_interface ntree)
    /\ (MAIN_VERSION_FILE_ATLEAST bmain 400 20 = false ->
        length (items_array (root_panel (tree_interface ntree')))
        = (length (outputs_legacy ntree) + length (inputs_legacy ntree))%nat
        /\ Forall (fun item => is_panel item = false)
             (items_array (root_panel (tree_interface ntree')))
        /\ versioning_fix_socket_subtype_idnames ntree' = ntree').
Proof.
  unfold blo_do_versions_400_socket_lists.
  destruct (MAIN_VERSION_FILE_ATLEAST bmain 400 20); cbn [negb].
  { eexists. split; [reflexivity|]. repeat split; discriminate. }
  rewrite convert_socket_lists_run. cbn [mbind result_bind].
  eexists. split; [reflexivity|].
  unfold free_legacy_sockets.
  cbn [nodes links inputs_legacy outputs_legacy tree_interface root_panel next_uid].
  do 4 (split; [reflexivity|]). split; [discriminate|]. intros _.
  destruct (root_panel (tree_interface ntree)) as [name flag items].
  cbn [set_items_array items_array].
  split; [rewrite length_app, !length_fmap; reflexivity|].
  split.
  { apply Forall_app. split; apply Forall_fmap, Forall_forall; intros s _; reflexivity. }
  unfold versioning_fix_socket_subtype_idnames.
  cbn [nodes links inputs_legacy outputs_legacy tree_interface root_panel next_uid
       fix_socket_subtype_idnames_panel].
  cbn [set_items_array fix_socket_subtype_idnames_panel].
  do 3 f_equal.
  rewrite <- (map_id (_ ++ _)) at 2.
  apply map_ext_Forall. apply Forall_app.
  split; apply Forall_fmap, Forall_forall; intros s _;
    cbn [legacy_socket_move_to_interface fst compose];
    apply fix_socket_subtype_idname_fixed; cbn [socket_type];
    apply legacy_socket_idname_idempotent.
Qed.

End SocketListsBlock.

(** A group stored with a subtype and with an item in its root panel: before
    (400, 20) the item gives way to the two converted sockets, of the base
    type; from (400, 20) on the root panel is kept and the lists are dropped. *)
Example legacy_subtype_group_block :
  match @blo_do_versions_400_socket_lists sample_flags (main_at 400 19) legacy_subtype_group with
  | Ok ntree' =>
      item_identifier <$> items_array (root_panel (tree_interface ntree'))
      = [Some "Output_2"; Some "Input_1"]%string
      /\ concat (socket_types <$> items_array (root_panel (tree_interface ntree')))
         = ["NodeSocketFloat"; "NodeSocketFloat"]%string
      /\ inputs_legacy ntree' = [] /\ outputs_legacy ntree' = []
  | _ => False
  end
  /\ @blo_do_versions_400_socket_lists sample_flags (main_at 400 20) legacy_subtype_group
     = Ok (free_legacy_sockets legacy_subtype_group).
Proof. vm_compute. repeat split. Qed.

(** ** The insertion of an item *)

Section InsertItem.
Context `{InterfaceFlags}.

Lemma sockets_above_panels_app (sockets rest : list bNodeTreeInterfaceItem) :
  Forall (fun item => is_panel item = false) sockets ->
  sockets_above_panels (sockets ++ rest) = sockets_above_panels rest.
Proof.
  induction 1 as [|item sockets Hitem Hsockets IH]; [reflexivity|].
  cbn [app sockets_above_panels]. rewrite Hitem. exact IH.
Qed.

Lemma forallb_is_panel_layout (items : list bNodeTreeInterfaceItem) :
  forallb is_panel items = true -> sockets_above_panels items = true.
Proof.
  destruct items as [|item items]; [reflexivity|].
  cbn [forallb sockets_above_panels]. intros Hall.
  apply andb_true_iff in Hall as [-> Hall]. exact Hall.
Qed.

Lemma forallb_is_panel_drop (items : list bNodeTreeInterfaceItem) (n : nat) :
  forallb is_panel items = true -> forallb is_panel (drop n items) = true.
Proof.
  revert n. induction items as [|item items IH]; intros [|n] Hall; try exact Hall.
  cbn [drop]. cbn [forallb] in Hall. apply andb_true_iff in Hall as [_ Hall].
  apply IH. exact Hall.
Qed.

Lemma sockets_above_panels_drop (items : list bNodeTreeInterfaceItem) (n : nat) :
  sockets_above_panels items = true -> sockets_above_panels (drop n items) = true.
Proof.
  revert n. induction items as [|item items IH]; intros [|n] Hlayout; try exact Hlayout.
  cbn [drop]. cbn [sockets_above_panels] in Hlayout.
  destruct (is_panel item); [|apply IH; exact Hlayout].
  apply forallb_is_panel_layout, forallb_is_panel_drop. exact Hlayout.
Qed.

Lemma first_panel_take (items : list bNodeTreeInterfaceItem) (k : nat) :
  first_panel items = Some k -> Forall (fun item => is_panel item = false) (take k items).
Proof.
  revert k. induction items as [|item items IH]; intros k; [discriminate|].
  cbn [first_panel]. destruct (is_panel item) eqn:Hitem.
  - intros [= <-]. constructor.
  - destruct (first_panel items) as [k'|]; [|discriminate].
    intros [= <-]. cbn [take]. constructor; [exact Hitem | apply IH; reflexivity].
Qed.

Lemma first_panel_all_sockets (items : list bNodeTreeInterfaceItem) :
  first_panel items = None -> Forall (fun item => is_panel item = false) items.
Proof.
  induction items as [|item items IH]; [constructor|].
  cbn [first_panel]. destruct (is_panel item) eqn:Hitem; [discriminate|].
  destruct (first_panel items); [discriminate|].
  intros _. constructor; [exact Hitem | apply IH; reflexivity].
Qed.

(** The sockets in front of the position a socket is inserted at, in a panel
    that keeps its sockets above its panels. *)
Lemma insert_position_sockets (parent : bNodeTreeInterfacePanel)
    (socket : bNodeTreeInterfaceSocket) (position : Z) :
  flag_test (panel_flag parent) NODE_INTERFACE_PANEL_ALLOW_SOCKETS_AFTER_PANELS = false ->
  Forall (fun item => is_panel item = false)
    (take (clamp_position
             (version_nodes_find_valid_insert_position_for_item parent
                (NODE_INTERFACE_SOCKET socket) position)
             (items_array parent))
       (items_array parent)).
Proof.
  intros Hflag. unfold version_nodes_find_valid_insert_position_for_item, clamp_position.
  rewrite Hflag. cbn [negb is_panel].
  rewrite first_panel_up_to_spec.
  destruct (first_panel _) as [k|] eqn:Hk.
  - pose proof (first_panel_lt _ _ Hk) as Hlt. rewrite length_take in Hlt.
    apply first_panel_take in Hk.
    rewrite take_take in Hk.
    replace (Z.to_nat (Z.min (Z.max (0 + Z.of_nat k) 0) (Z.of_nat (length (items_array parent)))))
      with k by lia.
    replace (k `min` Z.to_nat (position + 1 - 0))%nat with k in Hk by lia.
    exact Hk.
  - apply first_panel_all_sockets in Hk.
    set (n := Z.to_nat (Z.min (Z.max position 0) (Z.of_nat (length (items_array parent))))).
    replace (take n (items_array parent))
      with (take n (take (Z.to_nat (position + 1 - 0)) (items_array parent)))
      by (rewrite take_take; f_equal; lia).
    apply Forall_take. exact Hk.
Qed.

(** X12: [version_nodes_insert_item] loses and reorders nothing: taking the
    new socket out again at the position it went to gives the items the panel
    had, and the name and the flags of the panel are kept.  The position
    is the one asked for, brought into range, when the panel allows sockets
    after panels.  When it does not, no panel stands in front of the new
    socket, and a panel whose sockets were above its panels still has its
    sockets above its panels. *)
Theorem insert_item_keeps_layout (parent : bNodeTreeInterfacePanel)
    (socket : bNodeTreeInterfaceSocket) (position : Z) :
  let parent' := (version_nodes_insert_item parent socket position).1 in
  let k := (version_nodes_insert_item parent socket position).2 in
  items_array parent' !! k = Some (NODE_INTERFACE_SOCKET socket)
  /\ delete k (items_array parent') = items_array parent
  /\ (k <= length (items_array parent))%nat
  /\ panel_name parent' = panel_name parent
  /\ panel_flag parent' = panel_flag parent
  /\ (flag_test (panel_flag parent) NODE_INTERFACE_PANEL_ALLOW_SOCKETS_AFTER_PANELS = true ->
      k = clamp_position position (items_array parent))
  /\ (flag_test (panel_flag parent) NODE_INTERFACE_PANEL_ALLOW_SOCKETS_AFTER_PANELS = false ->
      Forall (fun item => is_panel item = false) (take k (items_array parent'))
      /\ (sockets_above_panels (items_array parent) = true ->
          sockets_above_panels (items_array parent') = true)).
Proof.
  intros parent' k.
  assert (Hk : k = clamp_position
                     (version_nodes_find_valid_insert_position_for_item parent
                        (NODE_INTERFACE_SOCKET socket) position) (items_array parent))
    by reflexivity.
  assert (Hle : (k <= length (items_array parent))%nat)
    by (rewrite Hk; unfold clamp_position; lia).
  assert (Hitems : items_array parent'
                   = take k (items_array parent)
                     ++ NODE_INTERFACE_SOCKET socket :: drop k (items_array parent)).
  { unfold parent', version_nodes_insert_item. destruct parent. reflexivity. }
  assert (Hlen : length (take k (items_array parent)) = k) by (rewrite length_take; lia).
  split.
  { rewrite Hitems. rewrite <- Hlen at 1. apply list_lookup_middle. reflexivity. }
  split.
  { rewrite Hitems. rewrite <- Hlen at 1. rewrite delete_middle. apply take_drop. }
  split; [exact Hle|].
  split; [unfold parent', version_nodes_insert_item; destruct parent; reflexivity|].
  split; [unfold parent', version_nodes_insert_item; destruct parent; reflexivity|].
  split.
  { intros Hflag. rewrite Hk.
    unfold version_nodes_find_valid_insert_position_for_item. rewrite Hflag. reflexivity. }
  intros Hflag.
  pose proof (insert_position_sockets parent socket position Hflag) as Hsockets.
  rewrite <- Hk in Hsockets.
  split.
  { rewrite Hitems. rewrite take_app_le by lia. rewrite take_take.
    replace (k `min` k)%nat with k by lia. exact Hsockets. }
  intros Hlayout. rewrite Hitems.
  rewrite sockets_above_panels_app by exact Hsockets.
  cbn [sockets_above_panels is_panel].
  apply sockets_above_panels_drop. exact Hlayout.
Qed.

Lemma sockets_above_panels_split (items : list bNodeTreeInterfaceItem) :
  sockets_above_panels items = true ->
  exists sockets panels : list bNodeTreeInterfaceItem,
    items = sockets ++ panels
    /\ Forall (fun item => is_panel item = false) sockets
    /\ Forall (fun item => is_panel item = true) panels.
Proof.
  induction items as [|item items IH]; intros Hlayout.
  - exists [], []. repeat split; constructor.
  - cbn [sockets_above_panels] in Hlayout. destruct (is_panel item) eqn:Hitem.
    + exists [], (item :: items). split; [reflexivity|]. split; [constructor|].
      constructor; [exact Hitem|]. apply Forall_forall. intros x Hx.
      rewrite forallb_forall in Hlayout. apply Hlayout, list_elem_of_In, Hx.
    + destruct (IH Hlayout) as (sockets & panels & -> & Hsockets & Hpanels).
      exists (item :: sockets), panels. split; [reflexivity|].
      split; [constructor; assumption | exact Hpanels].
Qed.

Lemma sockets_above_panels_panels (panels : list bNodeTreeInterfaceItem) :
  Forall (fun item => is_panel item = true) panels -> sockets_above_panels panels = true.
Proof.
  destruct 1 as [|item panels Hitem Hpanels]; [reflexivity|].
  cbn [sockets_above_panels]. rewrite Hitem.
  apply forallb_forall. intros x Hx. rewrite Forall_forall in Hpanels.
  apply Hpanels, list_elem_of_In, Hx.
Qed.

Lemma socket_count_app (sockets panels : list bNodeTreeInterfaceItem) :
  Forall (fun item => is_panel item = false) sockets ->
  Forall (fun item => is_panel item = true) panels ->
  socket_count (sockets ++ panels) = length sockets.
Proof.
  intros Hsockets Hpanels. unfold socket_count. rewrite filter_app, length_app.
  assert (Hs : filter (fun item => is_panel item = false) sockets = sockets).
  { induction Hsockets as [|x l Hx Hl IH]; [reflexivity|].
    rewrite filter_cons_True by exact Hx. rewrite IH. reflexivity. }
  assert (Hp : filter (fun item => is_panel item = false) panels = []).
  { induction Hpanels as [|x l Hx Hl IH]; [reflexivity|].
    rewrite filter_cons_False by (rewrite Hx; discriminate). exact IH. }
  rewrite Hs, Hp. simpl. lia.
Qed.

Lemma first_panel_app (sockets rest : list bNodeTreeInterfaceItem) :
  Forall (fun item => is_panel item = false) sockets ->
  first_panel (sockets ++ rest) = (fun k => (length sockets + k)%nat) <$> first_panel rest.
Proof.
  induction 1 as [|item sockets Hitem Hsockets IH].
  - cbn [app length]. destruct (first_panel rest); reflexivity.
  - cbn [app first_panel]. rewrite Hitem, IH.
    destruct (first_panel rest); reflexivity.
Qed.

Lemma last_socket_down_to_panels (panels rest : list bNodeTreeInterfaceItem) :
  Forall (fun item => is_panel item = true) panels ->
  forall (test_pos initial_pos pos : Z),
    last_socket_down_to (panels ++ rest) test_pos initial_pos pos
    = if initial_pos <=? test_pos - Z.of_nat (length panels) + 1
      then last_socket_down_to rest (test_pos - Z.of_nat (length panels)) initial_pos pos
      else pos.
Proof.
  induction 1 as [|item panels Hitem Hpanels IH]; intros test_pos initial_pos pos.
  - cbn [app length]. rewrite Z.sub_0_r.
    destruct (Z.leb_spec initial_pos (test_pos + 1)) as [Hle | Hgt]; [reflexivity|].
    destruct rest as [|x rest]; [reflexivity|].
    cbn [last_socket_down_to]. destruct (Z.geb_spec test_pos initial_pos); [lia | reflexivity].
  - cbn [app last_socket_down_to length]. rewrite Hitem. cbn [negb].
    destruct (Z.geb_spec test_pos initial_pos) as [Hge | Hlt].
    + rewrite IH.
      replace (test_pos - 1 - Z.of_nat (length panels))
        with (test_pos - Z.of_nat (S (length panels))) by lia.
      reflexivity.
    + destruct (Z.leb_spec initial_pos (test_pos - Z.of_nat (S (length panels)) + 1));
        [lia | reflexivity].
Qed.

(** X13: in a panel that keeps its sockets above its panels and whose items
    are laid out so, the position [version_nodes_find_valid_insert_position_for_item]
    gives is, once brought into range, the valid position closest to the one
    asked for: for a socket the smaller of the position asked for and the
    number of sockets, for a panel the greater of the two.  Putting the item in
    there keeps the sockets above the panels. *)
Theorem closest_valid_position (parent : bNodeTreeInterfacePanel)
    (item : bNodeTreeInterfaceItem) (position : Z)
    (Hflag : flag_test (panel_flag parent) NODE_INTERFACE_PANEL_ALLOW_SOCKETS_AFTER_PANELS
             = false)
    (Hlayout : sockets_above_panels (items_array parent) = true) :
  let k := clamp_position
             (version_nodes_find_valid_insert_position_for_item parent item position)
             (items_array parent) in
  k = (if is_panel item
       then Nat.max (socket_count (items_array parent))
                    (clamp_position position (items_array parent))
       else Nat.min (socket_count (items_array parent))
                    (clamp_position position (items_array parent)))
  /\ sockets_above_panels (put_in (items_array parent) k item) = true.
Proof.
  intros k.
  destruct (sockets_above_panels_split _ Hlayout) as (sockets & panels & Hitems & Hs & Hp).
  assert (Hk : k = if is_panel item
                   then Nat.max (length sockets) (clamp_position position (items_array parent))
                   else Nat.min (length sockets) (clamp_position position (items_array parent))).
  { unfold k, version_nodes_find_valid_insert_position_for_item, clamp_position.
    rewrite Hflag. cbn [negb]. rewrite Hitems.
    destruct (is_panel item).
    - rewrite reverse_app.
      rewrite (last_socket_down_to_panels (reverse panels) (reverse sockets))
        by (apply Forall_reverse; exact Hp).
      rewrite length_reverse, length_app.
      destruct (Z.leb_spec position
                  (Z.of_nat (length sockets + length panels) - 1
                   - Z.of_nat (length panels) + 1)) as [Hle | Hgt]; [|lia].
      destruct Hs as [|x sockets Hx Hs].
      + rewrite reverse_nil. cbn [last_socket_down_to length] in *. lia.
      + rewrite reverse_cons.
        destruct (reverse sockets ++ [x]) as [|y rest] eqn:Hrev.
        { apply (f_equal length) in Hrev. rewrite length_app in Hrev. simpl in Hrev. lia. }
        assert (Hy : is_panel y = false).
        { assert (Hall : Forall (fun item => is_panel item = false) (reverse sockets ++ [x]))
            by (apply Forall_app; split; [apply Forall_reverse; exact Hs | repeat constructor; exact Hx]).
          rewrite Hrev in Hall. apply Forall_cons_1 in Hall as [Hy _]. exact Hy. }
        cbn [last_socket_down_to length]. rewrite Hy. cbn [negb].
        destruct (Z.geb_spec (Z.of_nat (S (length sockets) + length panels) - 1
                              - Z.of_nat (length panels)) position); lia.
    - rewrite first_panel_up_to_spec.
      rewrite take_app, (first_panel_app (take _ sockets))
        by (apply Forall_take; exact Hs).
      rewrite length_take, length_app.
      destruct Hp as [|x panels Hx Hp].
      + rewrite take_nil. cbn [first_panel fmap option_fmap option_map length]. lia.
      + destruct (Z.to_nat (position + 1 - 0) - length sockets)%nat as [|n] eqn:Hn.
        * cbn [take first_panel fmap option_fmap option_map length]. lia.
        * cbn [take first_panel]. rewrite Hx.
          cbn [fmap option_fmap option_map length]. lia. }
  rewrite Hitems in *. rewrite socket_count_app by assumption.
  split; [exact Hk|].
  unfold put_in. destruct (is_panel item) eqn:Hitem.
  - assert (Hge : (length sockets <= k)%nat) by lia.
    rewrite take_app_ge, drop_app_ge by exact Hge.
    rewrite <- app_assoc. rewrite sockets_above_panels_app by exact Hs.
    apply sockets_above_panels_panels.
    apply Forall_app. split; [apply Forall_take; exact Hp|].
    constructor; [exact Hitem | apply Forall_drop; exact Hp].
  - assert (Hle : (k <= length sockets)%nat) by lia.
    rewrite take_app_le by exact Hle.
    rewrite sockets_above_panels_app by (apply Forall_take; exact Hs).
    cbn [sockets_above_panels]. rewrite Hitem.
    apply sockets_above_panels_drop.
    rewrite sockets_above_panels_app by exact Hs.
    apply sockets_above_panels_panels. exact Hp.
Qed.

End InsertItem.

Lemma closest_valid_position_witness :
  clamp_position
    (@version_nodes_find_valid_insert_position_for_item sample_flags sockets_then_panels
       (NODE_INTERFACE_PANEL (Panel (Some "R"%string) 0 [])) 0)
    (items_array sockets_then_panels) = 2%nat
  /\ clamp_position
       (@version_nodes_find_valid_insert_position_for_item sample_flags sockets_then_panels
          (NODE_INTERFACE_SOCKET (sample_socket "C" "Socket_2" 1)) 4)
       (items_array sockets_then_panels) = 2%nat.
Proof.
  split.
  - apply (@closest_valid_position sample_flags sockets_then_panels
             (NODE_INTERFACE_PANEL (Panel (Some "R"%string) 0 [])) 0); reflexivity.
  - apply (@closest_valid_position sample_flags sockets_then_panels
             (NODE_INTERFACE_SOCKET (sample_socket "C" "Socket_2" 1)) 4); reflexivity.
Defined.

(** ** What a split changes in a panel *)

Section SplitCounts.
Context `{InterfaceFlags}.

Lemma count_dual_alter (f : bNodeTreeInterfaceItem -> bNodeTreeInterfaceItem)
    (items : list bNodeTreeInterfaceItem) :
  forall (i : nat) (item : bNodeTreeInterfaceItem),
    items !! i = Some item ->
    is_dual item = true ->
    is_dual (f item) = false ->
    S (count_dual (alter f i items)) = count_dual items.
Proof.
  unfold count_dual.
  induction items as [|x items IH]; intros [|i] item Hitem Hdual Hsingle; try discriminate.
  - injection Hitem as ->. cbn [alter list_alter].
    rewrite filter_cons_False by (rewrite Hsingle; discriminate).
    rewrite filter_cons_True by exact Hdual. reflexivity.
  - cbn [alter list_alter]. rewrite !filter_cons.
    destruct (decide (is_dual x = true)); cbn [length];
      rewrite <- (IH i item Hitem Hdual Hsingle); reflexivity.
Qed.

Lemma count_dual_put_in (items : list bNodeTreeInterfaceItem) (k : nat)
    (item : bNodeTreeInterfaceItem) :
  is_dual item = false ->
  count_dual (put_in items k item) = count_dual items.
Proof.
  intros Hsingle. unfold count_dual, put_in.
  rewrite filter_app, filter_cons_False by (rewrite Hsingle; discriminate).
  rewrite <- filter_app, take_drop. reflexivity.
Qed.

Lemma sockets_above_panels_kinds (items items' : list bNodeTreeInterfaceItem) :
  is_panel <$> items = is_panel <$> items' ->
  sockets_above_panels items = sockets_above_panels items'.
Proof.
  revert items'. induction items as [|x items IH]; intros [|x' items'] Hkinds;
    try discriminate; [reflexivity|].
  rewrite !fmap_cons in Hkinds. injection Hkinds as Hx Hkinds.
  cbn [sockets_above_panels]. rewrite Hx, (IH items' Hkinds).
  destruct (is_panel x'); [|reflexivity].
  clear IH. revert items' Hkinds.
  induction items as [|y items IH]; intros [|y' items'] Hkinds; try discriminate;
    [reflexivity|].
  rewrite !fmap_cons in Hkinds. injection Hkinds as Hy Hkinds.
  cbn [forallb]. rewrite Hy, (IH items' Hkinds). reflexivity.
Qed.

Lemma Forall_kinds (items items' : list bNodeTreeInterfaceItem) (kind : bool) :
  is_panel <$> items = is_panel <$> items' ->
  Forall (fun item => is_panel item = kind) items ->
  Forall (fun item => is_panel item = kind) items'.
Proof.
  revert items'. induction items as [|x items IH]; intros [|x' items'] Hkinds Hall;
    try discriminate; [constructor|].
  rewrite !fmap_cons in Hkinds. injection Hkinds as Hx Hkinds.
  apply Forall_cons_1 in Hall as [Hkind Hall].
  constructor; [congruence | apply IH; assumption].
Qed.

Lemma alter_socket_kinds (f : bNodeTreeInterfaceSocket -> bNodeTreeInterfaceSocket)
    (i : nat) (items : list bNodeTreeInterfaceItem) :
  is_panel <$> alter (alter_socket f) i items = is_panel <$> items.
Proof.
  apply fmap_alter_absorb. intros [socket | panel]; reflexivity.
Qed.

Lemma alter_socket_identifiers (mask : Z) (i : nat) (items : list bNodeTreeInterfaceItem) :
  item_identifier
    <$> alter (alter_socket (fun s => set_flag s (Z.land (flag s) (Z.lnot mask)))) i items
  = item_identifier <$> items.
Proof.
  apply fmap_alter_absorb. intros [socket | panel]; reflexivity.
Qed.

(** X14: the split of a socket flagged input and output, as the pass makes
    it, leaves one such socket less in the panel and one item more; the
    identifiers the items had stay where they were, around the one new
    identifier made from the counter; and in a panel that keeps its sockets
    above its panels, a layout with the sockets above the panels stays so. *)
Theorem split_socket_counts (next_uid : Z) (parent : bNodeTreeInterfacePanel)
    (position : nat) (socket : bNodeTreeInterfaceSocket)
    (Hitem : items_array parent !! position = Some (NODE_INTERFACE_SOCKET socket))
    (Hdual : input_and_output socket) :
  exists (parent' : bNodeTreeInterfacePanel) (k : nat),
    split_socket_at next_uid parent position = Ok (int_wrap (next_uid + 1), parent')
    /\ length (items_array parent') = S (length (items_array parent))
    /\ S (count_dual (items_array parent')) = count_dual (items_array parent)
    /\ (item_identifier <$> items_array parent') !! k
       = Some (Some ("Socket_" +:+ pretty next_uid))
    /\ delete k (item_identifier <$> items_array parent')
       = (item_identifier <$> items_array parent)
    /\ (flag_test (panel_flag parent) NODE_INTERFACE_PANEL_ALLOW_SOCKETS_AFTER_PANELS = false ->
        sockets_above_panels (items_array parent) = true ->
        sockets_above_panels (items_array parent') = true).
Proof.
  destruct masks_not_zero as (Hin & Hout & _ & _).
  destruct interface_masks_disjoint as (Hio & _).
  destruct Hdual as [Hdual_in Hdual_out].
  pose proof (lookup_lt_Some _ _ _ Hitem) as Hlt.
  pose proof (duplicate_position_le parent position Hlt) as Hk.
  set (k := duplicate_position parent position) in *.
  set (clear_input := alter_socket
         (fun s => set_flag s (Z.land (flag s) (Z.lnot NODE_INTERFACE_SOCKET_INPUT)))).
  set (clear_output := alter_socket
         (fun s => set_flag s (Z.land (flag s) (Z.lnot NODE_INTERFACE_SOCKET_OUTPUT)))).
  set (copy := NODE_INTERFACE_SOCKET
                 (version_copy_socket socket socket ("Socket_" +:+ pretty next_uid))).
  set (items := alter clear_input position (items_array parent)).
  assert (Hrun : split_socket_at next_uid parent position
                 = Ok (int_wrap (next_uid + 1),
                       set_items_array parent (put_in items k (clear_output copy)))).
  { unfold split_socket_at, version_node_group_split_socket.
    rewrite Hitem. cbn [deref mbind result_bind].
    unfold version_nodes_insert_item.
    rewrite (valid_insert_position parent position _ Hlt). fold k.
    cbn [items_array set_items_array panel_name panel_flag].
    rewrite (insert_then_alter _ _ _ _ position k Hlt Hk).
    reflexivity. }
  assert (Hkinds : is_panel <$> items = is_panel <$> items_array parent)
    by apply alter_socket_kinds.
  assert (Hlen : length (take k items) = k)
    by (rewrite length_take; unfold items; rewrite length_alter; lia).
  exists (set_items_array parent (put_in items k (clear_output copy))), k.
  split; [exact Hrun|].
  destruct parent as [pname pflag pitems].
  cbn [items_array set_items_array panel_flag] in *.
  split.
  { unfold put_in. rewrite length_app. cbn [length].
    rewrite length_take, length_drop. unfold items. rewrite length_alter. lia. }
  assert (Hno_input :
            flag_test (Z.land (flag socket) (Z.lnot NODE_INTERFACE_SOCKET_INPUT))
              NODE_INTERFACE_SOCKET_INPUT = false)
    by exact (flag_test_set_same (flag socket) _ false Hin).
  assert (Hno_output :
            flag_test (Z.land (flag socket) (Z.lnot NODE_INTERFACE_SOCKET_OUTPUT))
              NODE_INTERFACE_SOCKET_OUTPUT = false)
    by exact (flag_test_set_same (flag socket) _ false Hout).
  split.
  { rewrite count_dual_put_in.
    - apply (count_dual_alter _ _ _ _ Hitem).
      + cbn [is_dual]. rewrite Hdual_in, Hdual_out. reflexivity.
      + unfold clear_input. cbn [alter_socket is_dual set_flag flag].
        rewrite Hno_input. reflexivity.
    - unfold clear_output, copy.
      cbn [alter_socket is_dual set_flag flag version_copy_socket].
      rewrite Hno_output. apply andb_false_r. }
  split.
  { unfold put_in. rewrite fmap_app, fmap_cons.
    rewrite <- Hlen at 1. rewrite <- (length_fmap item_identifier).
    apply list_lookup_middle. reflexivity. }
  split.
  { unfold put_in. rewrite fmap_app, fmap_cons.
    rewrite <- Hlen at 1. rewrite <- (length_fmap item_identifier).
    rewrite delete_middle. rewrite <- fmap_app, take_drop.
    apply alter_socket_identifiers. }
  intros Hflag Hlayout.
  pose proof (insert_position_sockets (Panel pname pflag pitems)
                (version_copy_socket socket socket ("Socket_" +:+ pretty next_uid))
                (Z.of_nat position + 1) Hflag) as Hsockets.
  unfold clamp_position in Hsockets.
  rewrite (valid_insert_position (Panel pname pflag pitems) position _ Hlt) in Hsockets.
  fold k in Hsockets. cbn [items_array] in Hsockets.
  assert (Hsockets' : Forall (fun item => is_panel item = false) (take k items)).
  { apply (Forall_kinds (take k pitems)); [|exact Hsockets].
    rewrite !fmap_take, Hkinds. reflexivity. }
  unfold put_in. rewrite sockets_above_panels_app by exact Hsockets'.
  cbn [sockets_above_panels clear_output copy alter_socket is_panel].
  apply sockets_above_panels_drop.
  rewrite (sockets_above_panels_kinds _ _ Hkinds). exact Hlayout.
Qed.

End SplitCounts.

Lemma split_socket_counts_witness :
  exists parent' : bNodeTreeInterfacePanel,
    @split_socket_at sample_flags 8 sockets_then_panels 1 = Ok (9, parent')
    /\ @count_dual sample_flags (items_array parent') = 0%nat
    /\ sockets_above_panels (items_array parent') = true.
Proof.
  destruct (@split_socket_counts sample_flags 8 sockets_then_panels 1%nat
              (sample_socket "B" "Socket_1" 3) eq_refl (conj eq_refl eq_refl))
    as (parent' & k & Hrun & _ & Hcount & _ & _ & Hlayout).
  exists parent'. split; [exact Hrun|]. split.
  - injection Hcount as Hcount. exact Hcount.
  - apply Hlayout; reflexivity.
Defined.

(** ** The animation paths of the bone collections *)

Lemma substring_all (s : string) : String.substring 0 (String.length s) s = s.
Proof. induction s as [|c s IH]; [reflexivity|]. simpl. rewrite IH. reflexivity. Qed.

Lemma prefix_split (prefix s : string) :
  String.prefix prefix s = true -> s = prefix +:+ drop_known_prefix s prefix.
Proof.
  unfold drop_known_prefix. revert s.
  induction prefix as [|c prefix IH]; intros s Hprefix.
  - simpl. rewrite Nat.sub_0_r, substring_all. reflexivity.
  - destruct s as [|c' s]; [discriminate|].
    cbn [String.prefix] in Hprefix.
    destruct (Ascii.ascii_dec c c') as [<-|]; [|discriminate].
    simpl.
    change (String c s
            = String c (prefix +:+ String.substring (String.length prefix)
                                     (String.length s - String.length prefix) s)).
    f_equal. apply IH. exact Hprefix.
Qed.

Lemma prefix_append (prefix rest : string) : String.prefix prefix (prefix +:+ rest) = true.
Proof.
  induction prefix as [|c prefix IH].
  - destruct rest; reflexivity.
  - change (String.prefix (String c prefix) (String c (prefix +:+ rest)) = true).
    cbn [String.prefix]. destruct (Ascii.ascii_dec c c); [exact IH | contradiction].
Qed.

(** X15: [version_bonecollection_anim] rewrites a path that begins with
    "collections[" into "collections_all[" followed by what came after the
    prefix, and leaves every other path, a null one too, as it is; a path it
    has rewritten does not begin with "collections[" any more, so that going
    over a curve twice is going over it once. *)
Theorem bonecollection_anim_once (fcurve : FCurve) :
  (forall rest : string,
      rna_path fcurve = Some ("collections[" +:+ rest) ->
      version_bonecollection_anim fcurve = {| rna_path := Some ("collections_all[" +:+ rest) |})
  /\ (startswith (StringRef (rna_path fcurve)) "collections[" = false ->
      version_bonecollection_anim fcurve = fcurve)
  /\ startswith (StringRef (rna_path (version_bonecollection_anim fcurve))) "collections["
     = false
  /\ version_bonecollection_anim (version_bonecollection_anim fcurve)
     = version_bonecollection_anim fcurve.
Proof.
  assert (Hdone : startswith (StringRef (rna_path (version_bonecollection_anim fcurve)))
                    "collections[" = false).
  { unfold version_bonecollection_anim.
    destruct (startswith (StringRef (rna_path fcurve)) "collections[") eqn:Hstart;
      cbn [negb]; [reflexivity | exact Hstart]. }
  split; [|split; [|split]].
  - intros rest Hpath. unfold version_bonecollection_anim. rewrite Hpath.
    change (StringRef (Some ("collections[" +:+ rest))) with ("collections[" +:+ rest).
    assert (Hstart : startswith ("collections[" +:+ rest) "collections[" = true)
      by apply prefix_append.
    rewrite Hstart. cbn [negb]. do 3 f_equal.
    pose proof (prefix_split "collections[" _ Hstart) as Hsplit.
    apply (inj (String.append _)) in Hsplit. symmetry. exact Hsplit.
  - intros Hstart. unfold version_bonecollection_anim. rewrite Hstart. reflexivity.
  - exact Hdone.
  - unfold version_bonecollection_anim at 1. rewrite Hdone. reflexivity.
Qed.

(** ** The shadow settings of the objects *)

Section ShadowSettings.
Context `{ObjectKernel}.

Lemma shadow_casting_slots_spec (object : Object) (indices : list Z) (hide_shadows : bool) :
  shadow_casting_slots object indices hide_shadows = true
  <-> hide_shadows = true
      /\ Forall (fun i => exists material,
                   BKE_object_material_get object (i + 1) = Some material
                   /\ blend_shadow material = MA_BS_NONE) indices.
Proof.
  revert hide_shadows. induction indices as [|i indices IH]; intros hide_shadows.
  - simpl. split; [intros ->; split; [reflexivity | constructor] | intros [-> _]; reflexivity].
  - cbn [shadow_casting_slots]. rewrite IH. rewrite Forall_cons.
    destruct (BKE_object_material_get object (i + 1)) as [material|].
    + case_bool_decide as Hshadow; cbn [negb].
      * split; [intros [-> Hrest]; split; [reflexivity|split; [eauto | exact Hrest]]
               | intros [-> [_ Hrest]]; auto].
      * split; [intros [Hfalse _]; discriminate|].
        intros [_ [(material' & [= <-] & Hnone) _]]. contradiction.
    + split; [intros [Hfalse _]; discriminate|].
      intros [_ [(material' & Hnone & _) _]]. discriminate.
Qed.

(** X16: for an object with material slots, [versioning_eevee_shadow_settings]
    sets the bit [OB_HIDE_SHADOW] exactly when the object has at least one
    slot and every slot holds a material whose shadow mode is NONE, an empty
    slot counting as one that casts a shadow; the other bits of the
    visibility flags and the rest of the object stay as they are.  An
    object without material slots is left as it is. *)
Theorem shadow_settings_hide (object : Object) (material_len : Z)
    (Hmask : OB_HIDE_SHADOW <> 0)
    (Hlen : BKE_object_material_len_p object = Some material_len)
    (Hrange : 0 <= material_len) :
  exists object' : Object,
    versioning_eevee_shadow_settings object = Ok object'
    /\ ob_id_name object' = ob_id_name object
    /\ (flag_test (visibility_flag object') OB_HIDE_SHADOW = true
        <-> 0 < material_len
            /\ forall i : Z, 0 <= i < material_len ->
                 exists material : Material,
                   BKE_object_material_get object (i + 1) = Some material
                   /\ blend_shadow material = MA_BS_NONE)
    /\ (forall mask : Z,
          Z.land OB_HIDE_SHADOW mask = 0 ->
          flag_test (visibility_flag object') mask = flag_test (visibility_flag object) mask).
Proof.
  unfold versioning_eevee_shadow_settings. rewrite Hlen.
  destruct (Z.ltb_spec material_len 0) as [Hneg|_]; [lia|].
  eexists. split; [reflexivity|].
  cbn [set_visibility_flag ob_id_name visibility_flag].
  split; [reflexivity|]. split.
  - rewrite (flag_test_set_same _ _ _ Hmask), shadow_casting_slots_spec.
    rewrite Z.gtb_lt, Forall_forall.
    split; intros [Hpos Hall]; (split; [exact Hpos|]).
    + intros i Hi. apply Hall. apply elem_of_seqZ. lia.
    + intros i Hi. apply elem_of_seqZ in Hi. apply Hall. lia.
  - intros mask Hdis. apply flag_test_set_other. exact Hdis.
Qed.

End ShadowSettings.

Lemma shadow_settings_hide_witness :
  exists object' : Object,
    @versioning_eevee_shadow_settings sample_object_kernel
      {| ob_id_name := "OBnn"; visibility_flag := 3 |} = Ok object'
    /\ visibility_flag object' = 515.
Proof.
  destruct (@shadow_settings_hide sample_object_kernel
              {| ob_id_name := "OBnn"; visibility_flag := 3 |} 2)
    as (object' & Hrun & _).
  - simpl. discriminate.
  - reflexivity.
  - lia.
  - exists object'. split; [exact Hrun|].
    vm_compute in Hrun. injection Hrun as <-. reflexivity.
Defined.

(** An object with a slot whose material casts a shadow, and an object with
    an empty slot, do not get the bit; an object that is no mesh is not
    touched. *)
Example shadow_settings_samples :
  @versioning_eevee_shadow_settings sample_object_kernel
    {| ob_id_name := "OBns"; visibility_flag := 515 |}
  = Ok {| ob_id_name := "OBns"; visibility_flag := 3 |}
  /\ @versioning_eevee_shadow_settings sample_object_kernel
       {| ob_id_name := "OBn-"; visibility_flag := 0 |}
     = Ok {| ob_id_name := "OBn-"; visibility_flag := 0 |}
  /\ @versioning_eevee_shadow_settings sample_object_kernel
       {| ob_id_name := "OB"; visibility_flag := 512 |}
     = Ok {| ob_id_name := "OB"; visibility_flag := 0 |}
  /\ @versioning_eevee_shadow_settings sample_object_kernel
       {| ob_id_name := "Camera"; visibility_flag := 512 |}
     = Ok {| ob_id_name := "Camera"; visibility_flag := 512 |}.
Proof. vm_compute. repeat split. Qed.

(** ** The identifiers of the sockets of dynamic types *)

Lemma substring_zero_length (n : nat) (s : string) : String.substring n 0 s = EmptyString.
Proof.
  revert n. induction s as [|c s IH]; intros [|n]; try reflexivity. simpl. apply IH.
Qed.

(** A part of the beginning of a string that has the length asked for is a
    part of the string. *)
Lemma substring_of_prefix (s : string) :
  forall n m pos : nat,
    String.length (String.substring n m (String.substring 0 pos s)) = m ->
    String.substring n m (String.substring 0 pos s) = String.substring n m s.
Proof.
  induction s as [|c s IH]; intros n m pos Hlen.
  - destruct pos; reflexivity.
  - destruct pos as [|pos].
    + cbn [String.substring] in *.
      assert (m = 0%nat) as -> by (destruct n, m; simpl in Hlen; congruence).
      destruct n; rewrite ?substring_zero_length; reflexivity.
    + cbn [String.substring] in *. destruct n as [|n].
      * destruct m as [|m]; [reflexivity|].
        cbn [String.substring String.length] in *.
        rewrite (IH 0%nat m pos) by congruence. reflexivity.
      * cbn [String.substring] in *. apply IH. exact Hlen.
Qed.

Lemma substring_length_le (s : string) :
  forall n m : nat, (n + m <= String.length s)%nat ->
    String.length (String.substring n m s) = m.
Proof.
  induction s as [|c s IH]; intros n m Hle.
  - simpl in Hle. assert (n = 0%nat) as -> by lia. assert (m = 0%nat) as -> by lia. reflexivity.
  - destruct n as [|n]; cbn [String.substring].
    + destruct m as [|m]; [reflexivity|]. cbn [String.length] in *.
      rewrite (IH 0%nat m) by lia. reflexivity.
    + cbn [String.length] in Hle. apply IH. lia.
Qed.

(** The string in front of the first occurrence of a separator does not
    hold the separator. *)
Lemma strstr_cut (identifier separator : string) (pos : nat) :
  separator <> EmptyString ->
  strstr identifier separator = Some pos ->
  strstr (String.substring 0 pos identifier) separator = None.
Proof.
  unfold strstr. intros Hsep Hpos.
  destruct (String.index 0 separator (String.substring 0 pos identifier)) as [m|] eqn:Hm;
    [|reflexivity].
  exfalso.
  pose proof (String.index_correct1 _ _ _ _ Hm) as Hfound.
  assert (Hlen : String.length
                   (String.substring m (String.length separator)
                      (String.substring 0 pos identifier))
                 = String.length separator) by (rewrite Hfound; reflexivity).
  rewrite (substring_of_prefix _ _ _ _ Hlen) in Hfound.
  destruct (decide (m < pos)%nat) as [Hlt | Hge].
  - exact (String.index_correct2 _ _ _ _ Hpos m (Nat.le_0_l m) Hlt Hfound).
  - (* The occurrence would begin behind the end of the prefix. *)
    assert (Hshort : forall (s : string) (n k p : nat),
               (p <= n)%nat -> String.substring n k (String.substring 0 p s) = EmptyString).
    { induction s as [|c s IH]; intros n k p Hle.
      - destruct p, n; destruct k; reflexivity.
      - destruct p as [|p].
        + cbn [String.substring]. destruct n; destruct k; reflexivity.
        + destruct n as [|n]; [lia|]. cbn [String.substring]. apply IH. lia. }
    pose proof (String.index_correct1 _ _ _ _ Hm) as Hfound'.
    rewrite Hshort in Hfound' by lia. apply Hsep. symmetry. exact Hfound'.
Qed.

Section IdentifierSuffixes.
Context `{SocketLayout}.

Lemma identifier_suffixes_from_all (separator : string) (sockets : list bNodeSocket) :
  forall index : Z,
    identifier_suffixes_from sockets separator None index
    = identifier_suffix_cut separator <$> sockets.
Proof.
  induction sockets as [|socket sockets IH]; intros index; [reflexivity|].
  rewrite fmap_cons. cbn [identifier_suffixes_from]. unfold identifier_suffix_cut at 1.
  destruct (is_available socket); [destruct (strstr _ _)|]; rewrite IH; reflexivity.
Qed.

(** X17: without a total, the function goes over every socket: an
    unavailable socket gets "_deprecated" behind its identifier, as far as
    the array of the identifier has room, and an available socket keeps of
    its identifier what stands in front of the first separator.  Nothing else
    of a socket changes.  After the call the identifier of an available
    socket holds no separator, so that a second call leaves the available
    sockets as they are. *)
Theorem identifier_suffixes_cut_all (sockets : list bNodeSocket) (separator : string)
    (Hseparator : separator <> EmptyString) :
  let sockets' :=
    version_socket_identifier_suffixes_for_dynamic_types sockets separator None in
  sockets' = identifier_suffix_cut separator <$> sockets
  /\ (without_identifier <$> sockets') = (without_identifier <$> sockets)
  /\ Forall (fun socket =>
               is_available socket = true ->
               strstr (sock_identifier socket) separator = None) sockets'
  /\ Forall2 (fun socket socket'' => is_available socket = true -> socket'' = socket)
       sockets'
       (version_socket_identifier_suffixes_for_dynamic_types sockets' separator None).
Proof.
  intros sockets'.
  assert (Hrun : sockets' = identifier_suffix_cut separator <$> sockets)
    by apply identifier_suffixes_from_all.
  assert (Hclean : Forall (fun socket =>
                             is_available socket = true ->
                             strstr (sock_identifier socket) separator = None) sockets').
  { rewrite Hrun. apply Forall_fmap, Forall_forall. intros socket _.
    unfold compose, identifier_suffix_cut.
    destruct (is_available socket) eqn:Havailable.
    - destruct (strstr (sock_identifier socket) separator) as [pos|] eqn:Hpos.
      + intros _. cbn [set_identifier sock_identifier].
        apply strstr_cut; assumption.
      + intros _. exact Hpos.
    - unfold is_available in *. cbn [set_identifier sock_flag]. congruence. }
  split; [exact Hrun|]. split.
  { rewrite Hrun, <- list_fmap_compose. apply list_fmap_ext. intros _ socket _.
    unfold compose, identifier_suffix_cut.
    destruct (is_available socket); [destruct (strstr _ _)|]; reflexivity. }
  split; [exact Hclean|].
  unfold version_socket_identifier_suffixes_for_dynamic_types.
  rewrite identifier_suffixes_from_all.
  apply Forall2_fmap_r, Forall_Forall2_diag.
  eapply Forall_impl; [exact Hclean|].
  intros socket Hnone Havailable. unfold identifier_suffix_cut.
  rewrite Havailable, (Hnone Havailable). reflexivity.
Qed.

Lemma int_wrap_small (z : Z) : - 2 ^ 31 <= z < 2 ^ 31 -> int_wrap z = z.
Proof. intros Hz. unfold int_wrap. rewrite Z.mod_small by lia. lia. Qed.

Lemma has_suffix_false (separator : string) (socket : bNodeSocket) :
  has_suffix separator socket = false ->
  is_available socket = false
  \/ (is_available socket = true /\ strstr (sock_identifier socket) separator = None).
Proof.
  unfold has_suffix. destruct (is_available socket); [|left; reflexivity].
  destruct (strstr _ _); [discriminate|]. right. split; reflexivity.
Qed.

Lemma has_suffix_true (separator : string) (socket : bNodeSocket) :
  has_suffix separator socket = true ->
  is_available socket = true
  /\ exists pos, strstr (sock_identifier socket) separator = Some pos.
Proof.
  unfold has_suffix. destruct (is_available socket); [|discriminate].
  destruct (strstr _ _) as [pos|]; [|discriminate]. intros _. split; [reflexivity|].
  exists pos. reflexivity.
Qed.

Lemma identifier_suffixes_from_few (separator : string) (total : Z)
    (sockets : list bNodeSocket) :
  total < 2 ^ 31 ->
  forall index : Z,
    0 <= index ->
    index + Z.of_nat (suffix_count separator sockets) < total ->
    identifier_suffixes_from sockets separator (Some total) index
    = identifier_suffix_cut separator <$> sockets.
Proof.
  intros Htotal. unfold suffix_count.
  induction sockets as [|socket sockets IH]; intros index Hindex Hcount; [reflexivity|].
  rewrite fmap_cons. cbn [identifier_suffixes_from]. unfold identifier_suffix_cut at 1.
  rewrite filter_cons in Hcount.
  destruct (has_suffix separator socket) eqn:Hsuffix.
  - apply has_suffix_true in Hsuffix as [-> [pos ->]].
    rewrite decide_True in Hcount by reflexivity. cbn [length] in Hcount.
    rewrite int_wrap_small by lia.
    destruct (Z.eqb_spec (index + 1) total); [lia|].
    rewrite IH by lia. reflexivity.
  - rewrite decide_False in Hcount by discriminate.
    apply has_suffix_false in Hsuffix as [-> | [-> ->]]; rewrite IH by lia; reflexivity.
Qed.

Lemma identifier_suffixes_from_stop (separator : string) (total : Z)
    (pre : list bNodeSocket) (hit : bNodeSocket) (post : list bNodeSocket) :
  total < 2 ^ 31 ->
  has_suffix separator hit = true ->
  forall index : Z,
    0 <= index ->
    index + Z.of_nat (suffix_count separator pre) + 1 = total ->
    identifier_suffixes_from (pre ++ hit :: post) separator (Some total) index
    = (identifier_suffix_cut separator <$> pre)
      ++ identifier_suffix_cut separator hit :: post.
Proof.
  intros Htotal Hhit. unfold suffix_count.
  induction pre as [|socket pre IH]; intros index Hindex Hcount.
  - cbn [app fmap list_fmap identifier_suffixes_from]. unfold identifier_suffix_cut.
    apply has_suffix_true in Hhit as [-> [pos ->]].
    cbn [filter list_filter length] in Hcount.
    rewrite int_wrap_small by lia.
    destruct (Z.eqb_spec (index + 1) total); [reflexivity | lia].
  - rewrite fmap_cons. cbn [app identifier_suffixes_from]. unfold identifier_suffix_cut at 1.
    rewrite filter_cons in Hcount.
    destruct (has_suffix separator socket) eqn:Hsuffix.
    + apply has_suffix_true in Hsuffix as [-> [pos ->]].
      rewrite decide_True in Hcount by reflexivity. cbn [length] in Hcount.
      rewrite int_wrap_small by lia.
      destruct (Z.eqb_spec (index + 1) total); [lia|].
      rewrite IH by lia. reflexivity.
    + rewrite decide_False in Hcount by discriminate.
      apply has_suffix_false in Hsuffix as [-> | [-> ->]]; rewrite IH by lia; reflexivity.
Qed.

(** X18: with a total, the function stops at the socket where the number of
    identifiers it has cut reaches the total: the sockets in front of that
    socket and the socket itself are as a call without total leaves them, and
    the sockets behind it are untouched, the unavailable ones too, which are
    not renamed.  When fewer identifiers than the total hold the separator,
    the call does what a call without total does. *)
Theorem identifier_suffixes_total (sockets : list bNodeSocket) (separator : string)
    (total : Z)
    (Htotal : 1 <= total < 2 ^ 31) :
  (Z.of_nat (suffix_count separator sockets) < total ->
   version_socket_identifier_suffixes_for_dynamic_types sockets separator (Some total)
   = version_socket_identifier_suffixes_for_dynamic_types sockets separator None)
  /\ (forall (pre : list bNodeSocket) (hit : bNodeSocket) (post : list bNodeSocket),
        sockets = pre ++ hit :: post ->
        has_suffix separator hit = true ->
        Z.of_nat (suffix_count separator pre) + 1 = total ->
        version_socket_identifier_suffixes_for_dynamic_types sockets separator (Some total)
        = version_socket_identifier_suffixes_for_dynamic_types (pre ++ [hit]) separator None
          ++ post).
Proof.
  unfold version_socket_identifier_suffixes_for_dynamic_types. split.
  - intros Hfew. rewrite identifier_suffixes_from_all.
    apply identifier_suffixes_from_few; lia.
  - intros pre hit post -> Hhit Hcount.
    rewrite identifier_suffixes_from_all, fmap_app, <- app_assoc.
    apply identifier_suffixes_from_stop; [lia | exact Hhit | lia | lia].
Qed.

End IdentifierSuffixes.

Lemma identifier_suffixes_cut_all_witness :
  sock_identifier
    <$> @version_socket_identifier_suffixes_for_dynamic_types sample_layout
          dynamic_sockets "_" None
  = ["Value"; "Value_Vector_deprecated"; "Group Index"; "Domain"]%string.
Proof.
  destruct (@identifier_suffixes_cut_all sample_layout dynamic_sockets "_")
    as (Hrun & _).
  - discriminate.
  - rewrite Hrun. reflexivity.
Defined.

Lemma identifier_suffixes_total_witness :
  sock_identifier
    <$> @version_socket_identifier_suffixes_for_dynamic_types sample_layout
          dynamic_sockets "_" (Some 1)
  = ["Value"; "Value_Vector"; "Group Index"; "Domain"]%string.
Proof.
  destruct (@identifier_suffixes_total sample_layout dynamic_sockets "_" 1) as [_ Hstop].
  - lia.
  - rewrite (Hstop [] (set_identifier (float_socket "Value" F32.zero) "Value_Float")
               (tail dynamic_sockets) eq_refl eq_refl eq_refl).
    reflexivity.
Defined.

(** ** The analysis on the trees it can read, and the depth *)

Section AnalysisTotal.
Import AlphaSource.

Lemma BLI_findlink_input (n : node_ptr) (node : bNode) (index : nat) :
  (index < length (node_inputs node))%nat ->
  BLI_findlink n node SOCK_IN index = Some (SocketPtr n SOCK_IN index).
Proof.
  intros Hlt. unfold BLI_findlink. cbn [node_sockets].
  destruct (lookup_lt_is_Some_2 _ _ Hlt) as [sock ->]. reflexivity.
Qed.

(** The part of a call that reads the socket a node is classified by. *)
Lemma has_input_read (ntree : bNodeTree) (n : node_ptr) (node : bNode)
    (identifier : string) (P : bNodeSocket -> Prop) :
  nodes ntree !! n = Some node ->
  has_input node identifier P ->
  exists (s : socket_ptr) (sock : bNodeSocket),
    nodeFindSocket n node SOCK_IN identifier = Some s
    /\ socket_at ntree s = Ok sock
    /\ P sock.
Proof.
  intros Hnode (i & sock & Hfind & Hsock & HP).
  exists (SocketPtr n SOCK_IN i), sock.
  unfold nodeFindSocket, socket_at, node_at, node_ptr in *.
  cbn [node_sockets sp_node sp_in_out sp_index].
  rewrite Hfind, Hnode. cbn [deref mbind result_bind]. rewrite Hsock.
  repeat split. exact HP.
Qed.

(** X19: on a tree whose links resolve and whose nodes have the sockets the
    analysis reads, the analysis of a socket returns a source, at every
    depth, as soon as the call stack may hold the frames the depth needs: it
    dereferences no null pointer and reads no value through a storage of the
    wrong shape. *)
Theorem alpha_source_get_total (fuel : nat) :
  forall (ntree : bNodeTree) (s : socket_ptr) (depth : Z),
    tree_analysable ntree ->
    (alpha_source_fuel depth <= fuel)%nat ->
    exists a : t, versioning_eevee_alpha_source_get fuel ntree (Some s) depth = Ok a.
Proof.
  induction fuel as [|fuel IH]; intros ntree s depth Hwf Hfuel;
    [unfold alpha_source_fuel in Hfuel; lia|].
  cbn [versioning_eevee_alpha_source_get].
  destruct (Z.gtb_spec depth 100) as [Hcap | Hcap]; [eexists; reflexivity|].
  cbn [deref mbind result_bind].
  destruct (socket_link ntree s) as [link|] eqn:Hlink; [|eexists; reflexivity].
  destruct Hwf as [Hlinks Hnodes].
  assert (Hwf : tree_analysable ntree) by (split; assumption).
  apply socket_link_tosock in Hlink as [_ Hin].
  unfold links_resolve in Hlinks. rewrite Forall_forall in Hlinks.
  destruct (Hlinks link Hin) as (Hfrom & _).
  destruct (lookup_lt_is_Some_2 _ _ Hfrom) as [node Hnode].
  unfold node_at, node_ptr in *. rewrite Hnode. cbn [deref mbind result_bind].
  rewrite Forall_lookup in Hnodes. specialize (Hnodes _ _ Hnode).
  assert (Hrec : forall i, (i < length (node_inputs node))%nat ->
            exists a, versioning_eevee_alpha_source_get fuel ntree
                        (BLI_findlink (fromnode link) node SOCK_IN i) (depth + 1) = Ok a).
  { intros i Hi. rewrite (BLI_findlink_input _ _ _ Hi).
    apply IH; [exact Hwf | unfold alpha_source_fuel in *; lia]. }
  unfold node_analysable in Hnodes.
  destruct (node_type_of node); try (eexists; reflexivity).
  - apply Hrec. lia.
  - destruct (has_input_read ntree _ _ _ _ Hnode Hnodes)
      as (s' & sock & Hfind & Hsock & (r & g & b & a & Hvalue)).
    rewrite Hfind. cbn [deref mbind result_bind].
    destruct (socket_link ntree s'); [eexists; reflexivity|].
    rewrite Hsock. cbn [mbind result_bind].
    unfold version_cycles_node_socket_rgba_value. rewrite Hvalue.
    cbn [mbind result_bind].
    destruct (color_is _ F32.zero); [eexists; reflexivity|].
    destruct (color_is _ F32.one); eexists; reflexivity.
  - destruct Hnodes as [Hlen Hfac].
    destruct (Hrec 1%nat) as [src0 ->]; [lia|].
    destruct (Hrec 2%nat) as [src1 ->]; [lia|].
    destruct (has_input_read ntree _ _ _ _ Hnode Hfac)
      as (s' & sock & Hfind & Hsock & (v & Hvalue)).
    rewrite Hfind. cbn [deref mbind result_bind].
    destruct (socket_link ntree s'); [eexists; reflexivity|].
    rewrite Hsock. cbn [mbind result_bind].
    unfold version_cycles_node_socket_float_value. rewrite Hvalue.
    cbn [mbind result_bind].
    destruct (F32.eqb v F32.zero); [eexists; reflexivity|].
    destruct (F32.eqb v F32.one); eexists; reflexivity.
  - destruct (Hrec 0%nat) as [src0 ->]; [lia|].
    destruct (Hrec 1%nat) as [src1 ->]; [lia|].
    eexists; reflexivity.
  - destruct (has_input_read ntree _ _ _ _ Hnode Hnodes)
      as (s' & sock & Hfind & Hsock & (v & Hvalue)).
    rewrite Hfind. cbn [deref mbind result_bind].
    destruct (socket_link ntree s'); [eexists; reflexivity|].
    rewrite Hsock. cbn [mbind result_bind].
    unfold version_cycles_node_socket_float_value. rewrite Hvalue.
    cbn [mbind result_bind].
    destruct (F32.eqb v F32.zero); [eexists; reflexivity|].
    destruct (F32.eqb v F32.one); eexists; reflexivity.
  - destruct (has_input_read ntree _ _ _ _ Hnode Hnodes)
      as (s' & sock & Hfind & Hsock & (v & Hvalue)).
    rewrite Hfind. cbn [deref mbind result_bind].
    destruct (socket_link ntree s'); [eexists; reflexivity|].
    rewrite Hsock. cbn [mbind result_bind].
    unfold version_cycles_node_socket_float_value. rewrite Hvalue.
    cbn [mbind result_bind].
    destruct (F32.eqb v F32.zero); [eexists; reflexivity|].
    destruct (F32.eqb v F32.one); eexists; reflexivity.
Qed.

Lemma mix_complex_r (a : t) (fac : option socket_ptr) :
  mix a complex_alpha fac = complex_alpha.
Proof. unfold mix. cbn [is_complex complex_alpha state]. rewrite orb_true_r. reflexivity. Qed.

Lemma add_complex_r (a : t) : add a complex_alpha = complex_alpha.
Proof. unfold add. cbn [is_complex complex_alpha state]. rewrite orb_true_r. reflexivity. Qed.

(** X20: the depth a call starts at matters through the cap only, and the
    cap errs on the side of complex: when the analysis of a socket gives a
    source at some depth, the analysis of the same socket started deeper
    gives the same source or the complex one, never another classification. *)
Theorem alpha_source_get_deeper (fuel : nat) :
  forall (fuel' : nat) (ntree : bNodeTree) (socket : option socket_ptr) (depth depth' : Z)
         (a : t),
    depth <= depth' ->
    versioning_eevee_alpha_source_get fuel ntree socket depth = Ok a ->
    (alpha_source_fuel depth' <= fuel')%nat ->
    versioning_eevee_alpha_source_get fuel' ntree socket depth' = Ok a
    \/ versioning_eevee_alpha_source_get fuel' ntree socket depth' = Ok complex_alpha.
Proof.
  induction fuel as [|fuel IH]; intros fuel' ntree socket depth depth' a Hle Hget Hfuel;
    [discriminate|].
  destruct fuel' as [|fuel']; [unfold alpha_source_fuel in Hfuel; lia|].
  cbn [versioning_eevee_alpha_source_get] in *.
  destruct (Z.gtb_spec depth' 100) as [Hcap' | Hcap']; [right; reflexivity|].
  destruct (Z.gtb_spec depth 100) as [Hcap | Hcap]; [lia|].
  assert (IH' : forall s b,
             versioning_eevee_alpha_source_get fuel ntree s (depth + 1) = Ok b ->
             versioning_eevee_alpha_source_get fuel' ntree s (depth' + 1) = Ok b
             \/ versioning_eevee_alpha_source_get fuel' ntree s (depth' + 1)
                = Ok complex_alpha).
  { intros s b Hb. apply (IH fuel' ntree s (depth + 1) (depth' + 1) b); [lia | exact Hb |].
    unfold alpha_source_fuel in *. lia. }
  clear IH. revert Hget. unfold_bind.
  repeat first
    [ discriminate
    | match goal with
      | |- context [versioning_eevee_alpha_source_get fuel ntree ?s (depth + 1)] =>
          let E := fresh "E" in
          destruct (versioning_eevee_alpha_source_get fuel ntree s (depth + 1)) eqn:E;
          [ apply IH' in E as [E | E]; rewrite E | | ]
      | |- Ok _ = Ok _ -> _ => intros [= <-]
      end
    | break_match ];
    rewrite ?mix_complex_r, ?add_complex_r;
    first [ left; reflexivity | right; reflexivity ].
Qed.

End AnalysisTotal.

Lemma alpha_source_get_total_witness :
  exists a : AlphaSource.t,
    versioning_eevee_alpha_source_get 102 textured_alpha (Some (SocketPtr 0 SOCK_IN 0)) 0
    = Ok a.
Proof.
  apply (alpha_source_get_total 102 textured_alpha (SocketPtr 0 SOCK_IN 0) 0).
  - split.
    + unfold links_resolve, link_resolves. simpl. repeat constructor.
    + repeat constructor.
      exists 1%nat, (float_socket "Alpha" F32.one).
      split; [reflexivity|]. split; [reflexivity|]. exists F32.one. reflexivity.
  - unfold alpha_source_fuel. simpl. lia.
Defined.

Lemma alpha_source_get_deeper_witness :
  versioning_eevee_alpha_source_get 3 textured_alpha (Some (SocketPtr 0 SOCK_IN 0)) 100
  = Ok (AlphaSource.alpha_source (Some (SocketPtr 1 SOCK_IN 1)) false)
  \/ versioning_eevee_alpha_source_get 3 textured_alpha (Some (SocketPtr 0 SOCK_IN 0)) 100
     = Ok AlphaSource.complex_alpha.
Proof.
  apply (alpha_source_get_deeper 102 3 textured_alpha (Some (SocketPtr 0 SOCK_IN 0)) 0 100).
  - lia.
  - vm_compute. reflexivity.
  - unfold alpha_source_fuel. simpl. lia.
Defined.
